(** * omo-config-manager: intent resolution and safe mutation core

    A shallow embedding of [plugins/omo-config-manager/src/core.ts] and of the
    parts of [utils.ts] it calls, followed by the properties of the
    specification, each settled against the embedded code.

    Conventions of the embedding.
    - A JavaScript string is a [string] whose characters are the code units
      U+0000 to U+00FF (Latin-1); [toLowerCase] and the regular-expression
      class [\s] are given on that range.
    - A JavaScript object used as a map is an association list in insertion
      order; property lookup goes through [Object.prototype], as it does at
      run time for objects produced by [JSON.parse].
    - A JavaScript number is a [JsNumber]: a rational, an infinity or NaN.
      Only comparisons are performed on numbers by the code embedded here.
    - The configuration directory, the clock and the failures of I/O calls
      form an [Env], the files a [Store]; an asynchronous function is a
      function of both that returns or throws, leaves a store, and lists
      the effects it attempted.
    - A configuration file that parses holds a document of its declared
      type ([OmoConfig], [OpenCodeConfig]); a document of another shape
      (null, a list of hooks that is no array) is outside the embedding,
      and so are the type errors it raises.
    - The rounding of a decimal to binary64 is not modelled: a number read
      from text is its exact decimal value, or an infinity when it is too
      large for a finite number. *)

From Stdlib Require Import Bool Arith List String Ascii ZArith QArith Lia.
From Stdlib Require Import Permutation.
Import ListNotations.
Close Scope Q_scope.
Local Open Scope list_scope.
Local Open Scope string_scope.
Local Open Scope nat_scope.

Set Implicit Arguments.

(* ================================================================== *)
(** * Characters and strings *)

Module Js.

Definition code (c : ascii) : nat := nat_of_ascii c.

Definition between (lo hi : nat) (c : ascii) : bool :=
  (lo <=? code c) && (code c <=? hi).

Definition is_digit (c : ascii) : bool := between 48 57 c.
Definition is_upper (c : ascii) : bool := between 65 90 c.
Definition is_lower (c : ascii) : bool := between 97 122 c.
Definition is_letter (c : ascii) : bool := is_upper c || is_lower c.
Definition is_alnum (c : ascii) : bool := is_letter c || is_digit c.

Definition is_char (n : nat) (c : ascii) : bool := code c =? n.

Definition hyphen : nat := 45.
Definition underscore : nat := 95.
Definition dot : nat := 46.
Definition slash : nat := 47.

(** [\w] of a regular expression without the [u] flag. *)
Definition is_word (c : ascii) : bool := is_alnum c || is_char underscore c.

(** [\s] restricted to U+0000..U+00FF: TAB, LF, VT, FF, CR, SPACE, NBSP. *)
Definition is_space (c : ascii) : bool :=
  between 9 13 c || is_char 32 c || is_char 160 c.

(** [String.prototype.toLowerCase] on one Latin-1 code unit: A-Z and the
    accented capitals U+00C0..U+00DE (except the multiplication sign
    U+00D7) move up by 32. *)
Definition lower_char (c : ascii) : ascii :=
  if is_upper c || ((between 192 222 c) && negb (is_char 215 c))
  then ascii_of_nat (code c + 32)
  else c.

Fixpoint toLowerCase (s : string) : string :=
  match s with
  | EmptyString => EmptyString
  | String c rest => String (lower_char c) (toLowerCase rest)
  end.

(** [s.startsWith(p)] *)
Definition startsWith (s p : string) : bool := String.prefix p s.

(** [s.split(/\s+/)]: the pieces between maximal runs of white space; a
    leading or trailing run leaves an empty piece, and the empty string
    splits into one empty piece. *)
Fixpoint split_go (in_sep : bool) (cur : string) (s : string) : list string :=
  match s with
  | EmptyString => [cur]
  | String c rest =>
      if is_space c then
        if in_sep then split_go true cur rest
        else cur :: split_go true EmptyString rest
      else split_go false (cur ++ String c EmptyString) rest
  end.

Definition split_ws (s : string) : list string := split_go false EmptyString s.

(** [a.includes(x)] on an array of strings. *)
Definition includes (a : list string) (x : string) : bool :=
  existsb (String.eqb x) a.

(** [a.join(sep)] *)
Fixpoint join (sep : string) (a : list string) : string :=
  match a with
  | [] => EmptyString
  | [x] => x
  | x :: rest => x ++ sep ++ join sep rest
  end.

End Js.

(* ================================================================== *)
(** * The intent classifier: [parseAction] *)

Inductive ActionType : Type :=
| ListAgents | ListCategories | ListSkills | CheckUpdates | RunDiagnostics
| BackupConfigs | ShowPermissions | CompareBackup | RestoreBackup
| AddAgent | ModifyAgent | AddCategory | ModifyCategory
| DisableHook | EnableHook | ListOcModels | Unknown.

Module Classifier.

(** [words.some(w => w === word || w.startsWith(word))] *)
Definition hasWordIn (words : list string) (word : string) : bool :=
  existsb (fun w => String.eqb w word || Js.startsWith w word) words.

Definition words_of (request : string) : list string :=
  Js.split_ws (Js.toLowerCase request).

Definition parseAction (request : string) : ActionType :=
  let hasWord := hasWordIn (words_of request) in
  if (hasWord "list" || hasWord "show" || hasWord "what") && hasWord "agent"
  then ListAgents
  else if (hasWord "list" || hasWord "show" || hasWord "what") && hasWord "categor"
  then ListCategories
  else if (hasWord "list" || hasWord "show" || hasWord "what") && hasWord "skill"
  then ListSkills
  else if (hasWord "list" || hasWord "show") && (hasWord "model" || hasWord "oc-model")
  then ListOcModels
  else if hasWord "update" || (hasWord "check" && hasWord "update")
  then CheckUpdates
  else if hasWord "diagnostic" || (hasWord "run" && hasWord "diagnostic")
  then RunDiagnostics
  else if hasWord "valid" || (hasWord "check" && negb (hasWord "update"))
  then RunDiagnostics
  else if hasWord "backup" then BackupConfigs
  else if hasWord "restore" then RestoreBackup
  else if hasWord "compare" || hasWord "diff" then CompareBackup
  else if hasWord "permission" || hasWord "perm" then ShowPermissions
  else if hasWord "add" && hasWord "agent" then AddAgent
  else if (hasWord "modify" || hasWord "change" || hasWord "edit" || hasWord "update")
          && hasWord "agent"
  then ModifyAgent
  else if hasWord "add" && hasWord "categor" then AddCategory
  else if (hasWord "modify" || hasWord "change" || hasWord "edit" || hasWord "update")
          && hasWord "categor"
  then ModifyCategory
  else if hasWord "disable" && hasWord "hook" then DisableHook
  else if hasWord "enable" && hasWord "hook" then EnableHook
  else Unknown.

End Classifier.

(* ================================================================== *)
(** * Regular expressions

    The fragment of JavaScript regular expressions that [core.ts] uses, with
    the backtracking semantics of the language: alternatives are tried left
    to right, quantifiers are greedy, and [String.prototype.match] (without
    the [g] flag) returns the leftmost match.  Every quantified item of the
    source is a character class, so repetition is over classes. *)

Module Regex.

Inductive Re : Type :=
| Eps
| Chr (p : ascii -> bool)
| Seq (a b : Re)
| Alt (a b : Re)
| Rep (p : ascii -> bool) (lo : nat) (hi : option nat)
| WordB
| Cap (i : nat) (a : Re).

Definition Caps : Type := list (nat * string).

(** A continuation receives the character before the current position, the
    rest of the input and the groups captured so far. *)
Definition Cont : Type := option ascii -> list ascii -> Caps -> option Caps.

Definition word_at (c : option ascii) : bool :=
  match c with Some x => Js.is_word x | None => false end.

(** [\b]: exactly one side of the position is a word character. *)
Definition boundary (prev : option ascii) (inp : list ascii) : bool :=
  xorb (word_at prev) (word_at (hd_error inp)).

Fixpoint rep (p : ascii -> bool) (lo : nat) (hi : option nat)
         (prev : option ascii) (inp : list ascii) (caps : Caps) (k : Cont)
         {struct inp} : option Caps :=
  let stop := match lo with 0 => k prev inp caps | S _ => None end in
  match inp with
  | [] => stop
  | c :: rest =>
      if p c && match hi with Some 0 => false | _ => true end then
        match rep p (pred lo) (option_map pred hi) (Some c) rest caps k with
        | Some r => Some r
        | None => stop
        end
      else stop
  end.

Fixpoint run (r : Re) (prev : option ascii) (inp : list ascii) (caps : Caps)
         (k : Cont) {struct r} : option Caps :=
  match r with
  | Eps => k prev inp caps
  | Chr p =>
      match inp with
      | c :: rest => if p c then k (Some c) rest caps else None
      | [] => None
      end
  | Seq a b => run a prev inp caps (fun prev' inp' caps' => run b prev' inp' caps' k)
  | Alt a b =>
      match run a prev inp caps k with
      | Some r => Some r
      | None => run b prev inp caps k
      end
  | Rep p lo hi => rep p lo hi prev inp caps k
  | WordB => if boundary prev inp then k prev inp caps else None
  | Cap i a =>
      run a prev inp caps
          (fun prev' inp' caps' =>
             k prev' inp'
               ((i, string_of_list_ascii
                      (firstn (List.length inp - List.length inp') inp))
                  :: caps'))
  end.

Fixpoint search_from (r : Re) (prev : option ascii) (inp : list ascii)
  : option Caps :=
  match run r prev inp [] (fun _ _ caps => Some caps) with
  | Some caps => Some caps
  | None =>
      match inp with
      | [] => None
      | c :: rest => search_from r (Some c) rest
      end
  end.

(** [s.match(r)]: the groups of the leftmost match, if any. *)
Definition exec (r : Re) (s : string) : option Caps :=
  search_from r None (list_ascii_of_string s).

Definition matched (m : option Caps) : bool :=
  match m with Some _ => true | None => false end.

(** The continuation of an anchored pattern: nothing may be left. *)
Definition at_end : Cont :=
  fun _ rest caps => match rest with [] => Some caps | _ => None end.

(** [/^r$/.test(s)]: a match that starts at the first character and ends
    after the last one. *)
Definition full_match (r : Re) (s : string) : bool :=
  matched (run r None (list_ascii_of_string s) [] at_end).

(** [r.test(s)] *)
Definition test (r : Re) (s : string) : bool := matched (exec r s).

(** [m?.[i]]: [None] stands for [undefined] (no match, or a group that took
    no part in the match). *)
Fixpoint group (i : nat) (caps : Caps) : option string :=
  match caps with
  | [] => None
  | (j, s) :: rest => if Nat.eqb i j then Some s else group i rest
  end.

Definition captured (i : nat) (m : option Caps) : option string :=
  match m with Some caps => group i caps | None => None end.

Definition Opt (a : Re) : Re := Alt a Eps.
Definition Star (p : ascii -> bool) : Re := Rep p 0 None.
Definition Plus (p : ascii -> bool) : Re := Rep p 1 None.

Fixpoint seqs (rs : list Re) : Re :=
  match rs with
  | [] => Eps
  | [r] => r
  | r :: rest => Seq r (seqs rest)
  end.

(** A literal under the [i] flag; the literals of the source are lower-case
    ASCII, and no character outside ASCII folds onto an ASCII one. *)
Fixpoint lit_i (s : string) : Re :=
  match s with
  | EmptyString => Eps
  | String c rest =>
      Seq (Chr (fun x => Ascii.eqb (Js.lower_char x) c && Js.between 0 127 x))
          (lit_i rest)
  end.

(** A literal matched exactly. *)
Fixpoint lit (s : string) : Re :=
  match s with
  | EmptyString => Eps
  | String c rest => Seq (Chr (Ascii.eqb c)) (lit rest)
  end.

End Regex.

(* ================================================================== *)
(** * Values: numbers, JSON, configuration documents ([types.ts]) *)

(** A JavaScript number, as far as comparison is concerned. *)
Inductive JsNumber : Type :=
| NaN
| NegInf
| Fin (q : Q)
| PosInf.

Module Num.

Definition Qltb (a b : Q) : bool := negb (Qle_bool b a).

(** [x < y] *)
Definition lt (x y : JsNumber) : bool :=
  match x, y with
  | NaN, _ | _, NaN => false
  | NegInf, NegInf => false
  | NegInf, _ => true
  | Fin a, Fin b => Qltb a b
  | Fin _, PosInf => true
  | Fin _, NegInf => false
  | PosInf, _ => false
  end.

(** [x > y] *)
Definition gt (x y : JsNumber) : bool := lt y x.

Definition of_nat (n : nat) : JsNumber := Fin (inject_Z (Z.of_nat n)).

Definition zero : JsNumber := of_nat 0.
Definition one : JsNumber := of_nat 1.

(** The mathematical statement [lo <= x <= hi] for a number that has a
    value; NaN is in no interval. *)
Definition in_range (lo hi : Q) (x : JsNumber) : Prop :=
  match x with
  | Fin q => (lo <= q)%Q /\ (q <= hi)%Q
  | _ => False
  end.

(** An array index: [Some i] when the number is a non-negative integer. *)
Definition as_index (x : JsNumber) : option nat :=
  match x with
  | Fin q =>
      let r := Qred q in
      if (Z.pos (Qden r) =? 1)%Z && (0 <=? Qnum r)%Z
      then Some (Z.to_nat (Qnum r))
      else None
  | _ => None
  end.

Fixpoint digits (acc : Z) (s : string) : Z :=
  match s with
  | EmptyString => acc
  | String c rest => digits (10 * acc + Z.of_nat (Js.code c - 48))%Z rest
  end.

(** [Number.parseInt(s, 10)] on a string of decimal digits. *)
Definition parseInt (s : string) : JsNumber := Fin (inject_Z (digits 0%Z s)).

Fixpoint split_dot (acc : string) (s : string) : string * string :=
  match s with
  | EmptyString => (acc, EmptyString)
  | String c rest =>
      if Js.is_char Js.dot c then (acc, rest)
      else split_dot (acc ++ String c EmptyString) rest
  end.

(** [Number.isFinite(x)] *)
Definition isFinite (x : JsNumber) : bool :=
  match x with
  | Fin _ => true
  | _ => false
  end.

(** The least value that rounds past the largest binary64 number: half an
    ulp above it. *)
Definition overflow : Z := (2 ^ 1024 - 2 ^ 970)%Z.

(** [Number.parseFloat(s)] on a string of the shape [digits(.digits)?]:
    [Infinity] from the overflow threshold on, and below it the exact
    decimal value (the rounding of a finite value to binary64 is not
    modelled). *)
Definition parseFloat (s : string) : JsNumber :=
  let (ip, fp) := split_dot EmptyString s in
  let q := Qmake (digits (digits 0%Z ip) fp)
                 (Z.to_pos (10 ^ Z.of_nat (String.length fp))) in
  if Qle_bool (inject_Z overflow) q then PosInf else Fin q.

End Num.

(** An uninterpreted JSON value ([unknown] in the source's types). *)
#[local] Unset Elimination Schemes.
Inductive Json : Type :=
| JNull
| JBool (b : bool)
| JNum (n : JsNumber)
| JStr (s : string)
| JArr (items : list Json)
| JObj (fields : list (string * Json)).
#[local] Set Elimination Schemes.

(** [interface OmoAgent]; [None] is an absent ([undefined]) property. *)
Record OmoAgent : Type := mkAgent {
  a_model : option string;
  a_temperature : option JsNumber;
  a_disable : option bool;
  a_prompt_append : option string;
  a_permission : option (list (string * string));
  a_description : option string;
  a_tools : option (list (string * Json));
  a_top_p : option JsNumber;
  a_maxTokens : option JsNumber
}.

(** [interface OmoCategory] *)
Record OmoCategory : Type := mkCategory {
  c_model : option string;
  c_temperature : option JsNumber;
  c_top_p : option JsNumber;
  c_maxTokens : option JsNumber;
  c_prompt_append : option string
}.

Definition empty_agent : OmoAgent :=
  mkAgent None None None None None None None None None.

Definition empty_category : OmoCategory :=
  mkCategory None None None None None.

(** A parsed configuration document.  [interface OmoConfig] names [agents],
    [categories] and [disabled_hooks]; every other top-level key (those of
    [interface OpenCodeConfig] included) is carried along in [passthrough],
    since the functions embedded here never look inside them. *)
Record Config : Type := mkConfig {
  agents : option (list (string * OmoAgent));
  categories : option (list (string * OmoCategory));
  disabled_hooks : option (list string);
  passthrough : list (string * Json)
}.

(** The object literal [{}]. *)
Definition empty_config : Config := mkConfig None None None [].

(* ------------------------------------------------------------------ *)
(** ** Objects as maps *)

Module Obj.

(** The own properties of [Object.prototype]; a lookup of one of these
    names on a plain object that has no such own property finds the
    inherited member. *)
Definition prototype_members : list string :=
  [ "constructor"; "__defineGetter__"; "__defineSetter__"; "hasOwnProperty";
    "__lookupGetter__"; "__lookupSetter__"; "isPrototypeOf";
    "propertyIsEnumerable"; "toString"; "valueOf"; "__proto__";
    "toLocaleString" ].

Inductive Lookup (A : Type) : Type :=
| Own (a : A)
| Inherited
| Undefined.

Arguments Inherited {A}.
Arguments Undefined {A}.

Fixpoint own {A : Type} (o : list (string * A)) (k : string) : option A :=
  match o with
  | [] => None
  | (k', v) :: rest => if String.eqb k k' then Some v else own rest k
  end.

(** [o[k]] *)
Definition get {A : Type} (o : list (string * A)) (k : string) : Lookup A :=
  match own o k with
  | Some v => Own v
  | None => if Js.includes prototype_members k then Inherited else Undefined
  end.

(** [!o[k]] for an object whose own properties hold objects: an own entry
    and an inherited member are both truthy. *)
Definition falsy {A : Type} (l : Lookup A) : bool :=
  match l with
  | Undefined => true
  | _ => false
  end.

(** [o[k] = v] for a key that is not an accessor of the prototype: an
    existing own property keeps its place, a new one goes last. *)
Fixpoint set {A : Type} (o : list (string * A)) (k : string) (v : A)
  : list (string * A) :=
  match o with
  | [] => [(k, v)]
  | (k', v') :: rest =>
      if String.eqb k k' then (k, v) :: rest else (k', v') :: set rest k v
  end.

(** [Object.keys(o)] *)
Definition keys {A : Type} (o : list (string * A)) : list string := map fst o.

End Obj.

(* ================================================================== *)
(** * Key safety, the hook registry and the parameter extractor *)

Definition FORBIDDEN_KEYS : list string := ["__proto__"; "prototype"; "constructor"].

(** The class [[a-z0-9_-]] under the [i] flag. *)
Definition key_char (c : ascii) : bool :=
  Js.is_alnum c || Js.is_char Js.underscore c || Js.is_char Js.hyphen c.

(** [[a-z0-9][a-z0-9_-]{0,63}] under the [i] flag. *)
Definition key_re : Regex.Re :=
  Regex.Seq (Regex.Chr Js.is_alnum) (Regex.Rep key_char 0 (Some 63)).

Definition isSafeConfigKey (key : string) : bool :=
  match key with
  | EmptyString => false
  | _ =>
      if Js.includes FORBIDDEN_KEYS (Js.toLowerCase key) then false
      else Regex.full_match key_re key
  end.

Definition KNOWN_HOOKS : list string :=
  [ "todo-continuation-enforcer";
    "context-window-monitor";
    "session-recovery";
    "session-notification";
    "comment-checker";
    "grep-output-truncator";
    "tool-output-truncator";
    "directory-agents-injector";
    "directory-readme-injector";
    "empty-task-response-detector";
    "think-mode";
    "anthropic-context-window-limit-recovery";
    "rules-injector";
    "background-notification";
    "auto-update-checker";
    "startup-toast";
    "keyword-detector";
    "agent-usage-reminder";
    "non-interactive-env";
    "interactive-bash-session";
    "compaction-context-injector";
    "thinking-block-validator";
    "claude-code-hooks";
    "ralph-loop";
    "preemptive-compaction" ].

Record ActionOptions : Type := mkOptions {
  backupIndex : option JsNumber;
  agentName : option string;
  categoryName : option string;
  hookName : option string;
  agentData : option OmoAgent;
  categoryData : option OmoCategory
}.

Definition no_options : ActionOptions :=
  mkOptions None None None None None None.

(** [x ?? y] *)
Definition orElse {A : Type} (x y : option A) : option A :=
  match x with Some _ => x | None => y end.

Infix "??" := orElse (at level 61, left associativity).

(** Truthiness of an optional string: defined and not empty. *)
Definition truthy (s : option string) : bool :=
  match s with
  | Some (String _ _) => true
  | _ => false
  end.

Module Extract.

Import Regex.

Definition quote_char (n : nat) (c : ascii) : bool := Js.is_char n c.
Definition not_char (n : nat) (c : ascii) : bool := negb (Js.is_char n c).

Definition dquote : nat := 34.
Definition squote : nat := 39.

(** The optional group of the model and temperature patterns: the word
    [to] followed by any white space. *)
Definition opt_to : Re := Opt (Seq (lit_i "to") (Star Js.is_space)).

(** A value between double quotes (group 1) or between single quotes
    (group 2); the value is not empty and holds no closing quote. *)
Definition quoted : Re :=
  Alt (seqs [Chr (quote_char dquote); Cap 1 (Plus (not_char dquote));
             Chr (quote_char dquote)])
      (seqs [Chr (quote_char squote); Cap 2 (Plus (not_char squote));
             Chr (quote_char squote)]).

(** [s.trim()] *)
Fixpoint trim_start (s : string) : string :=
  match s with
  | String c rest => if Js.is_space c then trim_start rest else s
  | EmptyString => EmptyString
  end.

Definition rev_string (s : string) : string :=
  string_of_list_ascii (rev (list_ascii_of_string s)).

Definition trim (s : string) : string :=
  rev_string (trim_start (rev_string (trim_start s))).

(** [Number.isFinite(n) ? n : undefined] *)
Definition finite (n : JsNumber) : option JsNumber :=
  if Num.isFinite n then Some n else None.

Definition extractFirstInt (request : string) : option JsNumber :=
  let m := exec (seqs [WordB; Cap 1 (Rep Js.is_digit 1 (Some 3)); WordB]) request in
  match captured 1 m with
  | Some text => finite (Num.parseInt text)
  | None => None
  end.

Definition extractKeyAfterWord (request word : string) : option string :=
  let re := seqs [WordB; lit_i word; WordB; Plus Js.is_space;
                  Opt (Alt (lit_i "named") (lit_i "called"));
                  Star Js.is_space; Cap 1 key_re; WordB] in
  captured 1 (exec re request).

Definition extractKeyBeforeWord (request word : string) : option string :=
  let re := seqs [WordB; Cap 1 key_re; Plus Js.is_space; lit_i word; WordB] in
  captured 1 (exec re request).

Definition extractHookName (request : string) : option string :=
  match extractKeyAfterWord request "hook" with
  | Some (String c rest) => Some (String c rest)
  | _ =>
      let lower := Js.toLowerCase request in
      find (fun hook => Regex.test (lit hook) lower) KNOWN_HOOKS
  end.

Definition model_char (c : ascii) : bool :=
  Js.is_alnum c || Js.is_char Js.dot c || Js.is_char Js.underscore c
  || Js.is_char Js.slash c || Js.is_char Js.hyphen c.

Definition extractModel (request : string) : option string :=
  let mQuoted := exec (seqs [WordB; lit_i "model"; WordB; Star Js.is_space;
                             opt_to; quoted]) request in
  let mBare := exec (seqs [WordB; lit_i "model"; WordB; Star Js.is_space;
                           opt_to; Cap 1 (Plus model_char); WordB]) request in
  let raw := captured 1 mQuoted ?? captured 2 mQuoted ?? captured 1 mBare in
  if truthy raw then option_map trim raw else None.

Definition extractTemperature (request : string) : option JsNumber :=
  let number := Seq (Plus Js.is_digit)
                    (Opt (Seq (Chr (quote_char Js.dot)) (Plus Js.is_digit))) in
  let m := exec (seqs [WordB; lit_i "temperature"; WordB; Star Js.is_space;
                       opt_to; Cap 1 number; WordB]) request in
  match captured 1 m with
  | Some text => finite (Num.parseFloat text)
  | None => None
  end.

Definition extractQuotedField (request field : string) : option string :=
  let sep c := Js.is_char 58 c || Js.is_char 61 c in
  let m := exec (seqs [WordB; lit_i field; WordB; Star Js.is_space;
                       Opt (Chr sep); Star Js.is_space; quoted]) request in
  option_map trim (captured 1 m ?? captured 2 m).

Definition is_modify_agent (a : ActionType) : bool :=
  match a with ModifyAgent => true | _ => false end.

(** [Object.keys(agentData).length] is not zero. *)
Definition agent_has_keys (d : OmoAgent) : bool :=
  match d with
  | mkAgent None None None None None None None None None => false
  | _ => true
  end.

Definition category_has_keys (d : OmoCategory) : bool :=
  match d with
  | mkCategory None None None None None => false
  | _ => true
  end.

Definition keep (s : option string) : option string :=
  if truthy s then s else None.

Definition inferOptionsFromRequest (action : ActionType) (request : string)
  : ActionOptions :=
  let agentName :=
    extractKeyAfterWord request "agent" ?? extractKeyAfterWord request "agents"
    ?? extractKeyBeforeWord request "agent" ?? extractKeyBeforeWord request "agents" in
  let categoryName :=
    extractKeyAfterWord request "category" ?? extractKeyAfterWord request "categories"
    ?? extractKeyBeforeWord request "category"
    ?? extractKeyBeforeWord request "categories" in
  let hookName := extractHookName request in
  let backupIndex := extractFirstInt request in
  let model := extractModel request in
  let temperature := extractTemperature request in
  let description := extractQuotedField request "description" in
  let prompt_append :=
    extractQuotedField request "prompt_append"
    ?? extractQuotedField request "prompt"
    ?? extractQuotedField request "instructions" in
  let lower := Js.toLowerCase request in
  let word w := seqs [WordB; lit w; WordB] in
  let no_hook := negb (Regex.test (word "hook") lower) in
  let wantsDisableAgent :=
    is_modify_agent action && Regex.test (word "disable") lower && no_hook in
  let wantsEnableAgent :=
    is_modify_agent action && Regex.test (word "enable") lower && no_hook in
  let agentData :=
    mkAgent model temperature
            (if wantsEnableAgent then Some false
             else if wantsDisableAgent then Some true else None)
            prompt_append None description None None None in
  let categoryData := mkCategory model temperature None None prompt_append in
  mkOptions backupIndex (keep agentName) (keep categoryName) (keep hookName)
            (if agent_has_keys agentData then Some agentData else None)
            (if category_has_keys categoryData then Some categoryData else None).

(** [{ ...a, ...b }] on agent data: a property of [b] wins. *)
Definition merge_agent (a b : OmoAgent) : OmoAgent :=
  mkAgent (a_model b ?? a_model a)
          (a_temperature b ?? a_temperature a)
          (a_disable b ?? a_disable a)
          (a_prompt_append b ?? a_prompt_append a)
          (a_permission b ?? a_permission a)
          (a_description b ?? a_description a)
          (a_tools b ?? a_tools a)
          (a_top_p b ?? a_top_p a)
          (a_maxTokens b ?? a_maxTokens a).

Definition merge_category (a b : OmoCategory) : OmoCategory :=
  mkCategory (c_model b ?? c_model a)
             (c_temperature b ?? c_temperature a)
             (c_top_p b ?? c_top_p a)
             (c_maxTokens b ?? c_maxTokens a)
             (c_prompt_append b ?? c_prompt_append a).

Definition or_default {A : Type} (d : A) (x : option A) : A :=
  match x with Some v => v | None => d end.

Definition mergeOptions (a b : option ActionOptions) : option ActionOptions :=
  match a, b with
  | None, None => None
  | _, _ =>
      let a' := or_default no_options a in
      let b' := or_default no_options b in
      Some (mkOptions
              (backupIndex b' ?? backupIndex a')
              (agentName b' ?? agentName a')
              (categoryName b' ?? categoryName a')
              (hookName b' ?? hookName a')
              (Some (merge_agent (or_default empty_agent (agentData a'))
                                 (or_default empty_agent (agentData b'))))
              (Some (merge_category (or_default empty_category (categoryData a'))
                                    (or_default empty_category (categoryData b')))))
  end.

End Extract.

(* ================================================================== *)
(** * The clock and [createTimestamp] ([utils.ts]) *)

(** An instant with the zone it is observed in: seconds since the epoch and
    the offset of local time from UTC in minutes. *)
Record Date : Type := mkDate {
  epoch : Z;
  tz_minutes : Z
}.

Module Clock.

Local Open Scope Z_scope.

(** The proleptic Gregorian date of a day number counted from 1970-01-01. *)
Definition civil_from_days (days : Z) : Z * Z * Z :=
  let z := days + 719468 in
  let era := z / 146097 in
  let doe := z - era * 146097 in
  let yoe := (doe - doe / 1460 + doe / 36524 - doe / 146096) / 365 in
  let doy := doe - (365 * yoe + yoe / 4 - yoe / 100) in
  let mp := (5 * doy + 2) / 153 in
  let d := doy - (153 * mp + 2) / 5 + 1 in
  let m := if mp <? 10 then mp + 3 else mp - 9 in
  let y := yoe + era * 400 + (if m <=? 2 then 1 else 0) in
  (y, m, d).

Definition digit (n : Z) : ascii := ascii_of_nat (48 + Z.to_nat (n mod 10)).

(** The [w] low decimal digits of [n], most significant first. *)
Fixpoint fixed (w : nat) (n : Z) : string :=
  match w with
  | O => EmptyString
  | S w' => (fixed w' (n / 10) ++ String (digit n) EmptyString)%string
  end.

(** [toISOString().split('T')[0]]: the UTC date, [YYYY-MM-DD]; a year
    outside 0..9999 is written with a sign and six digits. *)
Definition iso_date (d : Date) : string :=
  let '(y, m, dd) := civil_from_days (epoch d / 86400) in
  let year :=
    if (0 <=? y) && (y <=? 9999) then fixed 4 y
    else ((if (y <? 0)%Z then "-" else "+") ++ fixed 6 (Z.abs y))%string in
  (year ++ "-" ++ fixed 2 m ++ "-" ++ fixed 2 dd)%string.

(** [toTimeString().split(' ')[0]]: the local time of day, [HH:MM:SS]. *)
Definition time_of_day (d : Date) : string :=
  let s := (epoch d + 60 * tz_minutes d) mod 86400 in
  (fixed 2 (s / 3600)%Z ++ ":" ++ fixed 2 ((s / 60) mod 60)%Z ++ ":"
     ++ fixed 2 (s mod 60)%Z)%string.

(** [s.replace(/c/g, '')] for a one-character pattern. *)
Fixpoint remove_char (n : nat) (s : string) : string :=
  match s with
  | EmptyString => EmptyString
  | String c rest =>
      if Js.is_char n c then remove_char n rest
      else String c (remove_char n rest)
  end.

Definition createTimestamp (now : Date) : string :=
  let date := remove_char Js.hyphen (iso_date now) in
  let time := remove_char 58 (time_of_day now) in
  (date ++ "-" ++ time)%string.

End Clock.

(* ================================================================== *)
(** * The file system *)

Inductive Ext : Type := DotJson | DotJsonc.

(** The files the program touches: the two candidates of each configuration
    file in the configuration directory, and the entries of its [archive]
    sub-directory. *)
Inductive Path : Type :=
| OmoFile (e : Ext)
| OcFile (e : Ext)
| ArchiveFile (name : string).

(** What a file holds: a document the lenient parser accepts, or text it
    rejects. *)
Inductive Content : Type :=
| Parsed (c : Config)
| Malformed.

Inductive Op : Type :=
| OpMkdirArchive
| OpReaddir
| OpCopy (dst : Path)
| OpWrite (dst : Path)
| OpUnlink (dst : Path).

(** The effects of a run, in the order they are attempted. *)
Inductive Event : Type :=
| EBackupStart (omoPath ocPath : Path)
| EMkdirArchive
| ECopyFile (src dst : Path)
| EWriteJson (dst : Path)
| EUnlink (dst : Path).

(** What a run cannot change: where the configuration lives, the time, and
    which I/O calls fail (permissions, full disk and the like). *)
Record Env : Type := mkEnv {
  config_dir : string;
  now : Date;
  faults : Op -> bool
}.

(** What a run can change.  [archive] is [None] while the directory does
    not exist; a directory lists its entries in creation order. *)
Record Store : Type := mkStore {
  omo_json : option Content;
  omo_jsonc : option Content;
  oc_json : option Content;
  oc_jsonc : option Content;
  archive : option (list (string * Content))
}.

Inductive Exn : Type :=
| Enoent (p : Path)
| IoError (op : Op)
| ParseError (p : Path)
| TypeError.

Inductive Result (A : Type) : Type :=
| Ok (a : A)
| Throw (e : Exn).

Arguments Throw {A} e.

(** The outcome of running a piece of the program: what it returned or
    threw, the store it left, and the effects it attempted, in order. *)
Record Run (A : Type) : Type := mkRun {
  result : Result A;
  final : Store;
  events : list Event
}.

Definition M (A : Type) : Type := Env -> Store -> Run A.

Definition ret {A : Type} (a : A) : M A := fun _ s => mkRun (Ok a) s [].

Definition throw {A : Type} (e : Exn) : M A := fun _ s => mkRun (Throw e) s [].

Definition bind {A B : Type} (m : M A) (k : A -> M B) : M B :=
  fun env s =>
    let r := m env s in
    match result r with
    | Ok a =>
        let r' := k a env (final r) in
        mkRun (result r') (final r') (events r ++ events r')%list
    | Throw e => mkRun (Throw e) (final r) (events r)
    end.

(** [try { m } catch (e) { h(e) }] and [m.catch(h)] *)
Definition try_catch {A : Type} (m : M A) (h : Exn -> M A) : M A :=
  fun env s =>
    let r := m env s in
    match result r with
    | Ok a => r
    | Throw e =>
        let r' := h e env (final r) in
        mkRun (result r') (final r') (events r ++ events r')%list
    end.

Declare Scope io_scope.
Delimit Scope io_scope with io.
Notation "x <- m ;; k" := (bind m (fun x => k))
  (at level 100, m at next level, right associativity) : io_scope.
Notation "m ;;; k" := (bind m (fun _ => k))
  (at level 100, right associativity) : io_scope.

Module Fs.

Local Open Scope io_scope.

Definition emit (e : Event) : M unit := fun _ s => mkRun (Ok tt) s [e].

Definition read (s : Store) (p : Path) : option Content :=
  match p with
  | OmoFile DotJson => omo_json s
  | OmoFile DotJsonc => omo_jsonc s
  | OcFile DotJson => oc_json s
  | OcFile DotJsonc => oc_jsonc s
  | ArchiveFile name =>
      match archive s with
      | Some entries => Obj.own entries name
      | None => None
      end
  end.

(** A file is created or replaced; writing into the archive creates the
    directory when it is missing. *)
Definition put (s : Store) (p : Path) (c : Content) : Store :=
  match p with
  | OmoFile DotJson =>
      mkStore (Some c) (omo_jsonc s) (oc_json s) (oc_jsonc s) (archive s)
  | OmoFile DotJsonc =>
      mkStore (omo_json s) (Some c) (oc_json s) (oc_jsonc s) (archive s)
  | OcFile DotJson =>
      mkStore (omo_json s) (omo_jsonc s) (Some c) (oc_jsonc s) (archive s)
  | OcFile DotJsonc =>
      mkStore (omo_json s) (omo_jsonc s) (oc_json s) (Some c) (archive s)
  | ArchiveFile name =>
      let entries := match archive s with Some es => es | None => [] end in
      mkStore (omo_json s) (omo_jsonc s) (oc_json s) (oc_jsonc s)
              (Some (Obj.set entries name c))
  end.

Definition remove_entry (name : string) (entries : list (string * Content))
  : list (string * Content) :=
  filter (fun e => negb (String.eqb (fst e) name)) entries.

Definition delete (s : Store) (p : Path) : Store :=
  match p with
  | OmoFile DotJson =>
      mkStore None (omo_jsonc s) (oc_json s) (oc_jsonc s) (archive s)
  | OmoFile DotJsonc =>
      mkStore (omo_json s) None (oc_json s) (oc_jsonc s) (archive s)
  | OcFile DotJson =>
      mkStore (omo_json s) (omo_jsonc s) None (oc_jsonc s) (archive s)
  | OcFile DotJsonc =>
      mkStore (omo_json s) (omo_jsonc s) (oc_json s) None (archive s)
  | ArchiveFile name =>
      mkStore (omo_json s) (omo_jsonc s) (oc_json s) (oc_jsonc s)
              (option_map (remove_entry name) (archive s))
  end.

(** [fs.access(p)] succeeds. *)
Definition exists_file (p : Path) : M bool :=
  fun _ s =>
    mkRun (Ok (match read s p with Some _ => true | None => false end)) s [].

(** [fs.copyFile(src, dst)] *)
Definition copyFile (src dst : Path) : M unit :=
  emit (ECopyFile src dst) ;;;
  (fun env s =>
     match read s src with
     | None => mkRun (Throw (Enoent src)) s []
     | Some c =>
         if faults env (OpCopy dst) then mkRun (Throw (IoError (OpCopy dst))) s []
         else mkRun (Ok tt) (put s dst c) []
     end).

(** [fs.unlink(p)] *)
Definition unlink (p : Path) : M unit :=
  emit (EUnlink p) ;;;
  (fun env s =>
     match read s p with
     | None => mkRun (Throw (Enoent p)) s []
     | Some _ =>
         if faults env (OpUnlink p) then mkRun (Throw (IoError (OpUnlink p))) s []
         else mkRun (Ok tt) (delete s p) []
     end).

(** [ensureArchiveDir]: [fs.mkdir(archiveDir, { recursive: true })] *)
Definition ensureArchiveDir : M unit :=
  emit EMkdirArchive ;;;
  (fun env s =>
     if faults env OpMkdirArchive then mkRun (Throw (IoError OpMkdirArchive)) s []
     else
       match archive s with
       | Some _ => mkRun (Ok tt) s []
       | None =>
           mkRun (Ok tt)
                 (mkStore (omo_json s) (omo_jsonc s) (oc_json s) (oc_jsonc s)
                          (Some []))
                 []
       end).

(** [readJsonFile]: a missing file gives the default, text that does not
    parse is an error. *)
Definition readJsonFile (p : Path) (defaultValue : Config) : M Config :=
  fun _ s =>
    match read s p with
    | None => mkRun (Ok defaultValue) s []
    | Some (Parsed c) => mkRun (Ok c) s []
    | Some Malformed => mkRun (Throw (ParseError p)) s []
    end.

(** [writeJsonFile]: the directory is created, then the file is written. *)
Definition writeJsonFile (p : Path) (data : Config) : M unit :=
  emit (EWriteJson p) ;;;
  (fun env s =>
     if faults env (OpWrite p) then mkRun (Throw (IoError (OpWrite p))) s []
     else mkRun (Ok tt) (put s p (Parsed data)) []).

(** [firstExistingPath(candidates) ?? fallback] for the two candidates of a
    configuration file. *)
Definition resolve (file : Ext -> Path) : M Path :=
  j <- exists_file (file DotJson) ;;
  if j then ret (file DotJson)
  else
    c <- exists_file (file DotJsonc) ;;
    if c then ret (file DotJsonc) else ret (file DotJson).

Definition resolveOmoConfigPath : M Path := resolve OmoFile.
Definition resolveOpenCodeConfigPath : M Path := resolve OcFile.

(** Array [sort()] on strings: ascending by code units. *)
Fixpoint insert_sorted (x : string) (l : list string) : list string :=
  match l with
  | [] => [x]
  | y :: rest =>
      if String.leb x y then x :: y :: rest else y :: insert_sorted x rest
  end.

Definition sort (l : list string) : list string :=
  fold_right insert_sorted [] l.

Definition is_backup_name (f : string) : bool :=
  Js.startsWith f "omo-backup-" || Js.startsWith f "opencode-backup-".

(** [listBackups(limit)] *)
Definition listBackups (limit : nat) : M (list string) :=
  fun env s =>
    match archive s with
    | None => mkRun (Ok []) s []
    | Some entries =>
        if faults env OpReaddir then mkRun (Throw (IoError OpReaddir)) s []
        else
          let files := Obj.keys entries in
          let backups := filter is_backup_name files in
          mkRun (Ok (firstn limit (rev (sort backups)))) s []
    end.

(** The text of a path, as [path.join] builds it. *)
Definition file_name (p : Path) : string :=
  match p with
  | OmoFile DotJson => "oh-my-opencode.json"
  | OmoFile DotJsonc => "oh-my-opencode.jsonc"
  | OcFile DotJson => "opencode.json"
  | OcFile DotJsonc => "opencode.jsonc"
  | ArchiveFile name => "archive/" ++ name
  end.

Definition render (dir : string) (p : Path) : string :=
  dir ++ "/" ++ file_name p.

Definition is_slash (c : ascii) : bool := Js.is_char Js.slash c.
Definition is_dot (c : ascii) : bool := Js.is_char Js.dot c.

Fixpoint drop_while (p : ascii -> bool) (l : list ascii) : list ascii :=
  match l with
  | c :: rest => if p c then drop_while p rest else l
  | [] => []
  end.

Fixpoint take_until (p : ascii -> bool) (l : list ascii) : list ascii :=
  match l with
  | c :: rest => if p c then [] else c :: take_until p rest
  | [] => []
  end.

(** [path.extname] (POSIX): the text from the last dot of the last
    component on; empty when that component has no dot, starts with its
    only dot, or is [..].  The scan runs from the end of the path. *)
Definition extname (path : string) : string :=
  let backwards := rev (list_ascii_of_string path) in
  let component := take_until is_slash (drop_while is_slash backwards) in
  let ext := take_until is_dot component in
  match drop_while (fun c => negb (is_dot c)) component with
  | [] => EmptyString
  | _dot :: before =>
      match before, ext with
      | [], _ => EmptyString
      | [d], [] => if is_dot d then EmptyString else "."
      | _, _ => string_of_list_ascii (rev (ext ++ [_dot])%list)
      end
  end.

End Fs.

(* ================================================================== *)
(** * The backup manager: [backupConfigsInternal] *)

Inductive BackupResult : Type :=
| BackupOk (omoBackup ocBackup : string)
| BackupFailed (e : Exn).

Module Backup.

Local Open Scope io_scope.

Definition ask : M Env := fun env s => mkRun (Ok env) s [].

(** [path.extname(p) || '.json'] *)
Definition ext_or_json (path : string) : string :=
  match Fs.extname path with
  | EmptyString => ".json"
  | e => e
  end.

Definition omo_backup_name (timestamp ext : string) : string :=
  "omo-backup-" ++ timestamp ++ ext.

Definition oc_backup_name (timestamp ext : string) : string :=
  "opencode-backup-" ++ timestamp ++ ext.

(** The loop over [toDelete]; a failed [unlink] is ignored. *)
Fixpoint unlink_all (names : list string) : M unit :=
  match names with
  | [] => ret tt
  | b :: rest =>
      try_catch (Fs.unlink (ArchiveFile b)) (fun _ => ret tt) ;;;
      unlink_all rest
  end.

(** A snapshot of one file: a copy, or the empty object when the copy
    fails. *)
Definition snapshot (src : Path) (name : string) : M unit :=
  try_catch (Fs.copyFile src (ArchiveFile name))
            (fun _ => Fs.writeJsonFile (ArchiveFile name) empty_config).

Definition backupConfigsInternal (omoConfigPath ocConfigPath : Path)
  : M BackupResult :=
  Fs.emit (EBackupStart omoConfigPath ocConfigPath) ;;;
  try_catch
    (Fs.ensureArchiveDir ;;;
     env <- ask ;;
     let timestamp := Clock.createTimestamp (now env) in
     let omoExt := ext_or_json (Fs.render (config_dir env) omoConfigPath) in
     let ocExt := ext_or_json (Fs.render (config_dir env) ocConfigPath) in
     let omoBackup := omo_backup_name timestamp omoExt in
     let ocBackup := oc_backup_name timestamp ocExt in
     snapshot omoConfigPath omoBackup ;;;
     snapshot ocConfigPath ocBackup ;;;
     allBackups <- Fs.listBackups 100 ;;
     (if 5 <? List.length allBackups then unlink_all (skipn 5 allBackups)
      else ret tt) ;;;
     ret (BackupOk omoBackup ocBackup))
    (fun e => ret (BackupFailed e)).

End Backup.

(* ================================================================== *)
(** * The action executor: [executeAction] *)

(** What a report says.  Each constructor stands for the text of one family
    of [return] statements of [executeAction]; the heading of the text is
    the action's, the mark is given by [mark]. *)
Inductive Outcome : Type :=
| Listing (names : list string)
| Shown
| Stub
| Usage (items : list string)
| InvalidName (name : string)
| MissingModel
| BadTemperature
| NotFound (name : string)
| UnknownHook (name : string) (available : string)
| InvalidBackupNumber (count : nat)
| UnknownBackupType (name : string)
| Failed (e : Exn)
| SavedAgent (name : string) (shown : OmoAgent)
| SavedCategory (name : string) (shown : OmoCategory)
| HookDisabled (name : string)
| HookEnabled (name : string)
| AlreadyDisabled (name : string)
| NotDisabled (name : string)
| Restored (name : string)
| BackedUp (omoBackup ocBackup : string)
| Compared (name : string)
| Help.

Record Report : Type := mkReport {
  heading : ActionType;
  outcome : Outcome
}.

(** The sign a report's text carries: a check mark, a cross, an
    information sign, or none. *)
Inductive Mark : Type := Success | Error | Info | Plain.

Definition mark (o : Outcome) : Mark :=
  match o with
  | InvalidName _ | MissingModel | BadTemperature | NotFound _
  | UnknownHook _ _ | InvalidBackupNumber _ | UnknownBackupType _
  | Failed _ => Error
  | SavedAgent _ _ | SavedCategory _ _ | HookDisabled _ | HookEnabled _
  | Restored _ | BackedUp _ _ => Success
  | AlreadyDisabled _ | NotDisabled _ => Info
  | Listing _ | Shown | Stub | Usage _ | Compared _ | Help => Plain
  end.

Module Exec.

Import Extract.
Local Open Scope io_scope.

(** [effectiveOptions?.field] *)
Definition field {A : Type} (f : ActionOptions -> option A)
           (o : option ActionOptions) : option A :=
  match o with Some x => f x | None => None end.

Definition say (a : ActionType) (o : Outcome) : M Report := ret (mkReport a o).

(** [t !== undefined && (t < 0 || t > 1)] *)
Definition temperature_out_of_range (t : option JsNumber) : bool :=
  match t with
  | Some x => Num.lt x Num.zero || Num.gt x Num.one
  | None => false
  end.

Fixpoint decimal_go (fuel n : nat) (acc : string) : string :=
  match fuel with
  | O => acc
  | S fuel' =>
      let acc' := String (ascii_of_nat (48 + n mod 10)) acc in
      if n / 10 =? 0 then acc' else decimal_go fuel' (n / 10) acc'
  end.

(** [String(n)] for a natural number. *)
Definition decimal (n : nat) : string := decimal_go (S n) n EmptyString.

(** The replacement of [prompt_append] in [redactForDisplay]. *)
Definition redact (p : option string) : option string :=
  match p with
  | Some (String c rest) =>
      Some ("<redacted: " ++ decimal (String.length (String c rest)) ++ " chars>")
  | other => other
  end.

Definition redact_agent (a : OmoAgent) : OmoAgent :=
  mkAgent (a_model a) (a_temperature a) (a_disable a)
          (redact (a_prompt_append a)) (a_permission a) (a_description a)
          (a_tools a) (a_top_p a) (a_maxTokens a).

Definition redact_category (c : OmoCategory) : OmoCategory :=
  mkCategory (c_model c) (c_temperature c) (c_top_p c) (c_maxTokens c)
             (redact (c_prompt_append c)).

Definition with_agents (c : Config) (a : list (string * OmoAgent)) : Config :=
  mkConfig (Some a) (categories c) (disabled_hooks c) (passthrough c).

Definition with_categories (c : Config) (a : list (string * OmoCategory))
  : Config :=
  mkConfig (agents c) (Some a) (disabled_hooks c) (passthrough c).

Definition with_disabled_hooks (c : Config) (h : list string) : Config :=
  mkConfig (agents c) (categories c) (Some h) (passthrough c).

(** The object literal that [add-agent] stores. *)
Definition new_agent (d : OmoAgent) : OmoAgent :=
  mkAgent (a_model d) (a_temperature d) (a_disable d) (a_prompt_append d)
          (a_permission d) (a_description d) None None None.

(** The object literal that [add-category] stores. *)
Definition new_category (d : OmoCategory) : OmoCategory :=
  mkCategory (c_model d) (c_temperature d) (c_top_p d) (c_maxTokens d)
             (c_prompt_append d).

(** The six guarded assignments of [modify-agent]. *)
Definition update_agent (agent d : OmoAgent) : OmoAgent :=
  mkAgent (a_model d ?? a_model agent)
          (a_temperature d ?? a_temperature agent)
          (a_disable d ?? a_disable agent)
          (a_prompt_append d ?? a_prompt_append agent)
          (a_permission d ?? a_permission agent)
          (a_description d ?? a_description agent)
          (a_tools agent) (a_top_p agent) (a_maxTokens agent).

(** The five guarded assignments of [modify-category]. *)
Definition update_category (category d : OmoCategory) : OmoCategory :=
  mkCategory (c_model d ?? c_model category)
             (c_temperature d ?? c_temperature category)
             (c_top_p d ?? c_top_p category)
             (c_maxTokens d ?? c_maxTokens category)
             (c_prompt_append d ?? c_prompt_append category).

(** [existingBackups[n - 1]] *)
Definition backup_at (existingBackups : list string) (n : JsNumber)
  : option string :=
  match n with
  | Fin q =>
      match Num.as_index (Fin (q - 1)%Q) with
      | Some i => nth_error existingBackups i
      | None => None
      end
  | _ => None
  end.

(** [n < 1 || n > existingBackups.length] *)
Definition index_out_of_range (existingBackups : list string) (n : JsNumber)
  : bool :=
  Num.lt n Num.one || Num.gt n (Num.of_nat (List.length existingBackups)).

(** [path.join(archiveDir, backupName)]: a type error when the name is
    undefined. *)
Definition join_archive (backupName : option string) : M Path :=
  match backupName with
  | Some n => ret (ArchiveFile n)
  | None => throw TypeError
  end.

Section Handlers.

Variables (omoConfigPath ocConfigPath : Path).
Variables (omoConfig ocConfig : Config).
Variable existingBackups : list string.
Variable effectiveOptions : option ActionOptions.

Definition backup : M BackupResult :=
  Backup.backupConfigsInternal omoConfigPath ocConfigPath.

Definition list_agents : M Report :=
  say ListAgents (Listing (Obj.keys (or_default [] (agents omoConfig)))).

Definition list_categories : M Report :=
  say ListCategories (Listing (Obj.keys (or_default [] (categories omoConfig)))).

Definition backup_configs : M Report :=
  res <- backup ;;
  match res with
  | BackupFailed e => say BackupConfigs (Failed e)
  | BackupOk o c => say BackupConfigs (BackedUp o c)
  end.

Definition compare_backup : M Report :=
  match field backupIndex effectiveOptions with
  | None => say CompareBackup (Usage existingBackups)
  | Some idx =>
      if index_out_of_range existingBackups idx
      then say CompareBackup (InvalidBackupNumber (List.length existingBackups))
      else
        let backupName := backup_at existingBackups idx in
        backupPath <- join_archive backupName ;;
        let name := or_default EmptyString backupName in
        if Js.startsWith name "omo-backup-" then
          _ <- Fs.readJsonFile backupPath empty_config ;;
          say CompareBackup (Compared name)
        else if Js.startsWith name "opencode-backup-" then
          _ <- Fs.readJsonFile backupPath empty_config ;;
          say CompareBackup (Compared name)
        else say CompareBackup (UnknownBackupType name)
  end.

Definition restore_backup : M Report :=
  match field backupIndex effectiveOptions with
  | None => say RestoreBackup (Usage existingBackups)
  | Some idx =>
      try_catch
        (if index_out_of_range existingBackups idx
         then say RestoreBackup (InvalidBackupNumber (List.length existingBackups))
         else
           let backupName := backup_at existingBackups idx in
           backupPath <- join_archive backupName ;;
           let name := or_default EmptyString backupName in
           backup ;;;
           if Js.startsWith name "omo-backup-" then
             backupData <- Fs.readJsonFile backupPath empty_config ;;
             Fs.writeJsonFile omoConfigPath backupData ;;;
             say RestoreBackup (Restored name)
           else if Js.startsWith name "opencode-backup-" then
             backupData <- Fs.readJsonFile backupPath empty_config ;;
             Fs.writeJsonFile ocConfigPath backupData ;;;
             say RestoreBackup (Restored name)
           else say RestoreBackup (UnknownBackupType name))
        (fun e => say RestoreBackup (Failed e))
  end.

Definition add_agent : M Report :=
  if negb (truthy (field agentName effectiveOptions)) then
    say AddAgent (Usage (Obj.keys (or_default [] (agents omoConfig))))
  else
    try_catch
      (let name := or_default EmptyString (field agentName effectiveOptions) in
       if negb (isSafeConfigKey name) then say AddAgent (InvalidName name)
       else
         let data := or_default empty_agent (field agentData effectiveOptions) in
         if negb (truthy (a_model data)) then say AddAgent MissingModel
         else if temperature_out_of_range (a_temperature data)
         then say AddAgent BadTemperature
         else
           backup ;;;
           let entry := new_agent data in
           let config' :=
             with_agents omoConfig
                         (Obj.set (or_default [] (agents omoConfig)) name entry) in
           Fs.writeJsonFile omoConfigPath config' ;;;
           say AddAgent (SavedAgent name (redact_agent entry)))
      (fun e => say AddAgent (Failed e)).

Definition modify_agent : M Report :=
  if negb (truthy (field agentName effectiveOptions)) then
    say ModifyAgent (Usage (Obj.keys (or_default [] (agents omoConfig))))
  else
    try_catch
      (let name := or_default EmptyString (field agentName effectiveOptions) in
       if negb (isSafeConfigKey name) then say ModifyAgent (InvalidName name)
       else
         let data := or_default empty_agent (field agentData effectiveOptions) in
         if temperature_out_of_range (a_temperature data)
         then say ModifyAgent BadTemperature
         else
           match agents omoConfig with
           | None => say ModifyAgent (NotFound name)
           | Some entries =>
               match Obj.get entries name with
               | Obj.Undefined => say ModifyAgent (NotFound name)
               | Obj.Own agent =>
                   backup ;;;
                   let agent' := update_agent agent data in
                   Fs.writeJsonFile omoConfigPath
                     (with_agents omoConfig (Obj.set entries name agent')) ;;;
                   say ModifyAgent (SavedAgent name (redact_agent agent'))
               | Obj.Inherited =>
                   (* [agent] is a member of [Object.prototype]: the
                      assignments land on it, the document is unchanged *)
                   backup ;;;
                   Fs.writeJsonFile omoConfigPath omoConfig ;;;
                   say ModifyAgent
                       (SavedAgent name (redact_agent (update_agent empty_agent data)))
               end
           end)
      (fun e => say ModifyAgent (Failed e)).

Definition add_category : M Report :=
  if negb (truthy (field categoryName effectiveOptions)) then
    say AddCategory (Usage (Obj.keys (or_default [] (categories omoConfig))))
  else
    try_catch
      (let name := or_default EmptyString (field categoryName effectiveOptions) in
       if negb (isSafeConfigKey name) then say AddCategory (InvalidName name)
       else
         let data :=
           or_default empty_category (field categoryData effectiveOptions) in
         if negb (truthy (c_model data)) then say AddCategory MissingModel
         else if temperature_out_of_range (c_temperature data)
         then say AddCategory BadTemperature
         else
           backup ;;;
           let entry := new_category data in
           let config' :=
             with_categories omoConfig
               (Obj.set (or_default [] (categories omoConfig)) name entry) in
           Fs.writeJsonFile omoConfigPath config' ;;;
           say AddCategory (SavedCategory name (redact_category entry)))
      (fun e => say AddCategory (Failed e)).

Definition modify_category : M Report :=
  if negb (truthy (field categoryName effectiveOptions)) then
    say ModifyCategory (Usage (Obj.keys (or_default [] (categories omoConfig))))
  else
    try_catch
      (let name := or_default EmptyString (field categoryName effectiveOptions) in
       if negb (isSafeConfigKey name) then say ModifyCategory (InvalidName name)
       else
         let data :=
           or_default empty_category (field categoryData effectiveOptions) in
         if temperature_out_of_range (c_temperature data)
         then say ModifyCategory BadTemperature
         else
           match categories omoConfig with
           | None => say ModifyCategory (NotFound name)
           | Some entries =>
               match Obj.get entries name with
               | Obj.Undefined => say ModifyCategory (NotFound name)
               | Obj.Own category =>
                   backup ;;;
                   let category' := update_category category data in
                   Fs.writeJsonFile omoConfigPath
                     (with_categories omoConfig (Obj.set entries name category')) ;;;
                   say ModifyCategory
                       (SavedCategory name (redact_category category'))
               | Obj.Inherited =>
                   backup ;;;
                   Fs.writeJsonFile omoConfigPath omoConfig ;;;
                   say ModifyCategory
                       (SavedCategory name
                          (redact_category (update_category empty_category data)))
               end
           end)
      (fun e => say ModifyCategory (Failed e)).

Definition disable_hook : M Report :=
  if negb (truthy (field hookName effectiveOptions)) then
    say DisableHook (Usage KNOWN_HOOKS)
  else
    try_catch
      (let name := or_default EmptyString (field hookName effectiveOptions) in
       if negb (Js.includes KNOWN_HOOKS name)
       then say DisableHook (UnknownHook name (Js.join ", " KNOWN_HOOKS))
       else
         let disabled := or_default [] (disabled_hooks omoConfig) in
         if negb (Js.includes disabled name) then
           backup ;;;
           Fs.writeJsonFile omoConfigPath
             (with_disabled_hooks omoConfig (disabled ++ [name])%list) ;;;
           say DisableHook (HookDisabled name)
         else say DisableHook (AlreadyDisabled name))
      (fun e => say DisableHook (Failed e)).

Definition enable_hook : M Report :=
  let disabledHooks := or_default [] (disabled_hooks omoConfig) in
  if negb (truthy (field hookName effectiveOptions)) then
    say EnableHook (Usage disabledHooks)
  else
    try_catch
      (let name := or_default EmptyString (field hookName effectiveOptions) in
       match disabled_hooks omoConfig with
       | None => say EnableHook (NotDisabled name)
       | Some disabled =>
           if negb (Js.includes disabled name)
           then say EnableHook (NotDisabled name)
           else
             backup ;;;
             Fs.writeJsonFile omoConfigPath
               (with_disabled_hooks omoConfig
                  (filter (fun h => negb (String.eqb h name)) disabled)) ;;;
             say EnableHook (HookEnabled name)
       end)
      (fun e => say EnableHook (Failed e)).

(** The [switch] of [executeAction].  The handlers of list-skills,
    show-permissions and list-oc-models only read and render; on documents
    of the declared types they return their report, whose text is not
    modelled. *)
Definition dispatch (action : ActionType) : M Report :=
  match action with
  | ListAgents => list_agents
  | ListCategories => list_categories
  | ListSkills => say ListSkills Shown
  | CheckUpdates => say CheckUpdates Stub
  | RunDiagnostics => say RunDiagnostics Stub
  | BackupConfigs => backup_configs
  | ShowPermissions => say ShowPermissions Shown
  | CompareBackup => compare_backup
  | RestoreBackup => restore_backup
  | AddAgent => add_agent
  | ModifyAgent => modify_agent
  | AddCategory => add_category
  | ModifyCategory => modify_category
  | DisableHook => disable_hook
  | EnableHook => enable_hook
  | ListOcModels => say ListOcModels Shown
  | Unknown => say Unknown Help
  end.

End Handlers.

(** What [executeAction] reads before it dispatches. *)
Record Loaded : Type := mkLoaded {
  l_omoConfigPath : Path;
  l_ocConfigPath : Path;
  l_omoConfig : Config;
  l_ocConfig : Config;
  l_existingBackups : list string
}.

(** The opening statements of [executeAction]: both paths are resolved,
    both documents are read and the five newest backups are listed. *)
Definition load : M Loaded :=
  omoConfigPath <- Fs.resolveOmoConfigPath ;;
  ocConfigPath <- Fs.resolveOpenCodeConfigPath ;;
  omoConfig <- Fs.readJsonFile omoConfigPath empty_config ;;
  ocConfig <- Fs.readJsonFile ocConfigPath empty_config ;;
  existingBackups <- Fs.listBackups 5 ;;
  ret (mkLoaded omoConfigPath ocConfigPath omoConfig ocConfig existingBackups).

(** [mergeOptions(inferOptionsFromRequest(action, request), options)] *)
Definition effective (action : ActionType) (request : string)
           (options : option ActionOptions) : option ActionOptions :=
  mergeOptions (Some (inferOptionsFromRequest action request)) options.

Definition executeAction (action : ActionType) (request : string)
           (options : option ActionOptions) : M Report :=
  l <- load ;;
  dispatch (l_omoConfigPath l) (l_ocConfigPath l) (l_omoConfig l)
           (l_existingBackups l) (effective action request options) action.

(** The tool handler of [index.ts]: classify, then execute without explicit
    options. *)
Definition handle (request : string) : M Report :=
  executeAction (Classifier.parseAction request) request None.

End Exec.

(* ================================================================== *)
(** * Scenarios: sequences of runs *)

Module Scenario.

(** No I/O call fails. *)
Definition no_faults : Op -> bool := fun _ => false.

(** A configuration directory in which nothing exists yet. *)
Definition empty_store : Store := mkStore None None None None None.

Definition env_at (t : Z) (tz : Z) : Env :=
  mkEnv "/home/user/.config/opencode" (mkDate t tz) no_faults.

(** The store after a request made at each of the given instants (UTC). *)
Fixpoint after_requests (request : string) (times : list Z) (s : Store) : Store :=
  match times with
  | [] => s
  | t :: rest =>
      after_requests request rest (final (Exec.handle request (env_at t 0) s))
  end.

Definition archive_names (s : Store) : list string :=
  match archive s with
  | Some entries => Obj.keys entries
  | None => []
  end.

(** Midnight UTC of 2026-01-01. *)
Definition t0 : Z := 1767225600.

End Scenario.

(* ================================================================== *)
(** * The properties, as predicates *)

Local Open Scope list_scope.

Module Props.

Import Extract.

(** ** Runs *)

(** The live configuration files are the same in both stores. *)
Definition same_live (s s' : Store) : Prop :=
  omo_json s' = omo_json s /\ omo_jsonc s' = omo_jsonc s
  /\ oc_json s' = oc_json s /\ oc_jsonc s' = oc_jsonc s.

(** A computation that changes nothing and attempts no effect. *)
Definition silent {A : Type} (m : M A) : Prop :=
  forall env s, final (m env s) = s /\ events (m env s) = [].

(** A computation that leaves the live configuration files alone. *)
Definition archival {A : Type} (m : M A) : Prop :=
  forall env s, same_live s (final (m env s)).

Definition begins_with_backup (o c : Path) (evs : list Event) : Prop :=
  evs = [] \/ exists rest, evs = EBackupStart o c :: rest.

Definition guarded {A : Type} (o c : Path) (m : M A) : Prop :=
  forall env s, begins_with_backup o c (events (m env s)).

(** The path [firstExistingPath(candidates) ?? fallback] gives. *)
Definition resolved (file : Ext -> Path) (s : Store) : Path :=
  match Fs.read s (file DotJson), Fs.read s (file DotJsonc) with
  | None, Some _ => file DotJsonc
  | _, _ => file DotJson
  end.

(** What [readJsonFile] gives for a path: the default for a missing file,
    nothing for a file that does not parse. *)
Definition config_at (s : Store) (p : Path) : option Config :=
  match Fs.read s p with
  | None => Some empty_config
  | Some (Parsed c) => Some c
  | Some Malformed => None
  end.

Definition omo_config (s : Store) : option Config := config_at s (resolved OmoFile s).
Definition oc_config (s : Store) : option Config := config_at s (resolved OcFile s).

(** The names [listBackups(limit)] gives when the archive can be read. *)
Definition listed (limit : nat) (s : Store) : list string :=
  match archive s with
  | None => []
  | Some entries =>
      firstn limit (rev (Fs.sort (filter Fs.is_backup_name (Obj.keys entries))))
  end.

Definition archive_readable (env : Env) (s : Store) : Prop :=
  archive s = None \/ faults env OpReaddir = false.

(** A path of one of the two configuration files. *)
Definition live (p : Path) : bool :=
  match p with ArchiveFile _ => false | _ => true end.

(** Every write of a configuration file in [evs] comes after a call of
    the backup of both files [o] and [c]. *)
Definition backup_precedes_writes (o c : Path) (evs : list Event) : Prop :=
  forall pre p post,
    evs = pre ++ EWriteJson p :: post -> live p = true ->
    In (EBackupStart o c) pre.

(** ** Key safety *)

Definition chars (s : string) : list ascii := list_ascii_of_string s.

(** The characters the specification allows in a key: letters, digits,
    hyphen, underscore. *)
Definition allowed (c : ascii) : Prop :=
  Js.is_letter c = true \/ Js.is_digit c = true
  \/ Js.code c = Js.hyphen \/ Js.code c = Js.underscore.

Definition reserved (k : string) : Prop := In (Js.toLowerCase k) FORBIDDEN_KEYS.

(** The check as the specification words it. *)
Definition claimed_safe_key (k : string) : Prop :=
  Forall allowed (chars k) /\ String.length k <= 64 /\ ~ reserved k.

(** The check as the code performs it: the key moreover begins with a
    letter or a digit (so it is not empty). *)
Definition safe_key (k : string) : Prop :=
  (exists c rest, k = String c rest
                  /\ (Js.is_letter c = true \/ Js.is_digit c = true))
  /\ Forall allowed (chars k) /\ String.length k <= 64 /\ ~ reserved k.

(** A string of [n] copies of a character. *)
Fixpoint repeat_char (c : ascii) (n : nat) : string :=
  match n with
  | O => EmptyString
  | S n' => String c (repeat_char c n')
  end.

(** ** Mutations *)

(** The steps every accepted mutation runs: backup, write, report. *)
Definition commit (o c p : Path) (config' : Config) (a : ActionType) (r : Outcome)
  : M Report :=
  bind (Backup.backupConfigsInternal o c)
       (fun _ => bind (Fs.writeJsonFile p config') (fun _ => Exec.say a r)).


(** A number below 0 or above 1. *)
Definition out_of_range (t : option JsNumber) : Prop :=
  match t with
  | Some (Fin q) => (q < 0)%Q \/ (1 < q)%Q
  | Some NegInf | Some PosInf => True
  | Some NaN | None => False
  end.

(** The property [k] of an object that may be absent is undefined. *)
Definition missing {A : Type} (o : option (list (string * A))) (k : string) : Prop :=
  match o with
  | None => True
  | Some entries => Obj.get entries k = Obj.Undefined
  end.

Definition agent_data (eo : option ActionOptions) : OmoAgent :=
  or_default empty_agent (Exec.field agentData eo).

Definition category_data (eo : option ActionOptions) : OmoCategory :=
  or_default empty_category (Exec.field categoryData eo).

(** The validation failures of the mutating actions, for a request that
    names its entity or hook. *)
Definition invalid (a : ActionType) (eo : option ActionOptions) (s : Store) : Prop :=
  match a with
  | AddAgent =>
      exists n, Exec.field agentName eo = Some n /\ n <> EmptyString
        /\ (isSafeConfigKey n = false
            \/ truthy (a_model (agent_data eo)) = false
            \/ out_of_range (a_temperature (agent_data eo)))
  | ModifyAgent =>
      exists n, Exec.field agentName eo = Some n /\ n <> EmptyString
        /\ (isSafeConfigKey n = false
            \/ out_of_range (a_temperature (agent_data eo))
            \/ forall cfg, omo_config s = Some cfg -> missing (agents cfg) n)
  | AddCategory =>
      exists n, Exec.field categoryName eo = Some n /\ n <> EmptyString
        /\ (isSafeConfigKey n = false
            \/ truthy (c_model (category_data eo)) = false
            \/ out_of_range (c_temperature (category_data eo)))
  | ModifyCategory =>
      exists n, Exec.field categoryName eo = Some n /\ n <> EmptyString
        /\ (isSafeConfigKey n = false
            \/ out_of_range (c_temperature (category_data eo))
            \/ forall cfg, omo_config s = Some cfg -> missing (categories cfg) n)
  | DisableHook =>
      exists n, Exec.field hookName eo = Some n /\ n <> EmptyString
        /\ ~ In n KNOWN_HOOKS
  | _ => False
  end.

(** A run that did nothing and, if it returned, returned an error report. *)
Definition rejected (run : Run Report) (s : Store) : Prop :=
  final run = s /\ events run = []
  /\ forall r, result run = Ok r -> mark (outcome r) = Error.

Definition succeeded (run : Run Report) : Prop :=
  exists r, result run = Ok r /\ mark (outcome r) = Success.

(** An effect on the archive directory or one of its entries. *)
Definition on_archive (e : Event) : bool :=
  match e with
  | EMkdirArchive => true
  | ECopyFile _ (ArchiveFile _) => true
  | EWriteJson (ArchiveFile _) => true
  | EUnlink (ArchiveFile _) => true
  | _ => false
  end.

(** Every effect of [m], run in [env], satisfies [P]. *)
Definition bounded_at {A : Type} (env : Env) (P : Event -> Prop) (m : M A) : Prop :=
  forall s, Forall P (events (m env s)).

(** The effects a backup of [o] and [c] under the names [omoName] and
    [ocName] may have after the call itself. *)
Definition backup_event (o c : Path) (omoName ocName : string) (e : Event) : Prop :=
  match e with
  | EMkdirArchive => True
  | ECopyFile src dst =>
      (src = o /\ dst = ArchiveFile omoName) \/ (src = c /\ dst = ArchiveFile ocName)
  | EWriteJson dst => dst = ArchiveFile omoName \/ dst = ArchiveFile ocName
  | EUnlink (ArchiveFile _) => True
  | _ => False
  end.

(** The names a backup made in [env] gives to its two files. *)
Definition omo_name (env : Env) (o : Path) : string :=
  Backup.omo_backup_name (Clock.createTimestamp (now env))
                         (Backup.ext_or_json (Fs.render (config_dir env) o)).

Definition oc_name (env : Env) (c : Path) : string :=
  Backup.oc_backup_name (Clock.createTimestamp (now env))
                        (Backup.ext_or_json (Fs.render (config_dir env) c)).

(** The writes of configuration files among the effects of a run. *)
Definition config_writes (evs : list Event) : list Path :=
  flat_map (fun e => match e with
                     | EWriteJson p => if live p then [p] else []
                     | _ => []
                     end) evs.

(** The handler of the [catch] clause of a mutating action. *)
Definition failed (a : ActionType) : Exn -> M Report := fun e => Exec.say a (Failed e).

(** ** Names, stamps and scenarios *)




Definition ext_text (e : Ext) : string :=
  match e with DotJson => ".json" | DotJsonc => ".jsonc" end.

(** A store whose agent-side configuration is the given document. *)
Definition store_with (c : Config) : Store :=
  mkStore (Some (Parsed c)) None None None None.

Definition here : Env := Scenario.env_at Scenario.t0 0.

(** The name an action acts on. *)
Definition name_of (a : ActionType) (eo : option ActionOptions) : option string :=
  match a with
  | AddAgent | ModifyAgent => Exec.field agentName eo
  | AddCategory | ModifyCategory => Exec.field categoryName eo
  | DisableHook => Exec.field hookName eo
  | _ => None
  end.

(** The temperature an action is given. *)
Definition temperature_of (a : ActionType) (eo : option ActionOptions)
  : option JsNumber :=
  match a with
  | AddAgent | ModifyAgent => a_temperature (agent_data eo)
  | AddCategory | ModifyCategory => c_temperature (category_data eo)
  | _ => None
  end.

(** Everything but the temperature is in order for an add or a modify. *)
Definition otherwise_valid (a : ActionType) (eo : option ActionOptions)
           (cfg : Config) : Prop :=
  match a with
  | AddAgent =>
      exists n, Exec.field agentName eo = Some n /\ isSafeConfigKey n = true
                /\ truthy (a_model (agent_data eo)) = true
  | ModifyAgent =>
      exists n entries agent,
        Exec.field agentName eo = Some n /\ isSafeConfigKey n = true
        /\ agents cfg = Some entries /\ Obj.own entries n = Some agent
  | AddCategory =>
      exists n, Exec.field categoryName eo = Some n /\ isSafeConfigKey n = true
                /\ truthy (c_model (category_data eo)) = true
  | ModifyCategory =>
      exists n entries category,
        Exec.field categoryName eo = Some n /\ isSafeConfigKey n = true
        /\ categories cfg = Some entries /\ Obj.own entries n = Some category
  | _ => False
  end.

(** In [env], whenever [m] returns, it returns [v]. *)
Definition ends_with {A : Type} (env : Env) (v : A) (m : M A) : Prop :=
  forall s r, result (m env s) = Ok r -> r = v.

(** An agent with a permission table, a description and tools. *)
Definition old_oracle : OmoAgent :=
  mkAgent (Some "opencode/gpt-4") (Some (Fin (1 # 2))) None (Some "Be brief.")
          (Some [("bash", "ask")]) (Some "Architecture advice")
          (Some [("webfetch", JBool true)]) None None.

Definition with_oracle : Store :=
  store_with (mkConfig (Some [("oracle", old_oracle); ("scout", empty_agent)])
                       None None []).

(** Six backup requests, one minute apart. *)
Definition six_minutes : list Z :=
  map (fun k => (Scenario.t0 + 60 * k)%Z) [0; 1; 2; 3; 4; 5]%Z.

(** A name of 64 characters that begins like the one of the
    specification's example. *)
Definition name64 : string := ("a-b_9" ++ repeat_char "x" 59)%string.
Definition name65 : string := ("a-b_9" ++ repeat_char "x" 60)%string.

(** ** Retention *)

(** The backup files of the archive. *)
Definition backup_names (s : Store) : list string :=
  filter Fs.is_backup_name (Scenario.archive_names s).

(** No two entries of the archive bear the same name. *)
Definition tidy (s : Store) : Prop := NoDup (Scenario.archive_names s).

(** The archive without the entries named in [l]. *)
Definition without (l : list string) (s : Store) : Store :=
  mkStore (omo_json s) (omo_jsonc s) (oc_json s) (oc_jsonc s)
          (option_map (filter (fun e => negb (Js.includes l (fst e)))) (archive s)).

(** The store once the archive directory exists. *)
Definition ensured (s : Store) : Store :=
  match archive s with
  | Some _ => s
  | None => mkStore (omo_json s) (omo_jsonc s) (oc_json s) (oc_jsonc s) (Some [])
  end.

(** The retention sweep, when nothing fails. *)
Definition swept (s : Store) : Store :=
  let names := listed 100 s in
  if 5 <? List.length names then without (skipn 5 names) s else s.

(** An environment whose archive directory exists and cannot be written:
    every copy and every write into it fails. *)
Definition sealed_archive : Env :=
  mkEnv "/home/user/.config/opencode" (mkDate Scenario.t0 0)
        (fun op =>
           match op with
           | OpCopy (ArchiveFile _) | OpWrite (ArchiveFile _) => true
           | _ => false
           end).

(** Both configuration files and an empty archive directory. *)
Definition both_files : Store :=
  mkStore (Some (Parsed (mkConfig (Some [("oracle", old_oracle)]) None None [])))
          None (Some (Parsed empty_config)) None (Some []).



End Props.

Import Extract Props.

(* ================================================================== *)
(** * Lenient JSON: comments and trailing commas ([utils.ts]) *)

Module Jsonc.

Local Open Scope string_scope.

(** The variables with which both scanners follow string literals. *)
Record Literal : Type := mkLiteral {
  inString : bool;
  stringQuote : ascii;
  escape : bool
}.

(** The state before the first character: outside a literal, the quote
    variable initialised to the double quote. *)
Definition outside : Literal := mkLiteral false "034"%char false.

(** A double or a single quote. *)
Definition is_quote (ch : ascii) : bool := Js.is_char 34 ch || Js.is_char 39 ch.

(** The statements both loops run on a character inside a literal, after
    they have copied it. *)
Definition in_string (q : Literal) (ch : ascii) : Literal :=
  if escape q then mkLiteral true (stringQuote q) false
  else if Js.is_char 92 ch then mkLiteral true (stringQuote q) true
  else if Ascii.eqb ch (stringQuote q) then mkLiteral false (stringQuote q) (escape q)
  else q.

(** A quote met outside a literal opens one. *)
Definition open (q : Literal) (ch : ascii) : Literal := mkLiteral true ch (escape q).

(** The loop of [stripJsonComments] from a given state on the rest of the
    input; it gives what the loop appends to [out]. *)
Fixpoint comments (q : Literal) (inLineComment inBlockComment : bool)
         (input : string) : string :=
  match input with
  | EmptyString => EmptyString
  | String ch rest =>
      if inLineComment then
        if Js.is_char 10 ch
        then String ch (comments q false inBlockComment rest)
        else comments q true inBlockComment rest
      else if inBlockComment then
        match rest with
        | String next rest' =>
            if Js.is_char 42 ch && Js.is_char 47 next
            then comments q false false rest'
            else comments q false true rest
        | EmptyString => comments q false true rest
        end
      else if inString q then
        String ch (comments (in_string q ch) false false rest)
      else if is_quote ch then
        String ch (comments (open q ch) false false rest)
      else
        match rest with
        | String next rest' =>
            if Js.is_char 47 ch && Js.is_char 47 next
            then comments q true false rest'
            else if Js.is_char 47 ch && Js.is_char 42 next
            then comments q false true rest'
            else String ch (comments q false false rest)
        | EmptyString => String ch (comments q false false rest)
        end
  end.

Definition stripJsonComments (input : string) : string :=
  comments outside false false input.

Definition isWhitespace (c : ascii) : bool :=
  Js.is_char 32 c || Js.is_char 9 c || Js.is_char 10 c || Js.is_char 13 c.

(** The look-ahead of [stripTrailingCommas]: the input from the next
    character that is not white space. *)
Fixpoint skip_whitespace (s : string) : string :=
  match s with
  | String c rest => if isWhitespace c then skip_whitespace rest else s
  | EmptyString => EmptyString
  end.

(** [next === '}' || next === ']'] *)
Definition closes_bracket (s : string) : bool :=
  match s with
  | String next _ => Js.is_char 125 next || Js.is_char 93 next
  | EmptyString => false
  end.

Fixpoint commas (q : Literal) (input : string) : string :=
  match input with
  | EmptyString => EmptyString
  | String ch rest =>
      if inString q then String ch (commas (in_string q ch) rest)
      else if is_quote ch then String ch (commas (open q ch) rest)
      else if Js.is_char 44 ch && closes_bracket (skip_whitespace rest)
      then commas q rest
      else String ch (commas q rest)
  end.

Definition stripTrailingCommas (input : string) : string := commas outside input.

Section Lenient.

(** [JSON.parse], which returns a value or throws. *)
Variable T : Type.
Variable JSON_parse : string -> option T.

(** [parseJsonLenient]: the text as it is, and if that fails the text
    without comments and trailing commas. *)
Definition parseJsonLenient (content : string) : option T :=
  match JSON_parse content with
  | Some v => Some v
  | None => JSON_parse (stripTrailingCommas (stripJsonComments content))
  end.

End Lenient.

End Jsonc.

Module JsoncProps.

Local Open Scope string_scope.

(** [a] is [b] with some characters left out. *)
Inductive Subsequence : string -> string -> Prop :=
| sub_end : Subsequence EmptyString EmptyString
| sub_keep c a b : Subsequence a b -> Subsequence (String c a) (String c b)
| sub_drop c a b : Subsequence a b -> Subsequence a (String c b).

(** No character of [s] satisfies [p]. *)
Fixpoint free_of (p : ascii -> bool) (s : string) : bool :=
  match s with
  | EmptyString => true
  | String c rest => negb (p c) && free_of p rest
  end.

Fixpoint all_of (p : ascii -> bool) (s : string) : bool :=
  match s with
  | EmptyString => true
  | String c rest => p c && all_of p rest
  end.

(** Text in which nothing opens a literal or a comment. *)
Definition plain (s : string) : bool :=
  free_of (fun c => Jsonc.is_quote c || Js.is_char 47 c) s.

(** Text in which nothing opens a literal and no comma stands. *)
Definition comma_free (s : string) : bool :=
  free_of (fun c => Jsonc.is_quote c || Js.is_char 44 c) s.

(** The text holds the two characters that end a block comment. *)
Fixpoint ends_block (s : string) : bool :=
  match s with
  | String a rest =>
      match rest with
      | String b _ => (Js.is_char 42 a && Js.is_char 47 b) || ends_block rest
      | EmptyString => false
      end
  | EmptyString => false
  end.

(** The inside of a double-quoted literal: no double quote but after a
    backslash, and no backslash left alone at the end. *)
Fixpoint literal_body (s : string) : bool :=
  match s with
  | EmptyString => true
  | String c rest =>
      if Js.is_char 34 c then false
      else if Js.is_char 92 c then
        match rest with
        | String _ rest' => literal_body rest'
        | EmptyString => false
        end
      else literal_body rest
  end.

(** A closing brace or bracket. *)
Definition closing (b : ascii) : bool := Js.is_char 125 b || Js.is_char 93 b.

Definition quoted (body : string) : string :=
  String "034" (body ++ String "034" EmptyString).

Definition line_feed : string := String "010" EmptyString.

(** Inside a double-quoted literal, and after a backslash in it. *)
Definition lit : Jsonc.Literal := Jsonc.mkLiteral true "034" false.
Definition escaped : Jsonc.Literal := Jsonc.mkLiteral true "034" true.

(** The text begins with the second character of a comment opener. *)
Definition opens_comment (s : string) : bool :=
  match s with
  | String n _ => Js.is_char 47 n || Js.is_char 42 n
  | EmptyString => false
  end.

(** A state the scanner can be in. *)
Definition reachable (q : Jsonc.Literal) (lc bc : bool) : Prop :=
  (lc = false /\ bc = false)
  \/ (Jsonc.inString q = false
      /\ (lc = true /\ bc = false \/ lc = false /\ bc = true)).

End JsoncProps.

(* ================================================================== *)
(** * The tool handler ([index.ts]) *)

(** What the tool returns: the report of [executeAction], or the text the
    [catch] clause builds from what was thrown. *)
Inductive Reply : Type :=
| Answered (r : Report)
| ErrorReply (e : Exn).

Module Plugin.

Local Open Scope io_scope.

(** [execute(args, context)] of the [omo-config] tool. *)
Definition execute (request : string) : M Reply :=
  try_catch (r <- Exec.handle request ;; ret (Answered r))
            (fun e => ret (ErrorReply e)).

End Plugin.

(* ================================================================== *)
(** * Notions for the properties of the executor *)

Module MoreProps.

(** The actions that only report. *)
Definition read_only (a : ActionType) : bool :=
  match a with
  | ListAgents | ListCategories | ListSkills | CheckUpdates | RunDiagnostics
  | ShowPermissions | CompareBackup | ListOcModels | Unknown => true
  | _ => false
  end.

(** The request names nothing for the action to act on. *)
Definition unnamed (a : ActionType) (eo : option ActionOptions) : Prop :=
  match a with
  | AddAgent | ModifyAgent => truthy (Exec.field agentName eo) = false
  | AddCategory | ModifyCategory => truthy (Exec.field categoryName eo) = false
  | DisableHook | EnableHook => truthy (Exec.field hookName eo) = false
  | CompareBackup | RestoreBackup => Exec.field backupIndex eo = None
  | _ => False
  end.

(** What the usage text of an action lists. *)
Definition usage_items (a : ActionType) (cfg : Config) (backups : list string)
  : list string :=
  match a with
  | AddAgent | ModifyAgent => Obj.keys (or_default [] (agents cfg))
  | AddCategory | ModifyCategory => Obj.keys (or_default [] (categories cfg))
  | DisableHook => KNOWN_HOOKS
  | EnableHook => or_default [] (disabled_hooks cfg)
  | _ => backups
  end.

(** An environment in which the archive directory cannot be made. *)
Definition archive_refused : Env :=
  mkEnv "/home/user/.config/opencode" (mkDate Scenario.t0 0)
        (fun op => match op with OpMkdirArchive => true | _ => false end).

(** An environment in which the agent-side configuration file cannot be
    written. *)
Definition write_refused : Env :=
  mkEnv "/home/user/.config/opencode" (mkDate Scenario.t0 0)
        (fun op => match op with OpWrite (OmoFile _) => true | _ => false end).

(** A computation that never throws. *)
Definition returns {A : Type} (m : M A) : Prop :=
  forall env s, exists a, result (m env s) = Ok a.

(** The actions whose handler reports every failure itself: the six
    mutating actions and restore-backup run in a [try] of their own, and
    backup-configs only calls the backup, which does. *)
Definition catches (a : ActionType) : bool :=
  match a with
  | AddAgent | ModifyAgent | AddCategory | ModifyCategory
  | DisableHook | EnableHook | RestoreBackup | BackupConfigs => true
  | _ => false
  end.

(** The configuration file a backup of the given name is restored into. *)
Definition restore_target (name : string) (omoConfigPath ocConfigPath : Path) : Path :=
  if Js.startsWith name "omo-backup-" then omoConfigPath else ocConfigPath.

(** What a snapshot of a file stores: its content, or the empty object
    when there is no file to copy. *)
Definition copy_of (s : Store) (src : Path) : Content :=
  match Fs.read s src with
  | Some c => c
  | None => Parsed empty_config
  end.

(** The store right after the safety backup of a run. *)
Definition backed_up (env : Env) (s : Store) : Store :=
  final (Backup.backupConfigsInternal (resolved OmoFile s) (resolved OcFile s) env s).

(** Five provider-side backups of an earlier year, each holding its own
    plugin list, beside the two live files. *)
Definition old_backup (k : string) : string * Content :=
  (("opencode-backup-20250101-00000" ++ k ++ ".json")%string,
   Parsed (mkConfig None None None [("plugin", JArr [JStr k])])).

Definition full_archive : Store :=
  mkStore (Some (Parsed (mkConfig None None (Some ["think-mode"]) [])))
          None
          (Some (Parsed (mkConfig None None None [("plugin", JArr [JStr "now"])])))
          None
          (Some (map old_backup ["1"; "2"; "3"; "4"; "5"])).

(** The actions that change the agent-side configuration. *)
Definition mutating (a : ActionType) : bool :=
  match a with
  | AddAgent | ModifyAgent | AddCategory | ModifyCategory
  | DisableHook | EnableHook => true
  | _ => false
  end.

(** [hasWord(word)] of [parseAction] on a request. *)
Definition mentions (request word : string) : bool :=
  Classifier.hasWordIn (Classifier.words_of request) word.

(** The words whose rules stand before the rules of the mutating
    actions, whatever else the request holds. *)
Definition earlier_words : list string :=
  ["update"; "diagnostic"; "valid"; "check"; "backup"; "restore"; "compare";
   "diff"; "permission"; "perm"].

(** The actions a request that mentions a backup can be classified as. *)
Definition before_restore : list ActionType :=
  [ListAgents; ListCategories; ListSkills; ListOcModels; CheckUpdates;
   RunDiagnostics; BackupConfigs].

End MoreProps.

(* ================================================================== *)
(** * What a pattern matches *)

Module Matching.

Import Regex.

(** The pattern [r] can take the input from [inp] to its suffix [inp'],
    turning the captures [caps] into [caps'].  Word boundaries are not
    recorded: the relation bounds what a match can be. *)
Fixpoint matches (r : Re) (inp inp' : list ascii) (caps caps' : Caps) : Prop :=
  match r with
  | Eps => inp' = inp /\ caps' = caps
  | Chr p => exists c, inp = c :: inp' /\ p c = true /\ caps' = caps
  | Seq a b =>
      exists mid capsm, matches a inp mid caps capsm /\ matches b mid inp' capsm caps'
  | Alt a b => matches a inp inp' caps caps' \/ matches b inp inp' caps caps'
  | Rep p lo hi =>
      exists pre,
        inp = pre ++ inp' /\ forallb p pre = true /\ lo <= List.length pre
        /\ match hi with Some h => List.length pre <= h | None => True end
        /\ caps' = caps
  | WordB => inp' = inp /\ caps' = caps
  | Cap i a =>
      exists capsa,
        matches a inp inp' caps capsa
        /\ caps' = (i, string_of_list_ascii
                         (firstn (List.length inp - List.length inp') inp)) :: capsa
  end.

(** A pattern without a capture group. *)
Fixpoint capture_free (r : Re) : bool :=
  match r with
  | Seq a b | Alt a b => capture_free a && capture_free b
  | Cap _ _ => false
  | _ => true
  end.

(** The text matches the key pattern from its first to its last
    character. *)
Definition key_shaped (k : string) : Prop := Regex.full_match key_re k = true.

End Matching.

(* ================================================================== *)
(** * The comparison with a backup: which names it reports ([core.ts]) *)

Module Compare.

(** [k in o]: an own property or a member of [Object.prototype]. *)
Definition has {A : Type} (o : list (string * A)) (k : string) : bool :=
  match Obj.get o k with
  | Obj.Undefined => false
  | _ => true
  end.

(** [Object.keys(a).filter((k) => !(k in b))] *)
Definition missing_from {A : Type} (a b : list (string * A)) : list string :=
  filter (fun k => negb (has b k)) (Obj.keys a).

Section Agents.

(** The current document and the one read from the backup. *)
Variables omoConfig backupData : Config.

Definition curAgents : list (string * OmoAgent) := or_default [] (agents omoConfig).
Definition bakAgents : list (string * OmoAgent) := or_default [] (agents backupData).
Definition curCats : list (string * OmoCategory) :=
  or_default [] (categories omoConfig).
Definition bakCats : list (string * OmoCategory) :=
  or_default [] (categories backupData).

Definition addedAgents : list string := missing_from curAgents bakAgents.
Definition removedAgents : list string := missing_from bakAgents curAgents.
Definition addedCats : list string := missing_from curCats bakCats.
Definition removedCats : list string := missing_from bakCats curCats.

End Agents.

(** [curProviders.filter((k) => !bakProviders.includes(k))] and its
    mirror image. *)
Definition addedProviders (curProviders bakProviders : list string) : list string :=
  filter (fun k => negb (Js.includes bakProviders k)) curProviders.

Definition removedProviders (curProviders bakProviders : list string) : list string :=
  filter (fun k => negb (Js.includes curProviders k)) bakProviders.

End Compare.

(* ================================================================== *)
(** * Orders of names *)

Module Ordering.

(** Each name is at most its successor, by code units. *)
Fixpoint ascending (l : list string) : Prop :=
  match l with
  | a :: (b :: _) as rest => String.leb a b = true /\ ascending rest
  | _ => True
  end.

(** Each name is at least its successor, by code units. *)
Fixpoint descending (l : list string) : Prop :=
  match l with
  | a :: (b :: _) as rest => String.leb b a = true /\ descending rest
  | _ => True
  end.

End Ordering.

(* ================================================================== *)
(** * The front matter of a skill ([core.ts], [list-skills]) *)

Module Skills.

Import Regex.
Local Open Scope string_scope.

Definition line_feed : nat := 10.
Definition carriage_return : nat := 13.
Definition colon : nat := 58.

(** Puts a character in front of the first piece. *)
Definition push (c : ascii) (pieces : list string) : list string :=
  match pieces with
  | piece :: rest => String c piece :: rest
  | [] => [String c EmptyString]
  end.

(** [content.split(/\r?\n/)]: a line feed, with the carriage return right
    before it if there is one, ends a piece; the empty string splits into
    one empty piece. *)
Fixpoint split_lines (content : string) : list string :=
  match content with
  | EmptyString => [EmptyString]
  | String c rest =>
      if Js.is_char line_feed c then EmptyString :: split_lines rest
      else
        match rest with
        | String next rest' =>
            if Js.is_char carriage_return c && Js.is_char line_feed next
            then EmptyString :: split_lines rest'
            else push c (split_lines rest)
        | EmptyString => push c (split_lines rest)
        end
  end.

(** [.] without the [s] flag, on U+0000..U+00FF: any character but the
    line terminators LF and CR. *)
Definition any_char (c : ascii) : bool :=
  negb (Js.is_char line_feed c || Js.is_char carriage_return c).

(** The pattern of a field line: group 1 is one or more characters of
    [[A-Za-z0-9_-]], then a colon and white space; group 2 is a greedy run
    of any characters, and white space may follow it. *)
Definition line_re : Re :=
  seqs [ Cap 1 (Plus key_char); Chr (Js.is_char colon); Star Js.is_space;
         Cap 2 (Star any_char); Star Js.is_space ].

(** [line.match(/^...$/)]: the pattern is anchored at both ends. *)
Definition line_match (line : string) : option Caps :=
  run line_re None (list_ascii_of_string line) [] at_end.

Definition fence : string := "---".

(** [fm[k] = v] on a plain object: the accessor [__proto__] ignores a
    string, any other key becomes an own property. *)
Definition assign (fm : list (string * string)) (k v : string)
  : list (string * string) :=
  if String.eqb k "__proto__" then fm else Obj.set fm k v.

(** The loop over [lines[1..]]. *)
Fixpoint entries (fm : list (string * string)) (lines : list string)
  : list (string * string) :=
  match lines with
  | [] => fm
  | line :: rest =>
      if String.eqb line fence then fm
      else
        match line_match line with
        | Some m =>
            match group 1 m, group 2 m with
            | Some k, Some v => entries (assign fm k v) rest
            | _, _ => entries fm rest
            end
        | None => entries fm rest
        end
  end.

(** [None] stands for [undefined]. *)
Definition parseFrontmatter (content : string) : option (list (string * string)) :=
  match split_lines content with
  | first :: rest =>
      if String.eqb first fence then Some (entries [] rest) else None
  | [] => None
  end.

Record Skill : Type := mkSkill {
  skill_name : string;
  skill_description : string
}.

(** [fm?.k]; neither of the two names read is a member of
    [Object.prototype]. *)
Definition member (fm : option (list (string * string))) (k : string)
  : option string :=
  match fm with
  | Some o => Obj.own o k
  | None => None
  end.

(** The entry pushed for the directory [dirName] whose [SKILL.md] holds
    [content]. *)
Definition describe (dirName content : string) : Skill :=
  let fm := parseFrontmatter content in
  mkSkill (Extract.or_default dirName (member fm "name"))
          (Extract.or_default EmptyString (member fm "description")).

(** A text of characters of the class [p]. *)
Definition made_of (p : ascii -> bool) (s : string) : Prop :=
  forallb p (list_ascii_of_string s) = true.

(** White space that does not end a line. *)
Definition blank (c : ascii) : bool := Js.is_space c && any_char c.

(** The text does not begin with white space. *)
Definition starts_black (s : string) : Prop :=
  match s with
  | String c _ => Js.is_space c = false
  | EmptyString => True
  end.

(** The content begins with a line that is the fence. *)
Definition fenced (content : string) : Prop :=
  content = fence
  \/ (exists rest, content = fence ++ String "010" rest)
  \/ (exists rest, content = fence ++ String "013" (String "010" rest)).

End Skills.



(* ================================================================== *)
(** * Facts about strings and patterns *)

Module JsFacts.

Lemma includes_In (a : list string) (x : string) :
  Js.includes a x = true <-> In x a.
Proof.
  unfold Js.includes. rewrite existsb_exists. split.
  - intros [y [Hy He]]. apply String.eqb_eq in He. now subst.
  - intros H. exists x. split; [assumption | apply String.eqb_refl].
Qed.

Lemma includes_false (a : list string) (x : string) :
  Js.includes a x = false <-> ~ In x a.
Proof.
  rewrite <- includes_In. destruct (Js.includes a x); split; congruence.
Qed.

Lemma key_char_allowed (c : ascii) : key_char c = true <-> Props.allowed c.
Proof.
  unfold key_char, Props.allowed, Js.is_alnum, Js.is_char.
  rewrite !orb_true_iff, !Nat.eqb_eq. tauto.
Qed.

Lemma alnum_allowed (c : ascii) :
  Js.is_alnum c = true <-> (Js.is_letter c = true \/ Js.is_digit c = true).
Proof. unfold Js.is_alnum. now rewrite orb_true_iff. Qed.

Lemma length_chars (s : string) :
  List.length (list_ascii_of_string s) = String.length s.
Proof. induction s; simpl; congruence. Qed.

Lemma rep_at_end (p : ascii -> bool) (caps : Regex.Caps) (inp : list ascii) :
  forall (n : nat) (prev : option ascii),
    Regex.matched (Regex.rep p 0 (Some n) prev inp caps Regex.at_end)
    = forallb p inp && (List.length inp <=? n).
Proof.
  induction inp as [| c rest IH]; intros n prev; simpl.
  - reflexivity.
  - destruct (p c); simpl; [| reflexivity].
    destruct n as [| n']; simpl.
    + now rewrite andb_false_r.
    + specialize (IH n' (Some c)).
      destruct (Regex.rep p 0 (Some n') (Some c) rest caps Regex.at_end);
        simpl in *; exact IH.
Qed.

Lemma isSafeConfigKey_unfold (c : ascii) (rest : string) :
  isSafeConfigKey (String c rest)
  = negb (Js.includes FORBIDDEN_KEYS (Js.toLowerCase (String c rest)))
    && (Js.is_alnum c && (forallb key_char (list_ascii_of_string rest)
                          && (String.length rest <=? 63))).
Proof.
  unfold isSafeConfigKey.
  destruct (Js.includes FORBIDDEN_KEYS (Js.toLowerCase (String c rest))); simpl;
    [reflexivity |].
  unfold Regex.full_match, key_re. simpl.
  destruct (Js.is_alnum c); simpl; [| reflexivity].
  now rewrite rep_at_end, length_chars.
Qed.

Lemma isSafeConfigKey_spec (k : string) :
  isSafeConfigKey k = true <-> Props.safe_key k.
Proof.
  unfold Props.safe_key, Props.reserved, Props.chars.
  destruct k as [| c rest].
  - split; [discriminate | intros [[c [r [H _]]] _]; discriminate].
  - rewrite isSafeConfigKey_unfold, !andb_true_iff, negb_true_iff, includes_false.
    rewrite forallb_forall, Nat.leb_le, alnum_allowed. simpl String.length.
    simpl list_ascii_of_string. rewrite Forall_forall. split.
    + intros [Hf [Ha [Hall Hlen]]]. repeat split; try assumption; try lia.
      * exists c, rest. now split.
      * intros x [<- | Hx].
        -- unfold Props.allowed. tauto.
        -- apply key_char_allowed. now apply Hall.
    + intros [[c' [r' [Heq Ha]]] [Hall [Hlen Hf]]]. injection Heq as <- <-.
      repeat split; try assumption; try lia.
      intros x Hx. apply key_char_allowed. apply Hall. now right.
Qed.

End JsFacts.

(* ================================================================== *)
(** * Facts about runs *)

Module MonadFacts.

Import Props.

Lemma same_live_refl s : same_live s s.
Proof. repeat split. Qed.

Lemma same_live_trans s1 s2 s3 :
  same_live s1 s2 -> same_live s2 s3 -> same_live s1 s3.
Proof. unfold same_live. intuition congruence. Qed.

Lemma silent_ret {A} (a : A) : silent (ret a).
Proof. intros env s. split; reflexivity. Qed.

Lemma silent_throw {A} (e : Exn) : silent (@throw A e).
Proof. intros env s. split; reflexivity. Qed.

Lemma silent_bind {A B} (m : M A) (k : A -> M B) :
  silent m -> (forall a, silent (k a)) -> silent (bind m k).
Proof.
  intros Hm Hk env s. unfold bind. destruct (Hm env s) as [Hf He].
  destruct (result (m env s)) as [a | e]; cbn.
  - rewrite Hf, He. destruct (Hk a env s) as [Hf' He']. now rewrite Hf', He'.
  - now split.
Qed.

Lemma silent_if {A} (b : bool) (m1 m2 : M A) :
  silent m1 -> silent m2 -> silent (if b then m1 else m2).
Proof. now destruct b. Qed.

Lemma silent_exists_file p : silent (Fs.exists_file p).
Proof. intros env s. split; reflexivity. Qed.

Lemma silent_readJsonFile p d : silent (Fs.readJsonFile p d).
Proof.
  intros env s. unfold Fs.readJsonFile.
  destruct (Fs.read s p) as [[c |] |]; split; reflexivity.
Qed.

Lemma silent_listBackups n : silent (Fs.listBackups n).
Proof.
  intros env s. unfold Fs.listBackups.
  destruct (archive s); [destruct (faults env OpReaddir) |]; split; reflexivity.
Qed.

Lemma silent_resolve f : silent (Fs.resolve f).
Proof.
  unfold Fs.resolve. apply silent_bind; [apply silent_exists_file |].
  intros j. apply silent_if; [apply silent_ret |].
  apply silent_bind; [apply silent_exists_file |].
  intros c. apply silent_if; apply silent_ret.
Qed.

Lemma silent_load : silent Exec.load.
Proof.
  unfold Exec.load, Fs.resolveOmoConfigPath, Fs.resolveOpenCodeConfigPath.
  apply silent_bind; [apply silent_resolve | intros o].
  apply silent_bind; [apply silent_resolve | intros c].
  apply silent_bind; [apply silent_readJsonFile | intros oc].
  apply silent_bind; [apply silent_readJsonFile | intros cc].
  apply silent_bind; [apply silent_listBackups | intros bs].
  apply silent_ret.
Qed.

Lemma run_eta {A} (r : Run A) : mkRun (result r) (final r) (events r) = r.
Proof. now destruct r. Qed.

(** executeAction is the dispatch on what was loaded, or the load's error *)
Lemma executeAction_run action request options env s :
  Exec.executeAction action request options env s =
  match result (Exec.load env s) with
  | Ok l =>
      Exec.dispatch (Exec.l_omoConfigPath l) (Exec.l_ocConfigPath l)
                    (Exec.l_omoConfig l) (Exec.l_existingBackups l)
                    (Exec.effective action request options) action env s
  | Throw e => mkRun (Throw e) s []
  end.
Proof.
  unfold Exec.executeAction, bind.
  destruct (silent_load env s) as [Hf He]. rewrite Hf, He.
  destruct (result (Exec.load env s)); [apply run_eta | reflexivity].
Qed.

End MonadFacts.

Module LoadFacts.
Import Props MonadFacts.

Lemma resolve_result f env s :
  result (Fs.resolve f env s) = Ok (resolved f s).
Proof.
  unfold Fs.resolve, resolved, bind, Fs.exists_file, ret. cbn.
  destruct (Fs.read s (f DotJson)); cbn; [reflexivity |].
  destruct (Fs.read s (f DotJsonc)); reflexivity.
Qed.

Lemma resolve_run f env s :
  Fs.resolve f env s = mkRun (Ok (resolved f s)) s [].
Proof.
  rewrite <- (run_eta (Fs.resolve f env s)).
  destruct (silent_resolve f env s) as [-> ->]. now rewrite resolve_result.
Qed.

Lemma readJsonFile_run p d env s :
  Fs.readJsonFile p d env s =
  match Fs.read s p with
  | None => mkRun (Ok d) s []
  | Some (Parsed c) => mkRun (Ok c) s []
  | Some Malformed => mkRun (Throw (ParseError p)) s []
  end.
Proof. reflexivity. Qed.

Lemma load_inv env s l :
  result (Exec.load env s) = Ok l ->
  Exec.l_omoConfigPath l = resolved OmoFile s
  /\ Exec.l_ocConfigPath l = resolved OcFile s
  /\ omo_config s = Some (Exec.l_omoConfig l)
  /\ oc_config s = Some (Exec.l_ocConfig l)
  /\ Exec.l_existingBackups l = listed 5 s
  /\ archive_readable env s.
Proof.
  unfold Exec.load, Fs.resolveOmoConfigPath, Fs.resolveOpenCodeConfigPath.
  unfold bind at 1. rewrite resolve_run. cbn [result final events].
  unfold bind at 1. rewrite resolve_run. cbn [result final events].
  unfold omo_config, oc_config, config_at, listed, archive_readable.
  unfold bind at 1. rewrite readJsonFile_run.
  destruct (Fs.read s (resolved OmoFile s)) as [[oc |] |]; cbn [result final events];
    try discriminate.
  - unfold bind at 1. rewrite readJsonFile_run.
    destruct (Fs.read s (resolved OcFile s)) as [[cc |] |]; cbn [result final events];
      try discriminate;
      unfold bind, Fs.listBackups, ret;
      (destruct (archive s); [destruct (faults env OpReaddir) |]);
      cbn; try discriminate; intros [= <-]; cbn; auto 10.
  - unfold bind at 1. rewrite readJsonFile_run.
    destruct (Fs.read s (resolved OcFile s)) as [[cc |] |]; cbn [result final events];
      try discriminate;
      unfold bind, Fs.listBackups, ret;
      (destruct (archive s); [destruct (faults env OpReaddir) |]);
      cbn; try discriminate; intros [= <-]; cbn; auto 10.
Qed.

Lemma load_ok env s oc cc :
  omo_config s = Some oc -> oc_config s = Some cc -> archive_readable env s ->
  result (Exec.load env s)
  = Ok (Exec.mkLoaded (resolved OmoFile s) (resolved OcFile s) oc cc (listed 5 s)).
Proof.
  unfold Exec.load, Fs.resolveOmoConfigPath, Fs.resolveOpenCodeConfigPath.
  unfold omo_config, oc_config, config_at, listed, archive_readable.
  intros Ho Hc Ha.
  unfold bind at 1. rewrite resolve_run. cbn [result final events].
  unfold bind at 1. rewrite resolve_run. cbn [result final events].
  unfold bind at 1. rewrite readJsonFile_run.
  destruct (Fs.read s (resolved OmoFile s)) as [[oc' |] |]; try discriminate;
    injection Ho as <-; cbn [result final events];
    unfold bind at 1; rewrite readJsonFile_run;
    (destruct (Fs.read s (resolved OcFile s)) as [[cc' |] |]; try discriminate);
    injection Hc as <-; cbn [result final events];
    unfold bind, Fs.listBackups, ret;
    (destruct (archive s); [destruct (faults env OpReaddir) |]); cbn;
    try reflexivity; destruct Ha; discriminate.
Qed.

End LoadFacts.

Module BackupFacts.

Import Props MonadFacts.

Lemma archival_ret {A} (a : A) : archival (ret a).
Proof. intros env s. apply same_live_refl. Qed.

Lemma archival_bind {A B} (m : M A) (k : A -> M B) :
  archival m -> (forall a, archival (k a)) -> archival (bind m k).
Proof.
  intros Hm Hk env s. unfold bind. specialize (Hm env s).
  destruct (result (m env s)) as [a | e]; cbn; [| exact Hm].
  eapply same_live_trans; [exact Hm | apply Hk].
Qed.

Lemma archival_try_catch {A} (m : M A) (h : Exn -> M A) :
  archival m -> (forall e, archival (h e)) -> archival (try_catch m h).
Proof.
  intros Hm Hh env s. unfold try_catch. specialize (Hm env s).
  destruct (result (m env s)) as [a | e]; cbn; [exact Hm |].
  eapply same_live_trans; [exact Hm | apply Hh].
Qed.

Lemma archival_silent {A} (m : M A) : silent m -> archival m.
Proof. intros H env s. destruct (H env s) as [-> _]. apply same_live_refl. Qed.

Lemma archival_emit e : archival (Fs.emit e).
Proof. intros env s. apply same_live_refl. Qed.

Lemma same_live_put s name c : same_live s (Fs.put s (ArchiveFile name) c).
Proof. repeat split. Qed.

Lemma same_live_delete s name : same_live s (Fs.delete s (ArchiveFile name)).
Proof. repeat split. Qed.

Lemma archival_copyFile src name : archival (Fs.copyFile src (ArchiveFile name)).
Proof.
  unfold Fs.copyFile. apply archival_bind; [apply archival_emit | intros _].
  intros env s. destruct (Fs.read s src); cbn; [| apply same_live_refl].
  destruct (faults env (OpCopy (ArchiveFile name))); cbn;
    [apply same_live_refl | apply same_live_put].
Qed.

Lemma archival_writeJsonFile name d : archival (Fs.writeJsonFile (ArchiveFile name) d).
Proof.
  unfold Fs.writeJsonFile. apply archival_bind; [apply archival_emit | intros _].
  intros env s. destruct (faults env (OpWrite (ArchiveFile name))); cbn;
    [apply same_live_refl | apply same_live_put].
Qed.

Lemma archival_unlink name : archival (Fs.unlink (ArchiveFile name)).
Proof.
  unfold Fs.unlink. apply archival_bind; [apply archival_emit | intros _].
  intros env s. destruct (Fs.read s (ArchiveFile name)); cbn; [| apply same_live_refl].
  destruct (faults env (OpUnlink (ArchiveFile name))); cbn;
    [apply same_live_refl | apply same_live_delete].
Qed.

Lemma archival_ensureArchiveDir : archival Fs.ensureArchiveDir.
Proof.
  unfold Fs.ensureArchiveDir. apply archival_bind; [apply archival_emit | intros _].
  intros env s. destruct (faults env OpMkdirArchive); cbn; [apply same_live_refl |].
  destruct (archive s); cbn; repeat split.
Qed.

Lemma archival_unlink_all names : archival (Backup.unlink_all names).
Proof.
  induction names as [| b rest IH]; simpl; [apply archival_ret |].
  apply archival_bind; [| intros _; exact IH].
  apply archival_try_catch; [apply archival_unlink | intros _; apply archival_ret].
Qed.

Lemma archival_snapshot src name : archival (Backup.snapshot src name).
Proof.
  unfold Backup.snapshot. apply archival_try_catch;
    [apply archival_copyFile | intros _; apply archival_writeJsonFile].
Qed.

Lemma archival_backup o c : archival (Backup.backupConfigsInternal o c).
Proof.
  unfold Backup.backupConfigsInternal.
  apply archival_bind; [apply archival_emit | intros _].
  apply archival_try_catch; [| intros e; apply archival_ret].
  apply archival_bind; [apply archival_ensureArchiveDir | intros _].
  apply archival_bind; [apply archival_silent; intros env s; now split | intros env].
  apply archival_bind; [apply archival_snapshot | intros _].
  apply archival_bind; [apply archival_snapshot | intros _].
  apply archival_bind; [apply archival_silent, silent_listBackups | intros bs].
  apply archival_bind; [| intros _; apply archival_ret].
  destruct (5 <? List.length bs); [apply archival_unlink_all | apply archival_ret].
Qed.

Lemma try_catch_total {A} (m : M A) (f : Exn -> A) env s :
  exists r, result (try_catch m (fun e => ret (f e)) env s) = Ok r.
Proof.
  unfold try_catch. destruct (result (m env s)) as [a | e] eqn:E; cbn; eauto.
Qed.

(** The backup never throws: every failure is turned into a result. *)
Lemma backup_returns o c env s :
  exists r, result (Backup.backupConfigsInternal o c env s) = Ok r.
Proof.
  unfold Backup.backupConfigsInternal. unfold bind at 1.
  cbn [Fs.emit result final events].
  apply (try_catch_total _ BackupFailed).
Qed.

(** Its first effect is the call itself. *)
Lemma backup_begins o c env s :
  exists rest, events (Backup.backupConfigsInternal o c env s) = EBackupStart o c :: rest.
Proof.
  unfold Backup.backupConfigsInternal. unfold bind at 1.
  cbn [Fs.emit result final events]. eexists. reflexivity.
Qed.

End BackupFacts.

Module GuardFacts.

Import Props MonadFacts BackupFacts.

Lemma guarded_say o c a r : guarded o c (Exec.say a r).
Proof. intros env s. now left. Qed.

Lemma guarded_throw {A} o c e : guarded o c (@throw A e).
Proof. intros env s. now left. Qed.

Lemma guarded_backup_bind {A} o c (k : BackupResult -> M A) :
  guarded o c (bind (Backup.backupConfigsInternal o c) k).
Proof.
  intros env s. right. unfold bind.
  destruct (backup_begins o c env s) as [rest E].
  destruct (result (Backup.backupConfigsInternal o c env s));
    cbn [result final events]; rewrite E; eexists; reflexivity.
Qed.

Lemma guarded_silent_bind {A B} o c (m : M A) (k : A -> M B) :
  silent m -> (forall a, guarded o c (k a)) -> guarded o c (bind m k).
Proof.
  intros Hm Hk env s. unfold bind. destruct (Hm env s) as [Hf He].
  destruct (result (m env s)) as [a | e]; cbn; rewrite He; [| now left].
  rewrite Hf. apply Hk.
Qed.

Lemma guarded_try_catch {A} o c (m : M A) (h : Exn -> M A) :
  guarded o c m -> (forall e, silent (h e)) -> guarded o c (try_catch m h).
Proof.
  intros Hm Hh env s. unfold try_catch. specialize (Hm env s).
  destruct (result (m env s)) as [a | e]; cbn; [exact Hm |].
  destruct (Hh e env (final (m env s))) as [_ ->]. now rewrite app_nil_r.
Qed.

Lemma silent_say a r : silent (Exec.say a r).
Proof. intros env s. now split. Qed.

Lemma silent_join_archive n : silent (Exec.join_archive n).
Proof. destruct n as [name |]; intros env s; now split. Qed.

Ltac step_guarded :=
  repeat first
    [ apply guarded_say
    | apply guarded_throw
    | apply guarded_backup_bind
    | apply guarded_try_catch; [| intros ?; apply silent_say]
    | apply guarded_silent_bind;
      [ first [apply silent_join_archive | apply silent_readJsonFile] | intros ? ]
    | match goal with
      | |- guarded _ _ (if ?b then _ else _) => destruct b
      | |- guarded _ _ (match ?x with _ => _ end) => destruct x
      end ].

Lemma guarded_dispatch o c cfg bks eo action :
  guarded o c (Exec.dispatch o c cfg bks eo action).
Proof.
  destruct action; cbn [Exec.dispatch];
    unfold Exec.list_agents, Exec.list_categories, Exec.backup_configs,
      Exec.compare_backup, Exec.restore_backup, Exec.add_agent, Exec.modify_agent,
      Exec.add_category, Exec.modify_category, Exec.disable_hook, Exec.enable_hook,
      Exec.backup;
    step_guarded.
Qed.

Lemma begins_precedes o c evs :
  begins_with_backup o c evs -> backup_precedes_writes o c evs.
Proof.
  intros [-> | [rest ->]] pre p post E Hl.
  - now destruct pre.
  - destruct pre as [| e pre']; [discriminate |].
    injection E as <- _. now left.
Qed.

End GuardFacts.

Module CommitFacts.
Import Props MonadFacts BackupFacts.

Lemma read_same_live s s' p :
  same_live s s' -> live p = true -> Fs.read s' p = Fs.read s p.
Proof.
  intros [H1 [H2 [H3 H4]]] Hl.
  destruct p as [[|] | [|] | n]; cbn; try assumption. discriminate.
Qed.

Lemma read_put_same s p c : live p = true -> Fs.read (Fs.put s p c) p = Some c.
Proof. destruct p as [[|] | [|] | n]; cbn; try reflexivity. discriminate. Qed.

Lemma read_put_other s p p' c :
  live p = true -> p' <> p -> Fs.read (Fs.put s p c) p' = Fs.read s p'.
Proof.
  intros Hl Hne.
  destruct p as [[|] | [|] | n]; try discriminate;
    destruct p' as [[|] | [|] | n']; cbn; try reflexivity; congruence.
Qed.

Lemma archive_put_live s p c : live p = true -> archive (Fs.put s p c) = archive s.
Proof. destruct p as [[|] | [|] | n]; cbn; try reflexivity. discriminate. Qed.

(** An accepted mutation whose write goes through. *)
Lemma commit_ok o c p config' a r (h : Exn -> M Report) env s :
  live p = true -> faults env (OpWrite p) = false ->
  let run := try_catch (commit o c p config' a r) h env s in
  result run = Ok (mkReport a r)
  /\ Fs.read (final run) p = Some (Parsed config')
  /\ (forall p', live p' = true -> p' <> p -> Fs.read (final run) p' = Fs.read s p')
  /\ (exists middle, events run = EBackupStart o c :: middle ++ [EWriteJson p])
  /\ (exists sb, same_live s sb /\ final run = Fs.put sb p (Parsed config')).
Proof.
  intros Hl Hw. unfold try_catch, commit, bind.
  destruct (backup_returns o c env s) as [br Hb].
  destruct (backup_begins o c env s) as [rest He].
  pose proof (archival_backup o c env s) as Ha.
  rewrite Hb. cbn [result final events].
  unfold Fs.writeJsonFile, Fs.emit, Exec.say, ret, bind.
  cbn [result final events]. rewrite Hw. cbn [result final events].
  repeat split.
  - now apply read_put_same.
  - intros p' Hl' Hne. rewrite read_put_other by assumption.
    now apply read_same_live.
  - exists rest. rewrite He. reflexivity.
  - eexists. split; [exact Ha | reflexivity].
Qed.

(** An accepted mutation whose write fails: the failure is reported and no
    configuration file has changed. *)
Lemma commit_failed o c p config' a r (fail : Exn -> Outcome) env s :
  live p = true -> faults env (OpWrite p) = true ->
  let run := try_catch (commit o c p config' a r)
                       (fun e => Exec.say a (fail e)) env s in
  result run = Ok (mkReport a (fail (IoError (OpWrite p))))
  /\ same_live s (final run).
Proof.
  intros Hl Hw. unfold try_catch, commit, bind.
  destruct (backup_returns o c env s) as [br Hb].
  pose proof (archival_backup o c env s) as Ha.
  rewrite Hb. cbn [result final events].
  unfold Fs.writeJsonFile, Fs.emit, Exec.say, ret, bind.
  cbn [result final events]. rewrite Hw. cbn [result final events].
  split; [reflexivity | exact Ha].
Qed.

End CommitFacts.

Module NumFacts.

Lemma Qltb_true a b : Num.Qltb a b = true <-> (a < b)%Q.
Proof.
  unfold Num.Qltb. rewrite negb_true_iff. split.
  - intros H. apply Qnot_le_lt. intros L. apply Qle_bool_iff in L. congruence.
  - intros H. destruct (Qle_bool b a) eqn:E; [| reflexivity].
    apply Qle_bool_iff in E. exfalso. now apply (Qlt_not_le a b).
Qed.

Lemma Qltb_false a b : Num.Qltb a b = false <-> (b <= a)%Q.
Proof.
  unfold Num.Qltb. rewrite negb_false_iff. apply Qle_bool_iff.
Qed.

Lemma out_of_range_check t :
  out_of_range t -> Exec.temperature_out_of_range t = true.
Proof.
  destruct t as [[| | q |] |]; cbn; try tauto.
  intros [H | H]; apply orb_true_iff; [left | right].
  - apply Qltb_true. exact H.
  - unfold Num.gt. cbn. apply Qltb_true. exact H.
Qed.

(** For a number that has a value, the check of the code is the interval
    of the specification. *)
Lemma in_range_check q :
  Exec.temperature_out_of_range (Some (Fin q)) = false
  <-> Num.in_range 0 1 (Fin q).
Proof.
  cbn. rewrite orb_false_iff. unfold Num.gt. cbn.
  rewrite !Qltb_false. reflexivity.
Qed.

Lemma nan_passes_check : Exec.temperature_out_of_range (Some NaN) = false.
Proof. reflexivity. Qed.

End NumFacts.

Module ExecFacts.
Import Props MonadFacts LoadFacts NumFacts JsFacts.

Lemma rejected_say a o s (h : Exn -> M Report) env :
  mark o = Error -> rejected (try_catch (Exec.say a o) h env s) s.
Proof. intros H. repeat split. intros r [= <-]. exact H. Qed.

Lemma truthy_some n : n <> EmptyString -> truthy (Some n) = true.
Proof. destruct n; [congruence | reflexivity]. Qed.

Lemma missing_get {A} (o : option (list (string * A))) k :
  missing o k ->
  match o with Some entries => Obj.get entries k = Obj.Undefined | None => True end.
Proof. now destruct o. Qed.

Lemma invalid_dispatch o c cfg bks eo a env s0 s :
  Props.omo_config s0 = Some cfg -> invalid a eo s0 ->
  rejected (Exec.dispatch o c cfg bks eo a env s) s.
Proof.
  intros Hcfg Hinv. destruct a; unfold invalid in Hinv; try contradiction;
    destruct Hinv as [n [Hn [Hne Hbad]]]; cbn [Exec.dispatch].
  - (* add-agent *)
    unfold Exec.add_agent. rewrite Hn, (truthy_some Hne). cbn [negb or_default].
    fold (agent_data eo).
    destruct (isSafeConfigKey n); cbn [negb]; [| now apply rejected_say].
    destruct (truthy (a_model (agent_data eo))); cbn [negb]; [| now apply rejected_say].
    destruct (Exec.temperature_out_of_range (a_temperature (agent_data eo))) eqn:T;
      [now apply rejected_say |].
    destruct Hbad as [H | [H | H]]; try discriminate.
    apply out_of_range_check in H. congruence.
  - (* modify-agent *)
    unfold Exec.modify_agent. rewrite Hn, (truthy_some Hne). cbn [negb or_default].
    fold (agent_data eo).
    destruct (isSafeConfigKey n); cbn [negb]; [| now apply rejected_say].
    destruct (Exec.temperature_out_of_range (a_temperature (agent_data eo))) eqn:T;
      [now apply rejected_say |].
    destruct Hbad as [H | [H | H]]; try discriminate.
    + apply out_of_range_check in H. congruence.
    + specialize (H cfg Hcfg). destruct (agents cfg) as [entries |];
        [| now apply rejected_say].
      cbn in H. rewrite H. now apply rejected_say.
  - (* add-category *)
    unfold Exec.add_category. rewrite Hn, (truthy_some Hne). cbn [negb or_default].
    fold (category_data eo).
    destruct (isSafeConfigKey n); cbn [negb]; [| now apply rejected_say].
    destruct (truthy (c_model (category_data eo))); cbn [negb];
      [| now apply rejected_say].
    destruct (Exec.temperature_out_of_range (c_temperature (category_data eo))) eqn:T;
      [now apply rejected_say |].
    destruct Hbad as [H | [H | H]]; try discriminate.
    apply out_of_range_check in H. congruence.
  - (* modify-category *)
    unfold Exec.modify_category. rewrite Hn, (truthy_some Hne). cbn [negb or_default].
    fold (category_data eo).
    destruct (isSafeConfigKey n); cbn [negb]; [| now apply rejected_say].
    destruct (Exec.temperature_out_of_range (c_temperature (category_data eo))) eqn:T;
      [now apply rejected_say |].
    destruct Hbad as [H | [H | H]]; try discriminate.
    + apply out_of_range_check in H. congruence.
    + specialize (H cfg Hcfg). destruct (categories cfg) as [entries |];
        [| now apply rejected_say].
      cbn in H. rewrite H. now apply rejected_say.
  - (* disable-hook *)
    unfold Exec.disable_hook. rewrite Hn, (truthy_some Hne). cbn [negb or_default].
    apply includes_false in Hbad. rewrite Hbad. cbn [negb].
    now apply rejected_say.
Qed.

(** Every validation failure leaves the store as it was, attempts no
    effect, and is reported as an error. *)
Lemma invalid_requests_change_nothing a request options env s :
  invalid a (Exec.effective a request options) s ->
  rejected (Exec.executeAction a request options env s) s.
Proof.
  intros Hinv. rewrite executeAction_run.
  destruct (result (Exec.load env s)) as [l | e] eqn:E.
  - destruct (load_inv _ _ E) as [_ [_ [Hc _]]].
    eapply invalid_dispatch; eassumption.
  - repeat split. discriminate.
Qed.

End ExecFacts.

Module ObjFacts.

Lemma own_set_same {A} (o : list (string * A)) k v :
  Obj.own (Obj.set o k v) k = Some v.
Proof.
  induction o as [| [k' v'] rest IH]; simpl.
  - now rewrite String.eqb_refl.
  - destruct (String.eqb k k') eqn:E; simpl.
    + now rewrite String.eqb_refl.
    + now rewrite E.
Qed.

Lemma own_set_other {A} (o : list (string * A)) k v k' :
  k' <> k -> Obj.own (Obj.set o k v) k' = Obj.own o k'.
Proof.
  intros Hne. induction o as [| [k0 v0] rest IH]; simpl.
  - apply String.eqb_neq in Hne. now rewrite Hne.
  - destruct (String.eqb k k0) eqn:E; simpl.
    + apply String.eqb_eq in E. subst k0.
      apply String.eqb_neq in Hne. now rewrite Hne.
    + now rewrite IH.
Qed.

(** Assigning to an existing property keeps the order of the keys. *)
Lemma keys_set_existing {A} (o : list (string * A)) k v old :
  Obj.own o k = Some old -> Obj.keys (Obj.set o k v) = Obj.keys o.
Proof.
  unfold Obj.keys. induction o as [| [k0 v0] rest IH]; simpl; [discriminate |].
  destruct (String.eqb k k0) eqn:E; simpl.
  - apply String.eqb_eq in E. now subst.
  - intros H. now rewrite IH.
Qed.

Lemma get_own {A} (o : list (string * A)) k v :
  Obj.own o k = Some v -> Obj.get o k = Obj.Own v.
Proof. unfold Obj.get. now intros ->. Qed.

End ObjFacts.

Module HandlerFacts.
Import Props MonadFacts LoadFacts NumFacts JsFacts ExecFacts CommitFacts ObjFacts.

Lemma safe_nonempty n : isSafeConfigKey n = true -> truthy (Some n) = true.
Proof. destruct n; [discriminate | reflexivity]. Qed.

Lemma add_agent_commits o c cfg eo n :
  Exec.field agentName eo = Some n -> isSafeConfigKey n = true ->
  truthy (a_model (agent_data eo)) = true ->
  Exec.temperature_out_of_range (a_temperature (agent_data eo)) = false ->
  Exec.add_agent o c cfg eo =
  try_catch
    (commit o c o
       (Exec.with_agents cfg
          (Obj.set (or_default [] (agents cfg)) n (Exec.new_agent (agent_data eo))))
       AddAgent
       (SavedAgent n (Exec.redact_agent (Exec.new_agent (agent_data eo)))))
    (failed AddAgent).
Proof.
  intros Hn Hs Hm Ht. unfold Exec.add_agent.
  rewrite Hn, (safe_nonempty _ Hs). cbn [negb or_default].
  fold (agent_data eo). rewrite Hs, Hm, Ht. reflexivity.
Qed.

Lemma add_category_commits o c cfg eo n :
  Exec.field categoryName eo = Some n -> isSafeConfigKey n = true ->
  truthy (c_model (category_data eo)) = true ->
  Exec.temperature_out_of_range (c_temperature (category_data eo)) = false ->
  Exec.add_category o c cfg eo =
  try_catch
    (commit o c o
       (Exec.with_categories cfg
          (Obj.set (or_default [] (categories cfg)) n
                   (Exec.new_category (category_data eo))))
       AddCategory
       (SavedCategory n (Exec.redact_category (Exec.new_category (category_data eo)))))
    (failed AddCategory).
Proof.
  intros Hn Hs Hm Ht. unfold Exec.add_category.
  rewrite Hn, (safe_nonempty _ Hs). cbn [negb or_default].
  fold (category_data eo). rewrite Hs, Hm, Ht. reflexivity.
Qed.

Lemma modify_agent_commits o c cfg eo n entries agent :
  Exec.field agentName eo = Some n -> isSafeConfigKey n = true ->
  Exec.temperature_out_of_range (a_temperature (agent_data eo)) = false ->
  agents cfg = Some entries -> Obj.own entries n = Some agent ->
  Exec.modify_agent o c cfg eo =
  try_catch
    (commit o c o
       (Exec.with_agents cfg
          (Obj.set entries n (Exec.update_agent agent (agent_data eo))))
       ModifyAgent
       (SavedAgent n (Exec.redact_agent (Exec.update_agent agent (agent_data eo)))))
    (failed ModifyAgent).
Proof.
  intros Hn Hs Ht Ha Ho. unfold Exec.modify_agent.
  rewrite Hn, (safe_nonempty _ Hs). cbn [negb or_default].
  fold (agent_data eo). rewrite Hs, Ht, Ha, (get_own _ _ Ho). reflexivity.
Qed.

Lemma modify_category_commits o c cfg eo n entries category :
  Exec.field categoryName eo = Some n -> isSafeConfigKey n = true ->
  Exec.temperature_out_of_range (c_temperature (category_data eo)) = false ->
  categories cfg = Some entries -> Obj.own entries n = Some category ->
  Exec.modify_category o c cfg eo =
  try_catch
    (commit o c o
       (Exec.with_categories cfg
          (Obj.set entries n (Exec.update_category category (category_data eo))))
       ModifyCategory
       (SavedCategory n
          (Exec.redact_category (Exec.update_category category (category_data eo)))))
    (failed ModifyCategory).
Proof.
  intros Hn Hs Ht Ha Ho. unfold Exec.modify_category.
  rewrite Hn, (safe_nonempty _ Hs). cbn [negb or_default].
  fold (category_data eo). rewrite Hs, Ht, Ha, (get_own _ _ Ho). reflexivity.
Qed.

Lemma disable_hook_commits o c cfg eo h :
  Exec.field hookName eo = Some h -> In h KNOWN_HOOKS ->
  ~ In h (or_default [] (disabled_hooks cfg)) ->
  Exec.disable_hook o c cfg eo =
  try_catch
    (commit o c o
       (Exec.with_disabled_hooks cfg (or_default [] (disabled_hooks cfg) ++ [h]))
       DisableHook (HookDisabled h))
    (failed DisableHook).
Proof.
  intros Hn Hk Hd. unfold Exec.disable_hook.
  assert (Ht : truthy (Some h) = true).
  { destruct h; [| reflexivity]. exfalso. revert Hk. cbn. intuition discriminate. }
  rewrite Hn, Ht. cbn [negb or_default].
  apply includes_In in Hk. apply includes_false in Hd. rewrite Hk, Hd. reflexivity.
Qed.

Lemma disable_hook_already o c cfg eo h env s :
  Exec.field hookName eo = Some h -> In h KNOWN_HOOKS ->
  In h (or_default [] (disabled_hooks cfg)) ->
  Exec.disable_hook o c cfg eo env s =
  mkRun (Ok (mkReport DisableHook (AlreadyDisabled h))) s [].
Proof.
  intros Hn Hk Hd. unfold Exec.disable_hook.
  assert (Ht : truthy (Some h) = true).
  { destruct h; [| reflexivity]. exfalso. revert Hk. cbn. intuition discriminate. }
  rewrite Hn, Ht. cbn [negb or_default].
  apply includes_In in Hk. apply includes_In in Hd. rewrite Hk, Hd. reflexivity.
Qed.

(** The store after a write to the resolved path still resolves to it. *)
Lemma resolved_omo_put s sb cfg :
  same_live s sb ->
  resolved OmoFile (Fs.put sb (resolved OmoFile s) (Parsed cfg)) = resolved OmoFile s.
Proof.
  intros [H1 [H2 _]]. unfold resolved. cbn [Fs.read].
  destruct (omo_json s) eqn:J; destruct (omo_jsonc s) eqn:C; cbn;
    rewrite ?H1, ?H2, ?J, ?C; reflexivity.
Qed.

Lemma resolved_oc_put s sb cfg :
  same_live s sb ->
  resolved OcFile (Fs.put sb (resolved OmoFile s) (Parsed cfg)) = resolved OcFile s.
Proof.
  intros [H1 [H2 [H3 H4]]]. unfold resolved. cbn [Fs.read].
  destruct (omo_json s); destruct (omo_jsonc s); cbn; rewrite ?H3, ?H4; reflexivity.
Qed.

Lemma live_resolved f s : (f = OmoFile \/ f = OcFile) -> live (resolved f s) = true.
Proof.
  intros [-> | ->]; unfold resolved; cbn [Fs.read];
    repeat match goal with
           | |- context [match ?x with _ => _ end] => destruct x
           end; reflexivity.
Qed.

Lemma omo_config_after s sb cfg :
  same_live s sb ->
  omo_config (Fs.put sb (resolved OmoFile s) (Parsed cfg)) = Some cfg.
Proof.
  intros H. unfold omo_config, config_at. rewrite (resolved_omo_put _ H).
  rewrite read_put_same; [reflexivity | apply live_resolved; now left].
Qed.

Lemma oc_config_after s sb cfg :
  same_live s sb ->
  oc_config (Fs.put sb (resolved OmoFile s) (Parsed cfg)) = oc_config s.
Proof.
  intros H. unfold oc_config, config_at. rewrite (resolved_oc_put _ H).
  rewrite read_put_other.
  - now rewrite (read_same_live _ H) by (apply live_resolved; now right).
  - apply live_resolved; now left.
  - unfold resolved; cbn [Fs.read];
      repeat match goal with
             | |- context [match ?x with _ => _ end] => destruct x
             end; discriminate.
Qed.

End HandlerFacts.

Module TraceFacts.
Import Props MonadFacts BackupFacts.

Section Bounded.

Variable env : Env.
Variable P : Event -> Prop.

Lemma bounded_ret {A} (a : A) : bounded_at env P (ret a).
Proof. intros s. constructor. Qed.

Lemma bounded_bind {A B} (m : M A) (k : A -> M B) :
  bounded_at env P m -> (forall a, bounded_at env P (k a)) ->
  bounded_at env P (bind m k).
Proof.
  intros Hm Hk s. unfold bind. specialize (Hm s).
  destruct (result (m env s)) as [a | e]; cbn [events]; [| exact Hm].
  apply Forall_app. split; [exact Hm | apply Hk].
Qed.

Lemma bounded_try_catch {A} (m : M A) (h : Exn -> M A) :
  bounded_at env P m -> (forall e, bounded_at env P (h e)) ->
  bounded_at env P (try_catch m h).
Proof.
  intros Hm Hh s. unfold try_catch. specialize (Hm s).
  destruct (result (m env s)) as [a | e]; cbn [events]; [exact Hm |].
  apply Forall_app. split; [exact Hm | apply Hh].
Qed.

Lemma bounded_silent {A} (m : M A) : silent m -> bounded_at env P m.
Proof. intros H s. destruct (H env s) as [_ ->]. constructor. Qed.

Lemma bounded_emit e : P e -> bounded_at env P (Fs.emit e).
Proof. intros H s. cbn. now constructor. Qed.

Lemma bounded_tail {A} (m : M A) :
  (forall s, events (m env s) = []) -> bounded_at env P m.
Proof. intros H s. rewrite H. constructor. Qed.

(** [ask] hands over the environment of the run. *)
Lemma bounded_ask {B} (k : Env -> M B) :
  bounded_at env P (k env) -> bounded_at env P (bind Backup.ask k).
Proof. intros H s. unfold bind, Backup.ask. cbn. apply H. Qed.

Lemma bounded_copyFile src dst :
  P (ECopyFile src dst) -> bounded_at env P (Fs.copyFile src dst).
Proof.
  intros H. unfold Fs.copyFile. apply bounded_bind; [now apply bounded_emit | intros _].
  apply bounded_tail. intros s. destruct (Fs.read s src); [| reflexivity].
  now destruct (faults env _).
Qed.

Lemma bounded_writeJsonFile dst d :
  P (EWriteJson dst) -> bounded_at env P (Fs.writeJsonFile dst d).
Proof.
  intros H. unfold Fs.writeJsonFile.
  apply bounded_bind; [now apply bounded_emit | intros _].
  apply bounded_tail. intros s. now destruct (faults env _).
Qed.

Lemma bounded_unlink dst : P (EUnlink dst) -> bounded_at env P (Fs.unlink dst).
Proof.
  intros H. unfold Fs.unlink. apply bounded_bind; [now apply bounded_emit | intros _].
  apply bounded_tail. intros s. destruct (Fs.read s _); [| reflexivity].
  now destruct (faults env _).
Qed.

Lemma bounded_ensureArchiveDir : P EMkdirArchive -> bounded_at env P Fs.ensureArchiveDir.
Proof.
  intros H. unfold Fs.ensureArchiveDir.
  apply bounded_bind; [now apply bounded_emit | intros _].
  apply bounded_tail. intros s. destruct (faults env _); [reflexivity |].
  now destruct (archive s).
Qed.

Lemma bounded_unlink_all names :
  (forall n, P (EUnlink (ArchiveFile n))) -> bounded_at env P (Backup.unlink_all names).
Proof.
  intros H. induction names as [| b rest IH]; simpl; [apply bounded_ret |].
  apply bounded_bind; [| intros _; exact IH].
  apply bounded_try_catch; [now apply bounded_unlink | intros _; apply bounded_ret].
Qed.

Lemma bounded_snapshot src name :
  P (ECopyFile src (ArchiveFile name)) -> P (EWriteJson (ArchiveFile name)) ->
  bounded_at env P (Backup.snapshot src name).
Proof.
  intros Hc Hw. unfold Backup.snapshot. apply bounded_try_catch;
    [now apply bounded_copyFile | intros _; now apply bounded_writeJsonFile].
Qed.

End Bounded.

(** After the call itself, a backup makes the archive directory, copies
    each file under its name (or writes the placeholder under that name),
    and unlinks entries of the archive; it does nothing else. *)
Lemma backup_events_named o c env s :
  exists rest,
    events (Backup.backupConfigsInternal o c env s) = EBackupStart o c :: rest
    /\ Forall (backup_event o c (omo_name env o) (oc_name env c)) rest.
Proof.
  unfold Backup.backupConfigsInternal. unfold bind at 1.
  cbn [Fs.emit result final events]. eexists. split; [reflexivity |].
  revert s.
  match goal with
  | |- forall s, Forall ?P (events (?m env s)) => change (bounded_at env P m)
  end.
  apply bounded_try_catch; [| intros e; apply bounded_ret].
  apply bounded_bind; [apply bounded_ensureArchiveDir; exact I | intros _].
  apply bounded_ask.
  fold (omo_name env o). fold (oc_name env c).
  generalize (omo_name env o) (oc_name env c). intros a b.
  apply bounded_bind;
    [apply bounded_snapshot; [left; split; reflexivity | left; reflexivity] | intros _].
  apply bounded_bind;
    [apply bounded_snapshot; [right; split; reflexivity | right; reflexivity] | intros _].
  apply bounded_bind; [apply bounded_silent, silent_listBackups | intros bs].
  apply bounded_bind; [| intros _; apply bounded_ret].
  destruct (5 <? List.length bs); [| apply bounded_ret].
  apply bounded_unlink_all. intros n. exact I.
Qed.

Lemma backup_event_on_archive o c a b e : backup_event o c a b e -> on_archive e = true.
Proof.
  destruct e as [| | src dst | dst | dst]; cbn; try tauto.
  - intros [[_ ->] | [_ ->]]; reflexivity.
  - intros [-> | ->]; reflexivity.
  - destruct dst; tauto.
Qed.

(** After the call itself, a backup only touches the archive. *)
Lemma backup_events o c env s :
  exists rest,
    events (Backup.backupConfigsInternal o c env s) = EBackupStart o c :: rest
    /\ forallb on_archive rest = true.
Proof.
  destruct (backup_events_named o c env s) as [rest [E H]].
  exists rest. split; [exact E |].
  apply forallb_forall. intros e He. rewrite Forall_forall in H.
  eapply backup_event_on_archive. now apply H.
Qed.

Lemma config_writes_archive evs :
  forallb on_archive evs = true -> config_writes evs = [].
Proof.
  induction evs as [| e rest IH]; simpl; [reflexivity |].
  intros H. apply andb_true_iff in H. destruct H as [He Hr].
  rewrite (IH Hr). destruct e as [| | src dst | dst | dst]; try reflexivity.
  destruct dst; try discriminate. reflexivity.
Qed.

Lemma config_writes_app a b :
  config_writes (a ++ b) = config_writes a ++ config_writes b.
Proof. unfold config_writes. apply flat_map_app. Qed.

End TraceFacts.

Module RunFacts.
Import Props MonadFacts LoadFacts BackupFacts CommitFacts NumFacts JsFacts ExecFacts
       ObjFacts HandlerFacts TraceFacts.

Lemma commit_writes_once o c p config' a r (h : Exn -> M Report) env s :
  live p = true -> faults env (OpWrite p) = false ->
  config_writes (events (try_catch (commit o c p config' a r) h env s)) = [p].
Proof.
  intros Hl Hw. unfold try_catch, commit, bind.
  destruct (backup_returns o c env s) as [br Hb].
  destruct (backup_events o c env s) as [rest [He Hr]].
  rewrite Hb. cbn [result final events].
  unfold Fs.writeJsonFile, Fs.emit, Exec.say, ret, bind.
  cbn [result final events]. rewrite Hw. cbn [result final events].
  rewrite He, !app_nil_r.
  change (EBackupStart o c :: rest) with ([EBackupStart o c] ++ rest).
  rewrite !config_writes_app, (config_writes_archive _ Hr). cbn. now rewrite Hl.
Qed.

(** An accepted mutation, seen from [executeAction]: when the store loads
    and the write goes through, the report is the success report, the
    configuration file holds the new document, the other configuration
    file is as before, and the only write of a configuration file is the
    last effect of the run, after the backup. *)
Lemma execute_commit a request options env s cfg occ cfg' rep :
  omo_config s = Some cfg -> oc_config s = Some occ -> archive_readable env s ->
  faults env (OpWrite (resolved OmoFile s)) = false ->
  (forall o c bks,
      Exec.dispatch o c cfg bks (Exec.effective a request options) a
      = try_catch (commit o c o cfg' a rep) (failed a)) ->
  let run := Exec.executeAction a request options env s in
  result run = Ok (mkReport a rep)
  /\ omo_config (final run) = Some cfg'
  /\ oc_config (final run) = Some occ
  /\ config_writes (events run) = [resolved OmoFile s]
  /\ (exists middle,
         events run = EBackupStart (resolved OmoFile s) (resolved OcFile s)
                        :: middle ++ [EWriteJson (resolved OmoFile s)]).
Proof.
  intros Ho Hc Ha Hw Hd run. subst run. rewrite executeAction_run.
  rewrite (load_ok Ho Hc Ha). cbn [Exec.l_omoConfigPath Exec.l_ocConfigPath
                                   Exec.l_omoConfig Exec.l_existingBackups].
  rewrite Hd.
  assert (Hl : live (resolved OmoFile s) = true) by (apply live_resolved; now left).
  destruct (@commit_ok (resolved OmoFile s) (resolved OcFile s) (resolved OmoFile s)
                       cfg' a rep (failed a) env s Hl Hw)
    as [H1 [_ [_ [H4 [sb [Hsb H5]]]]]].
  repeat split.
  - exact H1.
  - rewrite H5. now apply omo_config_after.
  - rewrite H5, <- Hc. now apply oc_config_after.
  - now apply commit_writes_once.
  - exact H4.
Qed.

Lemma archive_readable_later env' s :
  faults env' OpReaddir = false -> archive_readable env' s.
Proof. intros H. now right. Qed.

End RunFacts.

Module ClockFacts.

Lemma chars_app a b : chars (a ++ b)%string = chars a ++ chars b.
Proof. unfold chars. induction a; simpl; congruence. Qed.



Lemma append_assoc a b c : ((a ++ b) ++ c)%string = (a ++ (b ++ c))%string.
Proof. induction a; simpl; congruence. Qed.








End ClockFacts.

Module PathFacts.

Import ClockFacts.

Lemma render_chars dir name :
  rev (list_ascii_of_string (dir ++ "/" ++ name)%string)
  = rev (list_ascii_of_string name) ++ "/"%char :: rev (list_ascii_of_string dir).
Proof.
  fold (chars (dir ++ "/" ++ name)%string). rewrite chars_app.
  change (chars ("/" ++ name)%string) with ("/"%char :: chars name).
  rewrite rev_app_distr. cbn [rev]. now rewrite <- app_assoc.
Qed.

(** The extension of a configuration path is the one of its candidate,
    whatever the directory. *)
Lemma ext_of_config dir p e :
  p = OmoFile e \/ p = OcFile e ->
  Backup.ext_or_json (Fs.render dir p) = ext_text e.
Proof.
  intros [-> | ->]; destruct e; unfold Backup.ext_or_json, Fs.extname, Fs.render;
    rewrite render_chars; reflexivity.
Qed.

End PathFacts.

Module ResultFacts.

Lemma ends_bind {A B} env (v : B) (m : M A) (k : A -> M B) :
  (forall a, ends_with env v (k a)) -> ends_with env v (bind m k).
Proof.
  intros Hk s r. unfold bind.
  destruct (result (m env s)) as [a | e]; cbn [result]; [apply Hk | discriminate].
Qed.

Lemma ends_ask {B} env (v : B) (k : Env -> M B) :
  ends_with env v (k env) -> ends_with env v (bind Backup.ask k).
Proof. intros H s r. unfold bind, Backup.ask. cbn. apply H. Qed.

Lemma ends_ret {B} env (v : B) : ends_with env v (ret v).
Proof. intros s r [= <-]. reflexivity. Qed.

(** The names a backup returns are the names it computes from the clock
    and the two paths. *)
Lemma backup_result_names o c env s a b :
  result (Backup.backupConfigsInternal o c env s) = Ok (BackupOk a b) ->
  a = omo_name env o /\ b = oc_name env c.
Proof.
  unfold Backup.backupConfigsInternal.
  unfold bind at 1. cbn [Fs.emit result final events].
  unfold try_catch.
  match goal with
  | |- context [match result (?m env s) with _ => _ end] =>
      assert (H : ends_with env (BackupOk (omo_name env o) (oc_name env c)) m)
  end.
  { apply ends_bind. intros _. apply ends_ask.
    repeat (apply ends_bind; intros ?). apply ends_ret. }
  match goal with
  | |- context [match result ?r with _ => _ end] =>
      destruct (result r) as [br | e] eqn:E; cbn [result ret]
  end.
  - rewrite E. intros [= ->]. specialize (H s _ E). injection H as -> ->. now split.
  - discriminate.
Qed.

End ResultFacts.

Module SweepFacts.

Import JsFacts.

Lemma insert_perm x l : Permutation (Fs.insert_sorted x l) (x :: l).
Proof.
  induction l as [| y rest IH]; simpl; [reflexivity |].
  destruct (String.leb x y); [reflexivity |].
  rewrite IH. apply perm_swap.
Qed.

Lemma sort_perm l : Permutation (Fs.sort l) l.
Proof.
  induction l as [| x rest IH]; simpl; [reflexivity |].
  rewrite insert_perm. now constructor.
Qed.

Lemma store_eta s :
  mkStore (omo_json s) (omo_jsonc s) (oc_json s) (oc_jsonc s) (archive s) = s.
Proof. now destruct s. Qed.

Lemma without_nil s : without [] s = s.
Proof.
  unfold without. destruct s as [a b c d [es |]]; cbn; [| reflexivity].
  f_equal. f_equal. induction es as [| e es IH]; cbn; congruence.
Qed.

Lemma filter_filter {A} (f g : A -> bool) l :
  filter f (filter g l) = filter (fun x => g x && f x) l.
Proof.
  induction l as [| x l IH]; cbn; [reflexivity |].
  destruct (g x); cbn; [destruct (f x) |]; now rewrite IH.
Qed.

Lemma without_cons b l s :
  without l (Fs.delete s (ArchiveFile b)) = without (b :: l) s.
Proof.
  unfold without, Fs.delete. cbn [omo_json omo_jsonc oc_json oc_jsonc archive].
  f_equal. destruct (archive s) as [es |]; cbn; [| reflexivity]. f_equal.
  unfold Fs.remove_entry. rewrite filter_filter. apply filter_ext.
  intros [k v]. unfold Js.includes. cbn [fst existsb].
  now rewrite negb_orb.
Qed.

(** Deleting an entry that is not there changes nothing. *)
Lemma delete_absent s b :
  Fs.read s (ArchiveFile b) = None -> Fs.delete s (ArchiveFile b) = s.
Proof.
  unfold Fs.delete. cbn. destruct s as [a b' c d [es |]]; cbn; [| reflexivity].
  intros H. f_equal. f_equal. unfold Fs.remove_entry.
  induction es as [| [k v] es IH]; cbn in *; [reflexivity |].
  destruct (String.eqb b k) eqn:E; [discriminate |].
  rewrite String.eqb_sym, E. cbn. now rewrite IH.
Qed.

(** An unlink whose failure is ignored always returns. *)
Lemma unlink_ignored env s b :
  result (try_catch (Fs.unlink (ArchiveFile b)) (fun _ => ret tt) env s) = Ok tt.
Proof.
  unfold try_catch.
  destruct (result (Fs.unlink (ArchiveFile b) env s)) as [[] |] eqn:E;
    [exact E | reflexivity].
Qed.

Lemma unlink_final env s b :
  faults env (OpUnlink (ArchiveFile b)) = false ->
  final (try_catch (Fs.unlink (ArchiveFile b)) (fun _ => ret tt) env s)
  = Fs.delete s (ArchiveFile b).
Proof.
  intros Hf. unfold try_catch, Fs.unlink, bind, Fs.emit, ret.
  cbn [result final events].
  destruct (Fs.read s (ArchiveFile b)) eqn:R; cbn [result final events].
  - now rewrite Hf.
  - now rewrite delete_absent.
Qed.

Lemma unlink_all_final env l :
  (forall op, faults env op = false) ->
  forall s, final (Backup.unlink_all l env s) = without l s.
Proof.
  intros Hf. induction l as [| b rest IH]; intros s; cbn.
  - now rewrite without_nil.
  - unfold bind. rewrite unlink_ignored. cbn [final].
    rewrite IH, unlink_final by apply Hf. apply without_cons.
Qed.


Lemma filter_perm {A} (f : A -> bool) l l' :
  Permutation l l' -> Permutation (filter f l) (filter f l').
Proof.
  induction 1 as [| x l l' _ IH | x y l | l l' l'' _ IH1 _ IH2]; cbn.
  - constructor.
  - destruct (f x); [now constructor | exact IH].
  - destruct (f x), (f y); try reflexivity. apply perm_swap.
  - now transitivity (filter f l').
Qed.

Lemma keys_filter {A} (p : string -> bool) (es : list (string * A)) :
  Obj.keys (filter (fun e => p (fst e)) es) = filter p (Obj.keys es).
Proof.
  unfold Obj.keys. induction es as [| [k v] es IH]; cbn; [reflexivity |].
  destruct (p k); cbn; now rewrite IH.
Qed.

Lemma filter_all {A} (f : A -> bool) l :
  (forall x, In x l -> f x = true) -> filter f l = l.
Proof.
  induction l as [| x l IH]; cbn; intros H; [reflexivity |].
  rewrite (H x) by now left. f_equal. apply IH. intros y Hy. apply H. now right.
Qed.

Lemma filter_none {A} (f : A -> bool) l :
  (forall x, In x l -> f x = false) -> filter f l = [].
Proof.
  induction l as [| x l IH]; cbn; intros H; [reflexivity |].
  rewrite (H x) by now left. apply IH. intros y Hy. apply H. now right.
Qed.

(** Of a list without repetition, what is not in the tail is the head. *)
Lemma keep_front (h t : list string) :
  NoDup (h ++ t) -> filter (fun k => negb (Js.includes t k)) (h ++ t) = h.
Proof.
  intros Hnd.
  rewrite filter_app, filter_all, filter_none, app_nil_r; [reflexivity | |].
  - intros x Hx. apply negb_false_iff. now apply includes_In.
  - intros x Hx. apply negb_true_iff. apply includes_false. intros Hx'.
    induction h as [| y h IH]; [contradiction |].
    cbn in Hnd. inversion Hnd as [| ? ? Hy Hr]; subst.
    destruct Hx as [-> | Hx].
    + apply Hy. apply in_or_app. now right.
    + now apply IH.
Qed.

Lemma keep_head n (l : list string) :
  NoDup l ->
  filter (fun k => negb (Js.includes (skipn n l) k)) l = firstn n l.
Proof.
  intros Hnd. rewrite <- (firstn_skipn n l) in Hnd.
  pose proof (keep_front _ _ Hnd) as H. now rewrite firstn_skipn in H.
Qed.

Lemma backup_names_without l s :
  backup_names (without l s)
  = filter (fun k => negb (Js.includes l k)) (backup_names s).
Proof.
  unfold backup_names, Scenario.archive_names, without. cbn [archive].
  destruct (archive s) as [es |]; cbn [option_map]; [| reflexivity].
  rewrite (keys_filter (fun k => negb (Js.includes l k))).
  rewrite !filter_filter. apply filter_ext. intros k. apply andb_comm.
Qed.

Lemma listed_backup_names n s : listed n s = firstn n (rev (Fs.sort (backup_names s))).
Proof.
  unfold listed, backup_names, Scenario.archive_names.
  destruct (archive s); [reflexivity |]. now rewrite firstn_nil.
Qed.

Lemma tidy_backup_names s : tidy s -> NoDup (backup_names s).
Proof. unfold tidy, backup_names. apply NoDup_filter. Qed.

(** A sweep leaves the five names that sort last, or all of them when
    there are no more than five. *)
Lemma swept_names s :
  tidy s -> List.length (backup_names s) <= 100 ->
  Permutation (backup_names (swept s))
              (firstn 5 (rev (Fs.sort (backup_names s)))).
Proof.
  intros Ht Hl. unfold swept. rewrite listed_backup_names.
  set (bk := backup_names s) in *.
  assert (P : Permutation (rev (Fs.sort bk)) bk).
  { rewrite <- Permutation_rev. apply sort_perm. }
  assert (L : List.length (rev (Fs.sort bk)) = List.length bk)
    by now apply Permutation_length.
  rewrite firstn_all2 by lia.
  destruct (5 <? List.length (rev (Fs.sort bk))) eqn:E.
  - rewrite backup_names_without. fold bk.
    rewrite (filter_perm _ (Permutation_sym P)).
    rewrite keep_head; [reflexivity |].
    apply (Permutation_NoDup (Permutation_sym P)). now apply tidy_backup_names.
  - apply Nat.ltb_ge in E. rewrite firstn_all2 by lia. now symmetry.
Qed.

Lemma swept_count s :
  tidy s -> List.length (backup_names s) <= 100 ->
  List.length (backup_names (swept s)) = Nat.min 5 (List.length (backup_names s)).
Proof.
  intros Ht Hl. rewrite (Permutation_length (swept_names Ht Hl)).
  rewrite length_firstn, length_rev.
  now rewrite (Permutation_length (sort_perm _)).
Qed.


Lemma keys_set_cases {A} (o : list (string * A)) n v :
  Obj.keys (Obj.set o n v)
  = if Js.includes (Obj.keys o) n then Obj.keys o else Obj.keys o ++ [n].
Proof.
  unfold Obj.keys, Js.includes. induction o as [| [k w] o IH]; cbn; [reflexivity |].
  destruct (String.eqb n k) eqn:E; cbn.
  - apply String.eqb_eq in E. now subst.
  - rewrite IH. now destruct (existsb (String.eqb n) (map fst o)).
Qed.

Lemma archive_names_put s n c :
  Scenario.archive_names (Fs.put s (ArchiveFile n) c)
  = if Js.includes (Scenario.archive_names s) n then Scenario.archive_names s
    else Scenario.archive_names s ++ [n].
Proof.
  unfold Scenario.archive_names. cbn. rewrite keys_set_cases.
  now destruct (archive s).
Qed.

Lemma tidy_put s n c : tidy s -> tidy (Fs.put s (ArchiveFile n) c).
Proof.
  unfold tidy. rewrite archive_names_put. intros H.
  destruct (Js.includes (Scenario.archive_names s) n) eqn:E; [exact H |].
  apply includes_false in E.
  apply NoDup_app; [exact H | repeat constructor; intros [] | ].
  intros x Hx [<- | []]. contradiction.
Qed.

Lemma backup_names_put s n c :
  List.length (backup_names s)
  <= List.length (backup_names (Fs.put s (ArchiveFile n) c))
  <= S (List.length (backup_names s)).
Proof.
  unfold backup_names. rewrite archive_names_put.
  destruct (Js.includes (Scenario.archive_names s) n); [lia |].
  rewrite filter_app, List.length_app. cbn. destruct (Fs.is_backup_name n); cbn; lia.
Qed.

Lemma archive_names_ensured s :
  Scenario.archive_names (ensured s) = Scenario.archive_names s.
Proof.
  unfold ensured, Scenario.archive_names.
  destruct (archive s) eqn:E; cbn; now rewrite ?E.
Qed.

Lemma tidy_swept s : tidy s -> tidy (swept s).
Proof.
  unfold swept, tidy. destruct (5 <? _); [| auto].
  unfold without, Scenario.archive_names. cbn [archive].
  destruct (archive s) as [es |]; cbn [option_map]; [| constructor].
  intros H. rewrite (keys_filter (fun k => negb (Js.includes _ k))).
  now apply NoDup_filter.
Qed.

Section NoFaults.

Variable env : Env.
Hypothesis calm : forall op, faults env op = false.

Lemma ensure_run s :
  Fs.ensureArchiveDir env s = mkRun (Ok tt) (ensured s) [EMkdirArchive].
Proof.
  unfold Fs.ensureArchiveDir, ensured, bind, Fs.emit. cbn [result final events].
  rewrite calm. now destruct (archive s).
Qed.

Lemma snapshot_final src n s :
  result (Backup.snapshot src n env s) = Ok tt
  /\ exists content,
       final (Backup.snapshot src n env s) = Fs.put s (ArchiveFile n) content.
Proof.
  unfold Backup.snapshot, try_catch, Fs.copyFile, Fs.writeJsonFile, bind, Fs.emit.
  cbn [result final events].
  destruct (Fs.read s src) as [c |]; cbn [result final events]; rewrite !calm;
    cbn [result final events]; (split; [reflexivity | eexists; reflexivity]).
Qed.

Lemma listBackups_run n s : Fs.listBackups n env s = mkRun (Ok (listed n s)) s [].
Proof.
  unfold Fs.listBackups, listed. destruct (archive s); [| reflexivity].
  now rewrite calm.
Qed.

Lemma unlink_all_result l : forall s, result (Backup.unlink_all l env s) = Ok tt.
Proof.
  induction l as [| b l IH]; intros st; cbn [Backup.unlink_all]; [reflexivity |].
  unfold bind. rewrite unlink_ignored. cbn [result]. apply IH.
Qed.

Lemma bind_ok {A B} (m : M A) (k : A -> M B) s a :
  result (m env s) = Ok a ->
  result (bind m k env s) = result (k a env (final (m env s)))
  /\ final (bind m k env s) = final (k a env (final (m env s))).
Proof. intros H. unfold bind. rewrite H. now split. Qed.

Ltac step m st H :=
  match goal with
  | |- context [bind m ?k env st] =>
      let Hr := fresh in
      let Hf := fresh in
      destruct (bind_ok m k st H) as [Hr Hf]; rewrite Hr, Hf; clear Hr Hf
  end.

(** Without failures a backup makes the directory, stores the two
    snapshots and sweeps. *)
Lemma backup_final o c s :
  exists c1 c2,
    final (Backup.backupConfigsInternal o c env s)
    = swept (Fs.put (Fs.put (ensured s) (ArchiveFile (omo_name env o)) c1)
                    (ArchiveFile (oc_name env c)) c2).
Proof.
  unfold Backup.backupConfigsInternal.
  destruct (snapshot_final o (omo_name env o) (ensured s)) as [R1 [c1 F1]].
  set (s2 := Fs.put (ensured s) (ArchiveFile (omo_name env o)) c1) in *.
  destruct (snapshot_final c (oc_name env c) s2) as [R2 [c2 F2]].
  set (s3 := Fs.put s2 (ArchiveFile (oc_name env c)) c2) in *.
  exists c1, c2.
  match goal with
  | |- context [bind (Fs.emit ?e) ?k env s] =>
      rewrite (proj2 (bind_ok (Fs.emit e) k s eq_refl))
  end.
  cbn [Fs.emit final].
  match goal with
  | |- final (try_catch ?body _ env s) = _ =>
      assert (H : result (body env s)
                  = Ok (BackupOk (omo_name env o) (oc_name env c))
                  /\ final (body env s) = swept s3)
  end.
  { assert (E : result (Fs.ensureArchiveDir env s) = Ok tt) by now rewrite ensure_run.
    step Fs.ensureArchiveDir s E.
    rewrite ensure_run. cbn [final].
    step Backup.ask (ensured s) (eq_refl (Ok env)).
    cbn [Backup.ask final]. fold (omo_name env o). fold (oc_name env c).
    step (Backup.snapshot o (omo_name env o)) (ensured s) R1.
    rewrite F1.
    step (Backup.snapshot c (oc_name env c)) s2 R2.
    rewrite F2.
    assert (L : result (Fs.listBackups 100 env s3) = Ok (listed 100 s3))
      by now rewrite listBackups_run.
    step (Fs.listBackups 100) s3 L.
    rewrite listBackups_run. cbn [final]. unfold swept.
    destruct (5 <? List.length (listed 100 s3)).
    - step (Backup.unlink_all (skipn 5 (listed 100 s3))) s3
           (unlink_all_result (skipn 5 (listed 100 s3)) s3).
      cbn [ret result final]. split; [reflexivity |].
      now apply unlink_all_final.
    - step (@ret unit tt) s3 (eq_refl (Ok tt)). split; reflexivity. }
  destruct H as [Hr Hf]. unfold try_catch. rewrite Hr. exact Hf.
Qed.

(** Without failures, in an archive of fewer than 99 backup files, a backup
    leaves at most five backup files, and five once there were five. *)
Lemma backup_keeps_five o c s :
  tidy s -> List.length (backup_names s) + 2 <= 100 ->
  let s' := final (Backup.backupConfigsInternal o c env s) in
  tidy s'
  /\ Nat.min 5 (List.length (backup_names s)) <= List.length (backup_names s') <= 5.
Proof.
  intros Ht Hl s'. subst s'.
  destruct (backup_final o c s) as [c1 [c2 ->]].
  set (s1 := ensured s).
  set (s2 := Fs.put s1 (ArchiveFile (omo_name env o)) c1).
  set (s3 := Fs.put s2 (ArchiveFile (oc_name env c)) c2).
  assert (T1 : tidy s1) by (unfold tidy, s1; now rewrite archive_names_ensured).
  assert (T3 : tidy s3) by (apply tidy_put, tidy_put, T1).
  assert (B1 : backup_names s1 = backup_names s)
    by (unfold backup_names, s1; now rewrite archive_names_ensured).
  pose proof (backup_names_put s1 (omo_name env o) c1) as B2. fold s2 in B2.
  pose proof (backup_names_put s2 (oc_name env c) c2) as B3. fold s3 in B3.
  rewrite B1 in B2.
  split; [now apply tidy_swept |].
  rewrite swept_count by (assumption || lia). lia.
Qed.

End NoFaults.

End SweepFacts.

(* ================================================================== *)
(** * Facts about the order of time stamps *)

Module StampFacts.

Import ClockFacts.











End StampFacts.

Import StampFacts.

(* ================================================================== *)
(** * The claims of the specification *)

Import MonadFacts LoadFacts BackupFacts GuardFacts CommitFacts NumFacts JsFacts
       ExecFacts ObjFacts HandlerFacts TraceFacts RunFacts ClockFacts PathFacts
       ResultFacts.

Module Claims.

(** The call of the backup comes first.  Whatever the action, the request
    and the explicit options, every write of a configuration file that
    [executeAction] attempts comes after a call of
    [backupConfigsInternal] on the two resolved paths in the same run.
    What the call goes on to attempt is another matter. *)
Theorem backup_before_every_config_write
  (action : ActionType) (request : string) (options : option ActionOptions)
  (env : Env) (s : Store) :
  backup_precedes_writes (resolved OmoFile s) (resolved OcFile s)
    (events (Exec.executeAction action request options env s)).
Proof.
  apply begins_precedes. rewrite executeAction_run.
  destruct (result (Exec.load env s)) as [l |] eqn:E; [| now left].
  destruct (load_inv _ _ E) as [<- [<- _]]. apply guarded_dispatch.
Qed.

Lemma backup_before_every_config_write_witness :
  let pre :=
    [ EBackupStart (OmoFile DotJson) (OcFile DotJson);
      EMkdirArchive;
      ECopyFile (OmoFile DotJson) (ArchiveFile "omo-backup-20260101-000000.json");
      EWriteJson (ArchiveFile "omo-backup-20260101-000000.json");
      ECopyFile (OcFile DotJson) (ArchiveFile "opencode-backup-20260101-000000.json");
      EWriteJson (ArchiveFile "opencode-backup-20260101-000000.json") ] in
  events (Exec.executeAction DisableHook "disable hook think-mode" None here
                             Scenario.empty_store)
  = pre ++ EWriteJson (OmoFile DotJson) :: []
  /\ In (EBackupStart (OmoFile DotJson) (OcFile DotJson)) pre.
Proof.
  intros pre. split.
  - vm_compute. reflexivity.
  - apply (@backup_before_every_config_write DisableHook "disable hook think-mode"
             None here Scenario.empty_store pre (OmoFile DotJson) []);
      vm_compute; reflexivity.
Defined.


(** C3 (the code departs from the claim).  The request [update my agent] is
    classified as check-updates: the rule for the single word [update]
    stands before the rule for [update] with [agent]. *)
Theorem update_my_agent_is_check_updates :
  Classifier.parseAction "update my agent" = CheckUpdates.
Proof. reflexivity. Qed.

(** C5 (the code departs from the claim).  After six backups one minute
    apart in an empty archive, five entries are left and all five are
    provider-side backups: the agent-side backup the last run made is gone
    while the provider-side backup of the second run is kept. *)
Theorem retention_sorts_by_kind_first :
  let s := Scenario.after_requests "backup my configs" six_minutes
                                   Scenario.empty_store in
  Scenario.archive_names s
  = [ "opencode-backup-20260101-000100.json";
      "opencode-backup-20260101-000200.json";
      "opencode-backup-20260101-000300.json";
      "opencode-backup-20260101-000400.json";
      "opencode-backup-20260101-000500.json" ]
  /\ Fs.read s (ArchiveFile "omo-backup-20260101-000500.json") = None.
Proof. vm_compute. split; reflexivity. Qed.

(** C2 (the code departs from the claim).  A modify-agent request that names
    [toString], which no agent of the configuration bears, is not rejected:
    the lookup finds the member of [Object.prototype], so the run backs up,
    writes the configuration file and reports success. *)
Theorem modify_of_absent_agent_is_committed :
  let entries := [("oracle", empty_agent)] in
  let s := store_with (mkConfig (Some entries) None None []) in
  let run := Exec.handle "modify agent toString set temperature to 0.3" here s in
  Obj.own entries "toString" = None
  /\ result run
     = Ok (mkReport ModifyAgent
             (SavedAgent "toString"
                (mkAgent None (Some (Fin (3 # 10))) None None None None None None None)))
  /\ succeeded run
  /\ hd_error (events run) = Some (EBackupStart (OmoFile DotJson) (OcFile DotJson))
  /\ config_writes (events run) = [OmoFile DotJson].
Proof.
  vm_compute. repeat split; try reflexivity.
  eexists. split; reflexivity.
Qed.

(** C6 (the code departs from the claim).  An add-agent whose temperature is
    NaN passes the range check, since both comparisons are false, and the
    agent is stored although NaN is not between 0 and 1. *)
Theorem nan_temperature_is_accepted :
  let data := mkAgent (Some "opencode/gpt-5.2") (Some NaN)
                      None None None None None None None in
  let options := Some (mkOptions None (Some "oracle") None None (Some data) None) in
  let run := Exec.executeAction AddAgent "" options here Scenario.empty_store in
  ~ Num.in_range 0 1 NaN
  /\ result run = Ok (mkReport AddAgent (SavedAgent "oracle" data))
  /\ omo_config (final run) = Some (mkConfig (Some [("oracle", data)]) None None []).
Proof. vm_compute. repeat split; try reflexivity. now intros []. Qed.


(** C7, as the specification words it, fails: a key that begins with an
    underscore is made of allowed characters, is short and is not reserved,
    yet the check refuses it. *)
Lemma underscore_first_is_refused :
  claimed_safe_key "_a" /\ isSafeConfigKey "_a" = false.
Proof.
  split; [| reflexivity].
  split; [| split].
  - constructor; [right; right; right; reflexivity |].
    constructor; [left; reflexivity | constructor].
  - cbn. lia.
  - unfold reserved. cbn. intuition discriminate.
Qed.

(** C7, amended.  The check accepts a key exactly when the key begins with
    a letter or a digit, consists of letters, digits, hyphens and
    underscores, has at most 64 characters and is not, in lower case, one
    of [__proto__], [prototype], [constructor].  [__proto__] is refused, a
    conforming name of 64 characters is accepted and one of 65 is refused.
    A request whose agent, category or hook name fails the check changes
    nothing and is answered by an error. *)
Theorem safe_key_check :
  (forall k, isSafeConfigKey k = true <-> safe_key k)
  /\ isSafeConfigKey "__proto__" = false
  /\ isSafeConfigKey name64 = true
  /\ isSafeConfigKey name65 = false
  /\ (forall a request options env s n,
         name_of a (Exec.effective a request options) = Some n ->
         n <> EmptyString ->
         isSafeConfigKey n = false ->
         rejected (Exec.executeAction a request options env s) s).
Proof.
  split; [exact isSafeConfigKey_spec |].
  split; [reflexivity |]. split; [reflexivity |]. split; [reflexivity |].
  intros a request options env s n Hn Hne Hu.
  apply invalid_requests_change_nothing.
  destruct a; cbn in Hn; try discriminate; unfold invalid;
    exists n; repeat split; auto.
  (* disable-hook: every known hook passes the check *)
  intros Hin.
  assert (K : forallb isSafeConfigKey KNOWN_HOOKS = true) by reflexivity.
  rewrite forallb_forall in K. specialize (K n Hin). congruence.
Qed.

Lemma safe_key_check_witness :
  let options := Some (mkOptions None (Some "__proto__") None None None None) in
  name_of AddAgent (Exec.effective AddAgent "add agent x" options) = Some "__proto__"
  /\ "__proto__" <> EmptyString
  /\ isSafeConfigKey "__proto__" = false
  /\ rejected (Exec.executeAction AddAgent "add agent x" options here
                                  Scenario.empty_store)
              Scenario.empty_store.
Proof.
  intros options.
  split; [reflexivity |]. split; [discriminate |]. split; [reflexivity |].
  apply (proj2 (proj2 (proj2 (proj2 safe_key_check)))) with (n := "__proto__");
    [reflexivity | discriminate | reflexivity].
Defined.


(** C8, as the specification words it, fails for enable-hook: a name that
    is not in the registry but stands in [disabled_hooks] is not rejected;
    the run backs up, removes the name and writes the configuration. *)
Lemma enable_of_unknown_hook_is_committed :
  let s := store_with (mkConfig None None (Some ["my-hook"]) []) in
  let run := Exec.handle "enable hook my-hook" here s in
  ~ In "my-hook" KNOWN_HOOKS
  /\ result run = Ok (mkReport EnableHook (HookEnabled "my-hook"))
  /\ config_writes (events run) = [OmoFile DotJson]
  /\ omo_config (final run) = Some (mkConfig None None (Some []) []).
Proof.
  split; [| vm_compute; repeat split; reflexivity].
  intros H. apply includes_In in H. discriminate.
Qed.

(** C8, amended.  For every hook name that is not in the registry,
    disable-hook answers with the unknown-hook error, which lists the
    registry, and changes nothing.  Enable-hook does not consult the
    registry: for every name that is not in [disabled_hooks] it answers
    that the hook is not currently disabled, and changes nothing. *)
Theorem unknown_hook_is_refused :
  (forall env s request options cfg occ n,
      omo_config s = Some cfg -> oc_config s = Some occ -> archive_readable env s ->
      Exec.field hookName (Exec.effective DisableHook request options) = Some n ->
      n <> EmptyString ->
      ~ In n KNOWN_HOOKS ->
      Exec.executeAction DisableHook request options env s
      = mkRun (Ok (mkReport DisableHook (UnknownHook n (Js.join ", " KNOWN_HOOKS))))
              s []
      /\ mark (UnknownHook n (Js.join ", " KNOWN_HOOKS)) = Error)
  /\
  (forall env s request options cfg occ n,
      omo_config s = Some cfg -> oc_config s = Some occ -> archive_readable env s ->
      Exec.field hookName (Exec.effective EnableHook request options) = Some n ->
      n <> EmptyString ->
      ~ In n (or_default [] (disabled_hooks cfg)) ->
      Exec.executeAction EnableHook request options env s
      = mkRun (Ok (mkReport EnableHook (NotDisabled n))) s []
      /\ mark (NotDisabled n) = Info).
Proof.
  split; intros env s request options cfg occ n Ho Hc Ha Hn Hne Hk;
    (split; [| reflexivity]);
    rewrite executeAction_run, (load_ok Ho Hc Ha); cbn [Exec.dispatch].
  - unfold Exec.disable_hook. rewrite Hn, (truthy_some Hne). cbn [negb or_default].
    apply includes_false in Hk. now rewrite Hk.
  - unfold Exec.enable_hook. rewrite Hn, (truthy_some Hne). cbn [negb or_default].
    cbn [Exec.l_omoConfig].
    destruct (disabled_hooks cfg) as [disabled |]; [| reflexivity].
    apply includes_false in Hk. cbn [or_default] in Hk. now rewrite Hk.
Qed.

Lemma unknown_hook_is_refused_witness :
  omo_config Scenario.empty_store = Some empty_config
  /\ oc_config Scenario.empty_store = Some empty_config
  /\ archive_readable here Scenario.empty_store
  /\ Exec.field hookName (Exec.effective DisableHook "disable hook my-hook" None)
     = Some "my-hook"
  /\ "my-hook" <> EmptyString
  /\ ~ In "my-hook" KNOWN_HOOKS
  /\ Exec.executeAction DisableHook "disable hook my-hook" None here Scenario.empty_store
     = mkRun (Ok (mkReport DisableHook
                    (UnknownHook "my-hook" (Js.join ", " KNOWN_HOOKS))))
             Scenario.empty_store [].
Proof.
  assert (K : ~ In "my-hook" KNOWN_HOOKS)
    by (intros H; apply includes_In in H; discriminate).
  split; [reflexivity |]. split; [reflexivity |]. split; [now left |].
  split; [reflexivity |]. split; [discriminate |]. split; [exact K |].
  apply (proj1 unknown_hook_is_refused here Scenario.empty_store
               "disable hook my-hook" None empty_config empty_config "my-hook");
    try reflexivity; try discriminate; try exact K. now left.
Defined.

(** C1, at a failing input.  The archive directory exists and cannot be
    written, and the request is [disable hook think-mode].  The copy of
    the agent-side file fails, the placeholder written in its place fails
    too, and the backup leaves its [try] before it attempts the
    provider-side file.  The handler does not look at what the backup
    returned: it writes the configuration file and reports success.  No
    copy of the provider-side file was attempted and no backup of either
    file exists.  When the directory cannot be made, no copy is attempted
    at all and the file is written all the same. *)
Theorem config_written_without_backup :
  let o := OmoFile DotJson in
  let c := OcFile DotJson in
  let name := "omo-backup-20260101-000000.json" in
  let request := "disable hook think-mode" in
  let run := Exec.executeAction DisableHook request None sealed_archive both_files in
  let run' := Exec.executeAction DisableHook request None MoreProps.archive_refused
                                 both_files in
  events run = [ EBackupStart o c; EMkdirArchive;
                 ECopyFile o (ArchiveFile name); EWriteJson (ArchiveFile name);
                 EWriteJson o ]
  /\ (forall dst, ~ In (ECopyFile c dst) (events run))
  /\ result run = Ok (mkReport DisableHook (HookDisabled "think-mode"))
  /\ archive (final run) = Some []
  /\ omo_config (final run) <> omo_config both_files
  /\ events run' = [EBackupStart o c; EMkdirArchive; EWriteJson o]
  /\ result run' = Ok (mkReport DisableHook (HookDisabled "think-mode")).
Proof.
  intros o c name request run run'.
  assert (E : events run = [ EBackupStart o c; EMkdirArchive;
                             ECopyFile o (ArchiveFile name);
                             EWriteJson (ArchiveFile name); EWriteJson o ])
    by (vm_compute; reflexivity).
  split; [exact E |]. split.
  { intros dst H. rewrite E in H. cbn in H.
    repeat (destruct H as [H | H]; [discriminate |]). exact H. }
  split; [vm_compute; reflexivity |].
  split; [vm_compute; reflexivity |].
  split; [vm_compute; discriminate |].
  split; vm_compute; reflexivity.
Qed.




(** C9.  Disabling a known hook that [disabled_hooks] already holds changes
    nothing, attempts no backup and no write, and is answered by the
    informational already-disabled report.  From a state where the hook is
    not disabled, and when the write goes through, the first call stores
    the configuration with the hook appended, by a single write of the
    configuration file, and a second call finds the hook disabled and
    changes nothing. *)
Theorem disable_hook_idempotent :
  (forall env s request options cfg occ h,
      omo_config s = Some cfg -> oc_config s = Some occ -> archive_readable env s ->
      Exec.field hookName (Exec.effective DisableHook request options) = Some h ->
      In h KNOWN_HOOKS ->
      In h (or_default [] (disabled_hooks cfg)) ->
      let run := Exec.executeAction DisableHook request options env s in
      run = mkRun (Ok (mkReport DisableHook (AlreadyDisabled h))) s []
      /\ mark (AlreadyDisabled h) = Info)
  /\
  (forall env env' s request options cfg occ h,
      omo_config s = Some cfg -> oc_config s = Some occ -> archive_readable env s ->
      Exec.field hookName (Exec.effective DisableHook request options) = Some h ->
      In h KNOWN_HOOKS ->
      ~ In h (or_default [] (disabled_hooks cfg)) ->
      faults env (OpWrite (resolved OmoFile s)) = false ->
      faults env' OpReaddir = false ->
      let first := Exec.executeAction DisableHook request options env s in
      let second := Exec.executeAction DisableHook request options env' (final first) in
      result first = Ok (mkReport DisableHook (HookDisabled h))
      /\ omo_config (final first)
         = Some (Exec.with_disabled_hooks cfg (or_default [] (disabled_hooks cfg) ++ [h]))
      /\ config_writes (events first) = [resolved OmoFile s]
      /\ second = mkRun (Ok (mkReport DisableHook (AlreadyDisabled h))) (final first) []).
Proof.
  assert (A : forall env s request options cfg occ h,
      omo_config s = Some cfg -> oc_config s = Some occ -> archive_readable env s ->
      Exec.field hookName (Exec.effective DisableHook request options) = Some h ->
      In h KNOWN_HOOKS ->
      In h (or_default [] (disabled_hooks cfg)) ->
      Exec.executeAction DisableHook request options env s
      = mkRun (Ok (mkReport DisableHook (AlreadyDisabled h))) s []).
  { intros env s request options cfg occ h Ho Hc Ha Hn Hk Hd.
    rewrite executeAction_run, (load_ok Ho Hc Ha). cbn [Exec.dispatch].
    now apply disable_hook_already. }
  split.
  - intros env s request options cfg occ h Ho Hc Ha Hn Hk Hd run. subst run.
    split; [now apply (A env s request options cfg occ h) | reflexivity].
  - intros env env' s request options cfg occ h Ho Hc Ha Hn Hk Hd Hw Hr first second.
    destruct (@execute_commit DisableHook request options env s cfg occ
                (Exec.with_disabled_hooks cfg (or_default [] (disabled_hooks cfg) ++ [h]))
                (HookDisabled h) Ho Hc Ha Hw) as [H1 [H2 [H3 [H4 _]]]].
    { intros o c bks. cbn [Exec.dispatch]. now apply disable_hook_commits. }
    fold first in H1, H2, H3, H4. repeat split; try assumption.
    subst second. eapply A; try eassumption.
    + now apply archive_readable_later.
    + cbn. apply in_or_app. right. now left.
Qed.

Lemma disable_hook_idempotent_witness :
  let request := "disable hook comment-checker" in
  let first := Exec.executeAction DisableHook request None here Scenario.empty_store in
  let second := Exec.executeAction DisableHook request None here (final first) in
  omo_config Scenario.empty_store = Some empty_config
  /\ ~ In "comment-checker" (or_default [] (disabled_hooks empty_config))
  /\ result first = Ok (mkReport DisableHook (HookDisabled "comment-checker"))
  /\ second = mkRun (Ok (mkReport DisableHook (AlreadyDisabled "comment-checker")))
                    (final first) [].
Proof.
  intros request first second.
  assert (N : ~ In "comment-checker" (or_default [] (disabled_hooks empty_config)))
    by (intros []).
  assert (K : In "comment-checker" KNOWN_HOOKS) by (apply includes_In; reflexivity).
  destruct (proj2 disable_hook_idempotent here here Scenario.empty_store request None
                  empty_config empty_config "comment-checker")
    as [H1 [_ [_ H4]]];
    try reflexivity; try assumption; [now left |].
  split; [reflexivity |]. split; [exact N |]. split; [exact H1 | exact H4].
Defined.

(** C10.  Add-agent and add-category make no check for an existing name.
    When a valid name already has an entry, the model is given, the
    temperature passes the check and the write goes through, the add
    succeeds, the entry keeps its place among the keys and every other
    entry is untouched, and the stored entry is built from the fields of
    the request alone: for an agent the fields [tools], [top_p] and
    [maxTokens] are absent and the other six are the request's, so a field
    of the old entry that the request does not give is gone; for a
    category the five fields are the request's. *)
Theorem add_replaces_existing_entry :
  (forall env s request options cfg occ entries n old,
      omo_config s = Some cfg -> oc_config s = Some occ -> archive_readable env s ->
      faults env (OpWrite (resolved OmoFile s)) = false ->
      agents cfg = Some entries -> Obj.own entries n = Some old ->
      let d := agent_data (Exec.effective AddAgent request options) in
      Exec.field agentName (Exec.effective AddAgent request options) = Some n ->
      isSafeConfigKey n = true ->
      truthy (a_model d) = true ->
      Exec.temperature_out_of_range (a_temperature d) = false ->
      let run := Exec.executeAction AddAgent request options env s in
      let entry := mkAgent (a_model d) (a_temperature d) (a_disable d)
                           (a_prompt_append d) (a_permission d) (a_description d)
                           None None None in
      succeeded run
      /\ exists cfg' entries',
           omo_config (final run) = Some cfg'
           /\ agents cfg' = Some entries'
           /\ Obj.own entries' n = Some entry
           /\ Obj.keys entries' = Obj.keys entries
           /\ (forall k, k <> n -> Obj.own entries' k = Obj.own entries k)
           /\ categories cfg' = categories cfg
           /\ disabled_hooks cfg' = disabled_hooks cfg)
  /\
  (forall env s request options cfg occ entries n old,
      omo_config s = Some cfg -> oc_config s = Some occ -> archive_readable env s ->
      faults env (OpWrite (resolved OmoFile s)) = false ->
      categories cfg = Some entries -> Obj.own entries n = Some old ->
      let d := category_data (Exec.effective AddCategory request options) in
      Exec.field categoryName (Exec.effective AddCategory request options) = Some n ->
      isSafeConfigKey n = true ->
      truthy (c_model d) = true ->
      Exec.temperature_out_of_range (c_temperature d) = false ->
      let run := Exec.executeAction AddCategory request options env s in
      let entry := mkCategory (c_model d) (c_temperature d) (c_top_p d)
                              (c_maxTokens d) (c_prompt_append d) in
      succeeded run
      /\ exists cfg' entries',
           omo_config (final run) = Some cfg'
           /\ categories cfg' = Some entries'
           /\ Obj.own entries' n = Some entry
           /\ Obj.keys entries' = Obj.keys entries
           /\ (forall k, k <> n -> Obj.own entries' k = Obj.own entries k)
           /\ agents cfg' = agents cfg
           /\ disabled_hooks cfg' = disabled_hooks cfg).
Proof.
  split; intros env s request options cfg occ entries n old Ho Hc Ha Hw He Hold
                d Hn Hs Hm Ht run entry.
  - destruct (@execute_commit AddAgent request options env s cfg occ
                (Exec.with_agents cfg
                   (Obj.set (or_default [] (agents cfg)) n (Exec.new_agent d)))
                (SavedAgent n (Exec.redact_agent (Exec.new_agent d)))
                Ho Hc Ha Hw) as [H1 [H2 _]].
    { intros o c bks. cbn [Exec.dispatch]. now apply add_agent_commits. }
    fold run in H1, H2. split.
    + eexists. split; [exact H1 | reflexivity].
    + eexists _, _. split; [exact H2 |]. rewrite He. cbn [or_default].
      split; [reflexivity |]. split; [apply own_set_same |].
      split; [now apply keys_set_existing with (old := old) |].
      split; [intros k Hk; now apply own_set_other |]. now split.
  - destruct (@execute_commit AddCategory request options env s cfg occ
                (Exec.with_categories cfg
                   (Obj.set (or_default [] (categories cfg)) n (Exec.new_category d)))
                (SavedCategory n (Exec.redact_category (Exec.new_category d)))
                Ho Hc Ha Hw) as [H1 [H2 _]].
    { intros o c bks. cbn [Exec.dispatch]. now apply add_category_commits. }
    fold run in H1, H2. split.
    + eexists. split; [exact H1 | reflexivity].
    + eexists _, _. split; [exact H2 |]. rewrite He. cbn [or_default].
      split; [reflexivity |]. split; [apply own_set_same |].
      split; [now apply keys_set_existing with (old := old) |].
      split; [intros k Hk; now apply own_set_other |]. now split.
Qed.


Lemma add_replaces_existing_entry_witness :
  let request := "add agent oracle with model opencode/gpt-5.2" in
  let run := Exec.executeAction AddAgent request None here with_oracle in
  Obj.own [("oracle", old_oracle); ("scout", empty_agent)] "oracle" = Some old_oracle
  /\ isSafeConfigKey "oracle" = true
  /\ succeeded run
  /\ exists cfg' entries',
       omo_config (final run) = Some cfg'
       /\ agents cfg' = Some entries'
       /\ Obj.own entries' "oracle"
          = Some (mkAgent (Some "opencode/gpt-5.2") None None None None None
                          None None None)
       /\ Obj.keys entries' = ["oracle"; "scout"].
Proof.
  intros request run.
  destruct (proj1 add_replaces_existing_entry here with_oracle request None
                  (mkConfig (Some [("oracle", old_oracle); ("scout", empty_agent)])
                            None None [])
                  empty_config [("oracle", old_oracle); ("scout", empty_agent)]
                  "oracle" old_oracle)
    as [H1 [cfg' [entries' [H2 [H3 [H4 [H5 _]]]]]]];
    try reflexivity; [now left |].
  split; [reflexivity |]. split; [reflexivity |]. split; [exact H1 |].
  exists cfg', entries'. repeat split; assumption.
Defined.

End Claims.

(* ================================================================== *)
(** * Further facts the claims rest on *)

Module Supplement.

Lemma events_bind_ok {A B} (m : M A) (k : A -> M B) env s a :
  result (m env s) = Ok a ->
  events (bind m k env s) = events (m env s) ++ events (k a env (final (m env s))).
Proof. intros H. unfold bind. now rewrite H. Qed.

(** A snapshot first attempts the copy. *)
Lemma snapshot_events src name env s :
  exists rest, events (Backup.snapshot src name env s)
               = ECopyFile src (ArchiveFile name) :: rest.
Proof.
  unfold Backup.snapshot, try_catch, Fs.copyFile, bind, Fs.emit.
  cbn [result final events].
  destruct (Fs.read s src); cbn [result final events];
    [destruct (faults env (OpCopy (ArchiveFile name))); cbn [result final events] |];
    eexists; reflexivity.
Qed.

(** A snapshot returns when the placeholder can be written. *)
Lemma snapshot_returns src name env s :
  faults env (OpWrite (ArchiveFile name)) = false ->
  result (Backup.snapshot src name env s) = Ok tt.
Proof.
  intros Hw.
  unfold Backup.snapshot, try_catch, Fs.copyFile, Fs.writeJsonFile, bind, Fs.emit.
  cbn [result final events].
  destruct (Fs.read s src); cbn [result final events];
    [destruct (faults env (OpCopy (ArchiveFile name))); cbn [result final events] |];
    rewrite ?Hw; reflexivity.
Qed.

(** When the archive directory can be made and the first snapshot can be
    written, the backup attempts the copy of both files. *)
Lemma backup_copies_both o c env s :
  faults env OpMkdirArchive = false ->
  faults env (OpWrite (ArchiveFile (omo_name env o))) = false ->
  exists rest1 rest2,
    events (Backup.backupConfigsInternal o c env s)
    = EBackupStart o c :: EMkdirArchive
        :: ECopyFile o (ArchiveFile (omo_name env o)) :: rest1
        ++ ECopyFile c (ArchiveFile (oc_name env c)) :: rest2.
Proof.
  intros Hm Hw.
  unfold Backup.backupConfigsInternal. unfold bind at 1.
  cbn [Fs.emit result final events].
  unfold try_catch.
  match goal with
  | |- context [events (?body env s)] => set (b := body)
  end.
  assert (H : exists rest1 rest2,
             events (b env s)
             = EMkdirArchive :: ECopyFile o (ArchiveFile (omo_name env o)) :: rest1
               ++ ECopyFile c (ArchiveFile (oc_name env c)) :: rest2).
  { subst b. unfold bind at 1.
    assert (Hd : exists s1, Fs.ensureArchiveDir env s = mkRun (Ok tt) s1 [EMkdirArchive]).
    { unfold Fs.ensureArchiveDir, bind, Fs.emit. cbn [result final events].
      rewrite Hm. destruct (archive s); cbn; eexists; reflexivity. }
    destruct Hd as [s1 ->]. cbn [result final events].
    unfold bind at 1. cbn [Backup.ask result final events].
    fold (omo_name env o). fold (oc_name env c).
    unfold bind at 1. rewrite (@snapshot_returns o _ env s1 Hw).
    cbn [result final events].
    destruct (snapshot_events o (omo_name env o) env s1) as [r1 ->].
    set (s2 := final (Backup.snapshot o (omo_name env o) env s1)).
    match goal with
    | |- context [events (bind (Backup.snapshot c ?n) ?k env s2)] =>
        assert (Hc : exists rest, events (bind (Backup.snapshot c n) k env s2)
                                  = ECopyFile c (ArchiveFile n) :: rest)
    end.
    { unfold bind at 1. destruct (snapshot_events c (oc_name env c) env s2) as [r2 E2].
      destruct (result (Backup.snapshot c (oc_name env c) env s2));
        cbn [result final events]; rewrite E2; eexists; reflexivity. }
    destruct Hc as [r2 ->]. exists r1, r2. reflexivity. }
  destruct H as [rest1 [rest2 H]].
  destruct (result (b env s)); cbn [events ret]; rewrite H, ?app_nil_r;
    exists rest1, rest2; reflexivity.
Qed.

(** In the text of a request a temperature is a run of digits with an
    optional fraction, so a negative one is not extracted, and the agent is
    added without a temperature. *)
Lemma negative_temperature_in_text_is_dropped :
  let request := "add agent scout with model opencode/gpt-5.2 temperature -0.01" in
  let run := Exec.handle request here Scenario.empty_store in
  extractTemperature request = None
  /\ result run
     = Ok (mkReport AddAgent
             (SavedAgent "scout"
                (mkAgent (Some "opencode/gpt-5.2") None None None None None
                         None None None))).
Proof. vm_compute. split; reflexivity. Qed.


(** A request with an update token and none of list, show, what never
    reaches the modify-agent rule, whatever else it holds. *)
Lemma update_shadows_modify (request : string) :
  let hasWord := Classifier.hasWordIn (Classifier.words_of request) in
  hasWord "update" = true ->
  hasWord "list" = false -> hasWord "show" = false -> hasWord "what" = false ->
  Classifier.parseAction request = CheckUpdates.
Proof.
  intros hasWord Hu Hl Hs Hw. unfold Classifier.parseAction.
  fold hasWord. rewrite Hu, Hl, Hs, Hw. reflexivity.
Qed.

(** For a temperature that has a value, and a request in order otherwise,
    an add or a modify whose write goes through succeeds exactly when the
    temperature is between 0 and 1; outside it is rejected. *)
Lemma temperature_decides a request options env s cfg occ q :
  omo_config s = Some cfg -> oc_config s = Some occ -> archive_readable env s ->
  faults env (OpWrite (resolved OmoFile s)) = false ->
  otherwise_valid a (Exec.effective a request options) cfg ->
  temperature_of a (Exec.effective a request options) = Some (Fin q) ->
  let run := Exec.executeAction a request options env s in
  (succeeded run <-> Num.in_range 0 1 (Fin q))
  /\ (~ Num.in_range 0 1 (Fin q) -> rejected run s).
Proof.
  intros Ho Hc Ha Hw Hv Ht run.
  assert (R : ~ Num.in_range 0 1 (Fin q) -> rejected run s).
  { intros Hout. apply invalid_requests_change_nothing.
    assert (O : out_of_range (Some (Fin q))).
    { cbn. cbn in Hout. destruct (Qlt_le_dec q 0) as [L | L]; [now left |].
      destruct (Qlt_le_dec 1 q) as [L' | L']; [now right | tauto]. }
    destruct a; unfold otherwise_valid in Hv; try contradiction;
      unfold temperature_of in Ht; unfold invalid.
    - destruct Hv as [n [Hn [Hs Hm]]]. exists n. rewrite Ht.
      repeat split; auto. intros ->. discriminate.
    - destruct Hv as [n [es [ag [Hn [Hs _]]]]]. exists n. rewrite Ht.
      repeat split; auto. intros ->. discriminate.
    - destruct Hv as [n [Hn [Hs Hm]]]. exists n. rewrite Ht.
      repeat split; auto. intros ->. discriminate.
    - destruct Hv as [n [es [ag [Hn [Hs _]]]]]. exists n. rewrite Ht.
      repeat split; auto. intros ->. discriminate. }
  split; [| exact R]. split.
  - intros [r [Hr Hm]].
    destruct (Exec.temperature_out_of_range (Some (Fin q))) eqn:T;
      [| now apply in_range_check].
    exfalso. assert (Hout : ~ Num.in_range 0 1 (Fin q)).
    { intros H. apply in_range_check in H. congruence. }
    destruct (R Hout) as [_ [_ He]]. specialize (He r Hr). congruence.
  - intros Hin. apply in_range_check in Hin.
    destruct a; unfold otherwise_valid in Hv; try contradiction;
      unfold temperature_of in Ht.
    + destruct Hv as [n [Hn [Hs Hm]]].
      edestruct (@execute_commit AddAgent request options env s cfg occ)
        as [H1 _]; try eassumption.
      { intros o c bks. cbn [Exec.dispatch]. apply add_agent_commits; eauto.
        now rewrite Ht. }
      eexists. split; [exact H1 | reflexivity].
    + destruct Hv as [n [es [ag [Hn [Hs [He Hown]]]]]].
      edestruct (@execute_commit ModifyAgent request options env s cfg occ)
        as [H1 _]; try eassumption.
      { intros o c bks. cbn [Exec.dispatch]. eapply modify_agent_commits; eauto.
        now rewrite Ht. }
      eexists. split; [exact H1 | reflexivity].
    + destruct Hv as [n [Hn [Hs Hm]]].
      edestruct (@execute_commit AddCategory request options env s cfg occ)
        as [H1 _]; try eassumption.
      { intros o c bks. cbn [Exec.dispatch]. apply add_category_commits; eauto.
        now rewrite Ht. }
      eexists. split; [exact H1 | reflexivity].
    + destruct Hv as [n [es [ag [Hn [Hs [He Hown]]]]]].
      edestruct (@execute_commit ModifyCategory request options env s cfg occ)
        as [H1 _]; try eassumption.
      { intros o c bks. cbn [Exec.dispatch]. eapply modify_category_commits; eauto.
        now rewrite Ht. }
      eexists. split; [exact H1 | reflexivity].
Qed.

(** The four temperatures the specification names. *)
Lemma named_temperatures :
  Exec.temperature_out_of_range (Some (Fin (-1 # 100))) = true
  /\ Exec.temperature_out_of_range (Some (Fin (101 # 100))) = true
  /\ Exec.temperature_out_of_range (Some (Fin 0)) = false
  /\ Exec.temperature_out_of_range (Some (Fin 1)) = false.
Proof. repeat split. Qed.

(** The date of a stamp is the UTC date and its time the local time, so
    east of Greenwich a later backup can bear an earlier stamp: at 23:30
    local time (21:30 UTC) and one hour later, in a zone two hours ahead. *)
Lemma stamps_are_not_chronological :
  let early := mkDate (Scenario.t0 + 21 * 3600 + 1800) 120 in
  let late := mkDate (Scenario.t0 + 22 * 3600 + 1800) 120 in
  (epoch early < epoch late)%Z
  /\ Clock.createTimestamp early = "20260101-233000"
  /\ Clock.createTimestamp late = "20260101-003000".
Proof. vm_compute. repeat split. Qed.

End Supplement.

(* ================================================================== *)
(** * Lenient JSON: facts about the scanners *)

Module JsoncFacts.

Local Open Scope string_scope.

Import JsoncProps Jsonc.

Lemma append_empty (a : string) : (a ++ EmptyString)%string = a.
Proof. induction a; cbn; congruence. Qed.

Lemma Subsequence_refl s : Subsequence s s.
Proof. induction s; now constructor. Qed.

(** One turn of the loop with a character to look ahead at. *)
Lemma comments_two q lc bc ch next rest :
  comments q lc bc (String ch (String next rest))
  = if lc then
      if Js.is_char 10 ch then String ch (comments q false bc (String next rest))
      else comments q true bc (String next rest)
    else if bc then
      if Js.is_char 42 ch && Js.is_char 47 next then comments q false false rest
      else comments q false true (String next rest)
    else if inString q then
      String ch (comments (in_string q ch) false false (String next rest))
    else if is_quote ch then
      String ch (comments (open q ch) false false (String next rest))
    else if Js.is_char 47 ch && Js.is_char 47 next then comments q true false rest
    else if Js.is_char 47 ch && Js.is_char 42 next then comments q false true rest
    else String ch (comments q false false (String next rest)).
Proof. reflexivity. Qed.

(** The turn on the last character. *)
Lemma comments_one q lc bc ch :
  comments q lc bc (String ch EmptyString)
  = if lc then if Js.is_char 10 ch then String ch EmptyString else EmptyString
    else if bc then EmptyString
    else String ch EmptyString.
Proof. cbn. destruct lc, bc, (inString q), (is_quote ch); reflexivity. Qed.

(** Induction on a text through all its suffixes. *)
Lemma suffix_induction (P : string -> Prop) :
  P EmptyString ->
  (forall c, P (String c EmptyString)) ->
  (forall c d s, P s -> P (String d s) -> P (String c (String d s))) ->
  forall s, P s.
Proof.
  intros H0 H1 H2 s.
  assert (H : P s /\ forall c, P (String c s)).
  { induction s as [| d s [IH IH']].
    - split; [exact H0 | exact H1].
    - split; [apply IH' | intros c; apply H2; [exact IH | apply IH']]. }
  apply H.
Qed.

Lemma comments_deletes :
  forall input q lc bc, Subsequence (comments q lc bc input) input.
Proof.
  induction input as [| c | c d s IH IH'] using suffix_induction; intros q lc bc.
  - constructor.
  - rewrite comments_one. destruct lc, bc, (Js.is_char 10 c); repeat constructor.
  - rewrite comments_two. destruct lc.
    + destruct (Js.is_char 10 c); [apply sub_keep | apply sub_drop]; apply IH'.
    + destruct bc.
      * destruct (Js.is_char 42 c && Js.is_char 47 d).
        -- apply sub_drop, sub_drop, IH.
        -- apply sub_drop, IH'.
      * destruct (inString q); [apply sub_keep, IH' |].
        destruct (is_quote c); [apply sub_keep, IH' |].
        destruct (Js.is_char 47 c && Js.is_char 47 d); [apply sub_drop, sub_drop, IH |].
        destruct (Js.is_char 47 c && Js.is_char 42 d); [apply sub_drop, sub_drop, IH |].
        apply sub_keep, IH'.
Qed.

(** Plain text goes through unchanged. *)
Lemma comments_plain a :
  plain a = true ->
  forall q rest, inString q = false ->
    comments q false false (a ++ rest) = a ++ comments q false false rest.
Proof.
  induction a as [| c a IH]; intros Hp q rest Hq; [reflexivity |].
  cbn in Hp. apply andb_true_iff in Hp. destruct Hp as [Hc Ha].
  apply negb_true_iff, orb_false_iff in Hc. destruct Hc as [Hquote Hslash].
  cbn [String.append comments]. rewrite Hq, Hquote, Hslash. cbn [andb].
  rewrite <- (IH Ha q rest Hq). now destruct (a ++ rest).
Qed.

Lemma comments_line c :
  free_of (Js.is_char 10) c = true ->
  forall q bc rest, comments q true bc (c ++ rest) = comments q true bc rest.
Proof.
  induction c as [| x c IH]; intros Hc q bc rest; [reflexivity |].
  cbn in Hc. apply andb_true_iff in Hc. destruct Hc as [Hx Hc].
  apply negb_true_iff in Hx. cbn [String.append comments]. rewrite Hx. now apply IH.
Qed.

Lemma comments_block c :
  ends_block c = false ->
  forall q rest,
    comments q false true (c ++ String "*" (String "/" rest))
    = comments q false false rest.
Proof.
  induction c as [| x c IH]; intros Hc q rest; [reflexivity |].
  cbn [String.append]. destruct c as [| y c].
  - cbn [String.append comments].
    replace (Js.is_char 47 "*") with false by reflexivity.
    rewrite andb_false_r. reflexivity.
  - cbn [ends_block] in Hc. apply orb_false_iff in Hc. destruct Hc as [Hxy Hc].
    cbn [comments String.append]. rewrite Hxy. apply (IH Hc).
Qed.

Lemma comments_unterminated c :
  ends_block c = false -> forall q, comments q false true c = EmptyString.
Proof.
  induction c as [| x c IH]; intros Hc q; [reflexivity |].
  destruct c as [| y c]; [reflexivity |].
  cbn [ends_block] in Hc. apply orb_false_iff in Hc. destruct Hc as [Hxy Hc].
  cbn [comments]. rewrite Hxy. apply (IH Hc).
Qed.

Lemma comments_line_end c :
  free_of (Js.is_char 10) c = true -> forall q bc, comments q true bc c = EmptyString.
Proof.
  induction c as [| x c IH]; intros Hc q bc; [reflexivity |].
  cbn in Hc. apply andb_true_iff in Hc. destruct Hc as [Hx Hc].
  apply negb_true_iff in Hx. cbn [comments]. rewrite Hx. now apply IH.
Qed.

Lemma comments_inside q ch rest :
  inString q = true ->
  comments q false false (String ch rest)
  = String ch (comments (in_string q ch) false false rest).
Proof. intros Hq. cbn [comments]. now rewrite Hq. Qed.

Lemma in_string_other c :
  Js.is_char 34 c = false -> Js.is_char 92 c = false -> in_string lit c = lit.
Proof.
  intros Q B. unfold in_string. cbn [escape lit stringQuote]. rewrite B.
  replace (Ascii.eqb c "034") with false; [reflexivity |].
  symmetry. apply Ascii.eqb_neq. intros ->. discriminate.
Qed.

Lemma in_string_backslash c : Js.is_char 92 c = true -> in_string lit c = escaped.
Proof. intros B. unfold in_string. cbn [escape lit]. now rewrite B. Qed.

Lemma comments_literal :
  forall body, literal_body body = true ->
  forall rest,
    comments lit false false (body ++ String "034" rest)
    = body ++ String "034" (comments outside false false rest).
Proof.
  induction body as [| c | c d s IH IH'] using suffix_induction; intros Hb rest.
  - reflexivity.
  - cbn in Hb. destruct (Js.is_char 34 c) eqn:Q; [discriminate |].
    destruct (Js.is_char 92 c) eqn:B; [discriminate |].
    cbn [String.append]. rewrite comments_inside, (in_string_other _ Q B) by reflexivity.
    reflexivity.
  - cbn [literal_body] in Hb. destruct (Js.is_char 34 c) eqn:Q; [discriminate |].
    cbn [String.append]. rewrite comments_inside by reflexivity.
    destruct (Js.is_char 92 c) eqn:B.
    + rewrite (in_string_backslash _ B), comments_inside by reflexivity.
      change (in_string escaped d) with lit. now rewrite (IH Hb).
    + rewrite (in_string_other _ Q B).
      change (String d (s ++ String "034" rest)) with (String d s ++ String "034" rest).
      now rewrite (IH' Hb).
Qed.

(** In the default state a character that is not a slash is copied. *)
Lemma comments_head q c rest :
  inString q = false -> Js.is_char 47 c = false ->
  exists tail, comments q false false (String c rest) = String c tail.
Proof.
  intros Hq Hc. cbn [comments]. rewrite Hq, Hc. cbn [andb].
  destruct (is_quote c); [eexists; reflexivity |].
  destruct rest; eexists; reflexivity.
Qed.

Lemma comments_open q ch rest :
  inString q = false -> is_quote ch = true ->
  comments q false false (String ch rest)
  = String ch (comments (open q ch) false false rest).
Proof. intros Hq Q. cbn [comments]. now rewrite Hq, Q. Qed.

Lemma comments_copy q c rest :
  inString q = false -> is_quote c = false ->
  Js.is_char 47 c && opens_comment rest = false ->
  comments q false false (String c rest) = String c (comments q false false rest).
Proof.
  intros Hq Q S. destruct rest as [| n rest]; cbn [comments]; rewrite Hq, Q;
    [reflexivity |].
  cbn [opens_comment] in S.
  destruct (Js.is_char 47 c); cbn [andb] in *; [| reflexivity].
  apply orb_false_iff in S. destruct S as [-> ->]. reflexivity.
Qed.

Lemma line_feed_plain c :
  Js.is_char 10 c = true -> is_quote c = false /\ Js.is_char 47 c = false.
Proof.
  unfold is_quote, Js.is_char. intros N. apply Nat.eqb_eq in N. now rewrite N.
Qed.

Lemma comments_fixed :
  forall input q lc bc,
    reachable q lc bc ->
    comments q false false (comments q lc bc input) = comments q lc bc input.
Proof.
  induction input as [| c | c d s IH IH'] using suffix_induction; intros q lc bc R.
  - reflexivity.
  - rewrite comments_one.
    destruct R as [[-> ->] | [Hq [[-> ->] | [-> ->]]]]; [| | reflexivity].
    + apply comments_one.
    + destruct (Js.is_char 10 c); [apply comments_one | reflexivity].
  - rewrite comments_two.
    destruct R as [[-> ->] | [Hq [[-> ->] | [-> ->]]]].
    + destruct (inString q) eqn:Hq.
      { rewrite comments_inside by exact Hq. f_equal. apply IH'. now left. }
      destruct (is_quote c) eqn:Q.
      { rewrite comments_open by assumption. f_equal. apply IH'. now left. }
      destruct (Js.is_char 47 c && Js.is_char 47 d) eqn:S1.
      { apply IH. right. split; [exact Hq | now left]. }
      destruct (Js.is_char 47 c && Js.is_char 42 d) eqn:S2.
      { apply IH. right. split; [exact Hq | now right]. }
      rewrite comments_copy; try assumption.
      * f_equal. apply IH'. now left.
      * destruct (Js.is_char 47 c); [| reflexivity]. cbn [andb] in *.
        destruct (comments_head q d s Hq S1) as [tail ->].
        cbn [opens_comment]. now rewrite S1, S2.
    + destruct (Js.is_char 10 c) eqn:N.
      * destruct (line_feed_plain c N) as [Q S].
        rewrite comments_copy; try assumption; [| now rewrite S].
        f_equal. apply IH'. now left.
      * apply IH'. right. split; [exact Hq | now left].
    + destruct (Js.is_char 42 c && Js.is_char 47 d).
      * apply IH. now left.
      * apply IH'. right. split; [exact Hq | now right].
Qed.

Lemma remove_commas q :
  forall input,
    Clock.remove_char 44 (commas q input) = Clock.remove_char 44 input.
Proof.
  intros input. revert q.
  induction input as [| c s IH]; intros q; [reflexivity |].
  cbn [commas]. destruct (inString q).
  - cbn [Clock.remove_char]. now rewrite IH.
  - destruct (is_quote c).
    + cbn [Clock.remove_char]. now rewrite IH.
    + destruct (Js.is_char 44 c) eqn:C; cbn [andb].
      * destruct (closes_bracket (skip_whitespace s));
          cbn [Clock.remove_char]; rewrite C; apply IH.
      * cbn [Clock.remove_char]. rewrite C. now rewrite IH.
Qed.

Lemma commas_plain a :
  comma_free a = true ->
  forall q rest, inString q = false -> commas q (a ++ rest) = a ++ commas q rest.
Proof.
  induction a as [| c a IH]; intros Hp q rest Hq; [reflexivity |].
  cbn in Hp. apply andb_true_iff in Hp. destruct Hp as [Hc Ha].
  apply negb_true_iff, orb_false_iff in Hc. destruct Hc as [Hquote Hcomma].
  cbn [String.append commas]. rewrite Hq, Hquote, Hcomma. cbn [andb].
  now rewrite (IH Ha q rest Hq).
Qed.

Lemma whitespace_comma_free ws : all_of isWhitespace ws = true -> comma_free ws = true.
Proof.
  unfold comma_free. induction ws as [| c ws IH]; [reflexivity |].
  cbn [all_of free_of]. intros H.
  apply andb_true_iff in H. destruct H as [Hc Hw]. rewrite (IH Hw), andb_true_r.
  unfold isWhitespace, is_quote, Js.is_char in *.
  repeat (apply orb_true_iff in Hc; destruct Hc as [Hc | Hc]);
    apply Nat.eqb_eq in Hc; rewrite Hc; reflexivity.
Qed.

Lemma skip_whitespace_app ws rest :
  all_of isWhitespace ws = true ->
  skip_whitespace (ws ++ rest) = skip_whitespace rest.
Proof.
  induction ws as [| c ws IH]; [reflexivity |]. cbn. intros H.
  apply andb_true_iff in H. destruct H as [-> Hw]. now apply IH.
Qed.

Lemma commas_comma q rest :
  inString q = false ->
  commas q (String "," rest)
  = if closes_bracket (skip_whitespace rest) then commas q rest
    else String "," (commas q rest).
Proof. intros Hq. cbn [commas]. rewrite Hq. reflexivity. Qed.

Lemma skip_whitespace_all ws :
  all_of isWhitespace ws = true -> skip_whitespace ws = EmptyString.
Proof.
  induction ws as [| c ws IH]; [reflexivity |]. cbn. intros H.
  apply andb_true_iff in H. destruct H as [-> Hw]. now apply IH.
Qed.

Lemma free_of_app p a b :
  free_of p (a ++ b) = free_of p a && free_of p b.
Proof. induction a as [| c a IH]; cbn; [reflexivity |]. now rewrite IH, andb_assoc. Qed.

Lemma all_of_app p a b : all_of p (a ++ b) = all_of p a && all_of p b.
Proof. induction a as [| c a IH]; cbn; [reflexivity |]. now rewrite IH, andb_assoc. Qed.

Lemma whitespace_plain ws : all_of isWhitespace ws = true -> plain ws = true.
Proof.
  unfold plain. induction ws as [| c ws IH]; [reflexivity |].
  cbn [all_of free_of]. intros H.
  apply andb_true_iff in H. destruct H as [Hc Hw]. rewrite (IH Hw), andb_true_r.
  unfold isWhitespace, is_quote, Js.is_char in *.
  repeat (apply orb_true_iff in Hc; destruct Hc as [Hc | Hc]);
    apply Nat.eqb_eq in Hc; rewrite Hc; reflexivity.
Qed.

Lemma closing_plain b :
  closing b = true ->
  is_quote b = false /\ Js.is_char 44 b = false /\ Js.is_char 47 b = false
  /\ isWhitespace b = false.
Proof.
  unfold closing, is_quote, isWhitespace, Js.is_char. intros C.
  apply orb_true_iff in C. destruct C as [C | C];
    apply Nat.eqb_eq in C; rewrite C; repeat split; reflexivity.
Qed.

(** A closed block comment after plain text. *)
Lemma comments_block_after a c rest :
  plain a = true -> ends_block c = false ->
  comments outside false false (a ++ "/*" ++ c ++ "*/" ++ rest)
  = (a ++ comments outside false false rest)%string.
Proof.
  intros Ha Hc. rewrite (comments_plain a Ha) by reflexivity. f_equal.
  cbn [String.append]. destruct c as [| x c]; [reflexivity |].
  cbn [String.append]. rewrite comments_two.
  change (comments outside false true (String x c ++ String "*" (String "/" rest))
          = comments outside false false rest).
  now apply comments_block.
Qed.

(** A comma that white space separates from a closing bracket. *)
Lemma commas_trailing a ws b rest :
  comma_free a = true -> all_of isWhitespace ws = true -> closing b = true ->
  commas outside (a ++ "," ++ ws ++ String b rest)
  = (a ++ ws ++ String b (commas outside rest))%string.
Proof.
  intros Ha Hw C. destruct (closing_plain b C) as [Q [K [_ W]]].
  rewrite (commas_plain a Ha) by reflexivity.
  cbn [String.append]. rewrite commas_comma by reflexivity.
  rewrite (skip_whitespace_app ws (String b rest) Hw).
  cbn [skip_whitespace]. rewrite W. cbn [closes_bracket].
  fold (closing b). rewrite C.
  rewrite (commas_plain ws (whitespace_comma_free ws Hw)) by reflexivity.
  do 2 f_equal. cbn [commas inString outside]. now rewrite Q, K.
Qed.

End JsoncFacts.

(* ================================================================== *)
(** * Lenient JSON: what the two strippers do *)

Module LenientJson.

Local Open Scope string_scope.

Import JsoncProps Jsonc JsoncFacts ClockFacts.

(** X1.  [stripJsonComments] only deletes: its result is the input with
    some characters left out, in the same order. *)
Theorem stripJsonComments_only_deletes (input : string) :
  Subsequence (stripJsonComments input) input.
Proof. apply comments_deletes. Qed.

(** X2.  After text that opens no literal and no comment, a line comment
    is removed up to its line feed, which stays; a line comment that the
    input ends in is removed whole. *)
Theorem line_comment_is_removed (a c rest : string) :
  plain a = true -> free_of (Js.is_char 10) c = true ->
  stripJsonComments (a ++ "//" ++ c ++ line_feed ++ rest)
  = (a ++ line_feed ++ stripJsonComments rest)%string
  /\ stripJsonComments (a ++ "//" ++ c) = a.
Proof.
  intros Ha Hc. unfold stripJsonComments. split.
  - rewrite (comments_plain a Ha) by reflexivity. f_equal.
    cbn [String.append]. rewrite comments_two.
    cbn [inString outside is_quote Js.is_char Js.code andb orb].
    change (comments outside true false (c ++ String "010" rest)
            = String "010" (comments outside false false rest)).
    now rewrite (comments_line c Hc).
  - rewrite (comments_plain a Ha) by reflexivity.
    destruct c as [| x c].
    + apply append_empty.
    + cbn [String.append]. rewrite comments_two.
      change (a ++ comments outside true false (String x c) = a).
      rewrite (comments_line_end _ Hc). apply append_empty.
Qed.

Lemma line_comment_is_removed_witness :
  stripJsonComments ("{ " ++ "//" ++ " the agents" ++ line_feed ++ "}")
  = ("{ " ++ line_feed ++ stripJsonComments "}")%string
  /\ stripJsonComments ("{ " ++ "//" ++ " the agents") = "{ ".
Proof. apply line_comment_is_removed; reflexivity. Defined.

(** X3.  After text that opens no literal and no comment, a block comment
    is removed up to the first star-slash after its opener; a block
    comment that is never closed swallows the rest of the input. *)
Theorem block_comment_is_removed (a c rest : string) :
  plain a = true -> ends_block c = false ->
  stripJsonComments (a ++ "/*" ++ c ++ "*/" ++ rest)
  = (a ++ stripJsonComments rest)%string
  /\ stripJsonComments (a ++ "/*" ++ c) = a.
Proof.
  intros Ha Hc. unfold stripJsonComments. split.
  - now apply comments_block_after.
  - rewrite (comments_plain a Ha) by reflexivity.
    destruct c as [| x c].
    + apply append_empty.
    + cbn [String.append]. rewrite comments_two.
      change (a ++ comments outside false true (String x c) = a).
      rewrite (comments_unterminated _ Hc). apply append_empty.
Qed.

Lemma block_comment_is_removed_witness :
  stripJsonComments ("[1, " ++ "/*" ++ " two ** / " ++ "*/" ++ "3]")
  = ("[1, " ++ stripJsonComments "3]")%string
  /\ stripJsonComments ("[1, " ++ "/*" ++ " two ** / ") = "[1, ".
Proof. apply block_comment_is_removed; reflexivity. Defined.

(** X4.  A double-quoted literal is copied as it stands, whatever looks
    like a comment inside it, escaped quotes included, and the scan goes
    on after its closing quote. *)
Theorem literals_are_kept (a body rest : string) :
  plain a = true -> literal_body body = true ->
  stripJsonComments (a ++ quoted body ++ rest)
  = (a ++ quoted body ++ stripJsonComments rest)%string.
Proof.
  intros Ha Hb. unfold stripJsonComments, quoted.
  rewrite (comments_plain a Ha) by reflexivity. f_equal.
  cbn [String.append]. rewrite comments_open by reflexivity.
  change (open outside "034") with lit. f_equal.
  rewrite !append_assoc. cbn [String.append].
  now rewrite (comments_literal body Hb).
Qed.

Lemma literals_are_kept_witness :
  let body := ("http://x/*y*/ " ++ String "\" (String "034" "z"))%string in
  stripJsonComments ("{ " ++ quoted body ++ " } // end")
  = ("{ " ++ quoted body ++ stripJsonComments " } // end")%string.
Proof. intros body. apply literals_are_kept; reflexivity. Defined.

(** X5.  [stripJsonComments] is idempotent: its result holds no comment
    it would remove. *)
Theorem stripJsonComments_idempotent (input : string) :
  stripJsonComments (stripJsonComments input) = stripJsonComments input.
Proof. apply comments_fixed. now left. Qed.

Lemma commas_deletes :
  forall input q, Subsequence (commas q input) input.
Proof.
  induction input as [| c s IH]; intros q; [constructor |].
  cbn [commas]. destruct (inString q); [apply sub_keep, IH |].
  destruct (is_quote c); [apply sub_keep, IH |].
  destruct (Js.is_char 44 c && closes_bracket (skip_whitespace s));
    [apply sub_drop | apply sub_keep]; apply IH.
Qed.

(** X6.  [stripTrailingCommas] deletes commas and nothing else: its result
    is the input with some characters left out, and both are the same text
    once all commas are removed. *)
Theorem stripTrailingCommas_only_commas (input : string) :
  Subsequence (stripTrailingCommas input) input
  /\ Clock.remove_char 44 (stripTrailingCommas input) = Clock.remove_char 44 input.
Proof. split; [apply commas_deletes | apply remove_commas]. Qed.

(** X7.  After text that opens no literal and holds no comma, a comma is
    dropped when the next character that is not a space, tab, line feed or
    carriage return closes an object or an array; it is kept before any
    other character and at the end of the input. *)
Theorem trailing_comma_rule (a ws : string) (b : ascii) (rest : string) :
  comma_free a = true -> all_of isWhitespace ws = true ->
  isWhitespace b = false ->
  stripTrailingCommas (a ++ "," ++ ws ++ String b rest)
  = (if closing b
     then a ++ ws ++ String b (stripTrailingCommas rest)
     else a ++ "," ++ ws ++ stripTrailingCommas (String b rest))%string
  /\ stripTrailingCommas (a ++ "," ++ ws) = (a ++ "," ++ ws)%string.
Proof.
  intros Ha Hw Hb. unfold stripTrailingCommas. split.
  - destruct (closing b) eqn:C; [now apply commas_trailing |].
    rewrite (commas_plain a Ha) by reflexivity.
    cbn [String.append]. rewrite commas_comma by reflexivity.
    rewrite (skip_whitespace_app ws (String b rest) Hw).
    cbn [skip_whitespace]. rewrite Hb. cbn [closes_bracket].
    fold (closing b). rewrite C.
    now rewrite (commas_plain ws (whitespace_comma_free ws Hw)) by reflexivity.
  - rewrite (commas_plain a Ha) by reflexivity.
    cbn [String.append]. rewrite commas_comma by reflexivity.
    rewrite (skip_whitespace_all ws Hw). cbn [closes_bracket].
    assert (E : commas outside ws = ws).
    { rewrite <- (append_empty ws) at 1.
      rewrite (commas_plain ws (whitespace_comma_free ws Hw)) by reflexivity.
      apply append_empty. }
    now rewrite E.
Qed.

Lemma trailing_comma_rule_witness :
  stripTrailingCommas ("[1" ++ "," ++ " " ++ String "]" " ")
  = (if closing "]"
     then "[1" ++ " " ++ String "]" (stripTrailingCommas " ")
     else "[1" ++ "," ++ " " ++ stripTrailingCommas (String "]" " "))%string
  /\ stripTrailingCommas ("[1" ++ "," ++ " ") = ("[1" ++ "," ++ " ")%string.
Proof. apply trailing_comma_rule; reflexivity. Defined.

(** X8.  [parseJsonLenient] strips comments before trailing commas: when
    the text as it stands is refused, a comma that only white space and a
    block comment separate from the closing brace or bracket is not in the
    text that is parsed next. *)
Theorem comma_before_comment_is_dropped
        (T : Type) (JSON_parse : string -> option T)
        (a ws1 c ws2 : string) (b : ascii) (rest : string) :
  let content := (a ++ "," ++ ws1 ++ "/*" ++ c ++ "*/" ++ ws2 ++ String b rest)%string in
  plain a = true -> comma_free a = true ->
  all_of isWhitespace ws1 = true -> all_of isWhitespace ws2 = true ->
  ends_block c = false -> closing b = true ->
  JSON_parse content = None ->
  parseJsonLenient JSON_parse content
  = JSON_parse (a ++ ws1 ++ ws2
                  ++ String b (stripTrailingCommas (stripJsonComments rest)))%string.
Proof.
  intros content Ha Ka H1 H2 Hc C Hn. unfold parseJsonLenient. rewrite Hn. f_equal.
  destruct (closing_plain b C) as [Q [K [S W]]].
  assert (E1 : stripJsonComments content
               = (a ++ "," ++ ws1 ++ ws2 ++ String b (stripJsonComments rest))%string).
  { unfold content, stripJsonComments.
    replace (a ++ "," ++ ws1 ++ "/*" ++ c ++ "*/" ++ ws2 ++ String b rest)%string
      with ((a ++ "," ++ ws1) ++ "/*" ++ c ++ "*/" ++ ws2 ++ String b rest)%string
      by (now rewrite !append_assoc).
    rewrite comments_block_after; [| | exact Hc].
    - rewrite (comments_plain ws2 (whitespace_plain ws2 H2)) by reflexivity.
      rewrite comments_copy; [now rewrite !append_assoc | reflexivity | exact Q |].
      now rewrite S.
    - unfold plain in *. rewrite !free_of_app, Ha. cbn [andb].
      apply andb_true_iff. split; [reflexivity | now apply whitespace_plain]. }
  rewrite E1. unfold stripTrailingCommas.
  replace (a ++ "," ++ ws1 ++ ws2 ++ String b (stripJsonComments rest))%string
    with (a ++ "," ++ (ws1 ++ ws2) ++ String b (stripJsonComments rest))%string
    by (now rewrite !append_assoc).
  rewrite commas_trailing; [now rewrite !append_assoc | exact Ka | | exact C].
  now rewrite all_of_app, H1, H2.
Qed.

Lemma comma_before_comment_is_dropped_witness :
  let parse := fun s : string => if String.eqb s "[1 ]" then Some 1 else None in
  parseJsonLenient parse ("[1" ++ "," ++ " " ++ "/*" ++ "last" ++ "*/" ++ ""
                               ++ String "]" "")
  = parse ("[1" ++ " " ++ "" ++ String "]" (stripTrailingCommas (stripJsonComments "")))%string.
Proof.
  intros parse.
  apply (@comma_before_comment_is_dropped nat parse "[1" " " "last" "" "]" "");
    reflexivity.
Defined.

End LenientJson.

(* ================================================================== *)
(** * Facts about runs of the executor *)

Import MoreProps SweepFacts.

Module RunMore.

Lemma silent_compare bks eo : silent (Exec.compare_backup bks eo).
Proof.
  unfold Exec.compare_backup.
  destruct (Exec.field backupIndex eo) as [idx |]; [| apply silent_say].
  apply silent_if; [apply silent_say |].
  apply silent_bind; [apply silent_join_archive | intros p].
  repeat (apply silent_if;
          [apply silent_bind; [apply silent_readJsonFile | intros _; apply silent_say] |]).
  apply silent_say.
Qed.

Lemma silent_read_only o c cfg bks eo a :
  read_only a = true -> silent (Exec.dispatch o c cfg bks eo a).
Proof.
  destruct a; try discriminate; intros _; cbn [Exec.dispatch];
    try apply silent_say.
  now apply silent_compare.
Qed.

Lemma returns_say a o : returns (Exec.say a o).
Proof. intros env s. eexists. reflexivity. Qed.

Lemma returns_caught {A} (m : M A) (f : Exn -> A) :
  returns (try_catch m (fun e => ret (f e))).
Proof. intros env s. apply try_catch_total. Qed.

Lemma returns_bind {A B} (m : M A) (k : A -> M B) :
  returns m -> (forall a, returns (k a)) -> returns (bind m k).
Proof.
  intros Hm Hk env s. unfold bind. destruct (Hm env s) as [a ->].
  destruct (Hk a env (final (m env s))) as [b Hb]. exists b. exact Hb.
Qed.

(** Every action but compare-backup catches what its statements throw. *)
Lemma returns_dispatch o c cfg bks eo a :
  a <> CompareBackup -> returns (Exec.dispatch o c cfg bks eo a).
Proof.
  intros Ha. destruct a; cbn [Exec.dispatch]; try apply returns_say;
    try congruence.
  - unfold Exec.backup_configs. apply returns_bind.
    + intros env s. apply backup_returns.
    + intros [x y | e]; apply returns_say.
  - unfold Exec.restore_backup. destruct (Exec.field backupIndex eo);
      [| apply returns_say].
    apply (returns_caught _ (fun e => mkReport RestoreBackup (Failed e))).
  - unfold Exec.add_agent. destruct (negb _); [apply returns_say |].
    apply (returns_caught _ (fun e => mkReport AddAgent (Failed e))).
  - unfold Exec.modify_agent. destruct (negb _); [apply returns_say |].
    apply (returns_caught _ (fun e => mkReport ModifyAgent (Failed e))).
  - unfold Exec.add_category. destruct (negb _); [apply returns_say |].
    apply (returns_caught _ (fun e => mkReport AddCategory (Failed e))).
  - unfold Exec.modify_category. destruct (negb _); [apply returns_say |].
    apply (returns_caught _ (fun e => mkReport ModifyCategory (Failed e))).
  - unfold Exec.disable_hook. destruct (negb _); [apply returns_say |].
    apply (returns_caught _ (fun e => mkReport DisableHook (Failed e))).
  - unfold Exec.enable_hook. destruct (negb _); [apply returns_say |].
    apply (returns_caught _ (fun e => mkReport EnableHook (Failed e))).
Qed.

(** The handlers that report every failure themselves. *)
Lemma returns_catches o c cfg bks eo a :
  catches a = true -> returns (Exec.dispatch o c cfg bks eo a).
Proof.
  intros Ha. apply returns_dispatch. intros ->. discriminate.
Qed.

End RunMore.

Import RunMore.

Module RunMore2.

(** When the archive directory cannot be made the backup gives up at once. *)
Lemma backup_refused o c env s :
  faults env OpMkdirArchive = true ->
  Backup.backupConfigsInternal o c env s
  = mkRun (Ok (BackupFailed (IoError OpMkdirArchive))) s [EBackupStart o c; EMkdirArchive].
Proof.
  intros Hm. unfold Backup.backupConfigsInternal.
  match goal with
  | |- context [bind Fs.ensureArchiveDir ?k] => generalize k
  end.
  intros rest. unfold bind, try_catch, Fs.ensureArchiveDir, bind, Fs.emit.
  cbn [result final events]. rewrite Hm. reflexivity.
Qed.

Lemma commit_without_backup o c p config' a r (h : Exn -> M Report) env s :
  faults env OpMkdirArchive = true -> faults env (OpWrite p) = false ->
  try_catch (commit o c p config' a r) h env s
  = mkRun (Ok (mkReport a r)) (Fs.put s p (Parsed config'))
          [EBackupStart o c; EMkdirArchive; EWriteJson p].
Proof.
  intros Hm Hw. unfold try_catch, commit.
  cbv beta iota zeta delta [bind Fs.writeJsonFile Fs.emit Exec.say ret].
  rewrite (backup_refused o c env s Hm). cbn [result final events].
  rewrite Hw. reflexivity.
Qed.

(** The first unreadable configuration file stops [executeAction]. *)
Lemma load_fails env s :
  omo_config s = None \/ (omo_config s <> None /\ oc_config s = None) ->
  exists p,
    result (Exec.load env s) = Throw (ParseError p)
    /\ (p = resolved OmoFile s \/ p = resolved OcFile s).
Proof.
  intros H. unfold omo_config, oc_config, config_at in H.
  cbv beta iota zeta delta [Exec.load bind Fs.resolveOmoConfigPath
                              Fs.resolveOpenCodeConfigPath].
  rewrite !resolve_run. cbn [result final events].
  rewrite !readJsonFile_run.
  destruct H as [H | [H1 H2]].
  - destruct (Fs.read s (resolved OmoFile s)) as [[cfg |] |]; try discriminate.
    cbn [result final events]. eexists. split; [reflexivity | now left].
  - destruct (Fs.read s (resolved OmoFile s)) as [[cfg |] |];
      try (exfalso; now apply H1); cbn [result final events];
      (destruct (Fs.read s (resolved OcFile s)) as [[occ |] |]; try discriminate);
      cbn [result final events]; eexists; (split; [reflexivity | now right]).
Qed.

End RunMore2.

Import RunMore2.

(* ================================================================== *)
(** * The executor: what every action leaves alone *)

Module Executor.

(** X9.  The actions that only report (the listings, the two stubs, the
    permission view, the comparison and the help text) leave every file
    as it is and attempt no effect, whatever the request and the options
    are, also when they throw. *)
Theorem read_only_actions_change_nothing a request options env s :
  read_only a = true ->
  final (Exec.executeAction a request options env s) = s
  /\ events (Exec.executeAction a request options env s) = [].
Proof.
  intros Ha. unfold Exec.executeAction.
  apply silent_bind; [apply silent_load | intros l].
  now apply silent_read_only.
Qed.

Lemma read_only_actions_change_nothing_witness :
  final (Exec.executeAction CompareBackup "compare 1" None here with_oracle) = with_oracle
  /\ events (Exec.executeAction CompareBackup "compare 1" None here with_oracle) = [].
Proof. apply read_only_actions_change_nothing. reflexivity. Defined.

(** X10.  When each configuration file is absent or holds a document of
    its declared type and the archive can be listed, a mutating action
    whose request names no entity or hook, and a comparison or
    restoration whose request gives no number, only answers with its
    usage text, which lists the current agents, categories, registry
    hooks, disabled hooks or backups; nothing is backed up or written. *)
Theorem unnamed_request_gets_usage a request options env s cfg occ :
  omo_config s = Some cfg -> oc_config s = Some occ -> archive_readable env s ->
  unnamed a (Exec.effective a request options) ->
  Exec.executeAction a request options env s
  = mkRun (Ok (mkReport a (Usage (usage_items a cfg (listed 5 s))))) s [].
Proof.
  intros Ho Hc Hr Hu. rewrite executeAction_run, (load_ok Ho Hc Hr).
  cbn [Exec.l_omoConfigPath Exec.l_ocConfigPath Exec.l_omoConfig Exec.l_existingBackups].
  destruct a; cbn [unnamed] in Hu; try contradiction; cbn [Exec.dispatch usage_items].
  - unfold Exec.compare_backup. now rewrite Hu.
  - unfold Exec.restore_backup. now rewrite Hu.
  - unfold Exec.add_agent. now rewrite Hu.
  - unfold Exec.modify_agent. now rewrite Hu.
  - unfold Exec.add_category. now rewrite Hu.
  - unfold Exec.modify_category. now rewrite Hu.
  - unfold Exec.disable_hook. now rewrite Hu.
  - unfold Exec.enable_hook. now rewrite Hu.
Qed.

Lemma unnamed_request_gets_usage_witness :
  Exec.executeAction ModifyAgent "change something" None here with_oracle
  = mkRun (Ok (mkReport ModifyAgent (Usage ["oracle"; "scout"]))) with_oracle [].
Proof.
  apply (@unnamed_request_gets_usage ModifyAgent "change something" None here
           with_oracle
           (mkConfig (Some [("oracle", old_oracle); ("scout", empty_agent)])
                     None None [])
           empty_config); try reflexivity.
  now left.
Defined.

(** X11.  When a configuration file holds text that does not parse, every
    request, a listing or the help text included, ends in the error reply
    of the tool handler; nothing is backed up and nothing is written. *)
Theorem unreadable_config_blocks_every_request request env s :
  omo_config s = None \/ (omo_config s <> None /\ oc_config s = None) ->
  exists p,
    Plugin.execute request env s = mkRun (Ok (ErrorReply (ParseError p))) s []
    /\ (p = resolved OmoFile s \/ p = resolved OcFile s).
Proof.
  intros H. destruct (@load_fails env s H) as [p [Hl Hp]]. exists p. split; [| exact Hp].
  assert (E : Exec.executeAction (Classifier.parseAction request) request None env s
              = mkRun (Throw (ParseError p)) s []).
  { now rewrite executeAction_run, Hl. }
  unfold Plugin.execute, Exec.handle, try_catch, bind. rewrite E. reflexivity.
Qed.

Lemma unreadable_config_blocks_every_request_witness :
  exists p,
    Plugin.execute "help" here (mkStore (Some Malformed) None None None None)
    = mkRun (Ok (ErrorReply (ParseError p)))
            (mkStore (Some Malformed) None None None None) []
    /\ (p = resolved OmoFile (mkStore (Some Malformed) None None None None)
        \/ p = resolved OcFile (mkStore (Some Malformed) None None None None)).
Proof. apply unreadable_config_blocks_every_request. now left. Defined.

(** X12.  When each configuration file is absent or holds a document of
    its declared type and the archive can be listed, a request classified
    as one of the six mutating actions, as backup-configs or as
    restore-backup never ends in the error text of the tool handler:
    [executeAction] returns, whatever I/O call fails inside the handler
    (a copy, a write, the read of a backup), and the tool answers with
    the report it returned. *)
Theorem handler_failures_are_reported request env s cfg occ :
  omo_config s = Some cfg -> oc_config s = Some occ -> archive_readable env s ->
  catches (Classifier.parseAction request) = true ->
  exists r, result (Exec.handle request env s) = Ok r
            /\ result (Plugin.execute request env s) = Ok (Answered r).
Proof.
  intros Ho Hc Hr Ha.
  destruct (returns_catches (resolved OmoFile s) (resolved OcFile s) cfg
              (listed 5 s)
              (Exec.effective (Classifier.parseAction request) request None)
              _ Ha env s) as [r Hd].
  assert (E : result (Exec.handle request env s) = Ok r).
  { unfold Exec.handle. rewrite executeAction_run, (load_ok Ho Hc Hr). exact Hd. }
  exists r. split; [exact E |].
  unfold Plugin.execute, try_catch, bind. rewrite E. reflexivity.
Qed.

Lemma handler_failures_are_reported_witness :
  let request := "disable hook think-mode" in
  (exists r, result (Exec.handle request write_refused with_oracle) = Ok r
             /\ result (Plugin.execute request write_refused with_oracle)
                = Ok (Answered r))
  /\ result (Plugin.execute request write_refused with_oracle)
     = Ok (Answered (mkReport DisableHook
                       (Failed (IoError (OpWrite (OmoFile DotJson)))))).
Proof.
  intros request. split.
  - apply (@handler_failures_are_reported request write_refused with_oracle
             (mkConfig (Some [("oracle", old_oracle); ("scout", empty_agent)])
                       None None [])
             empty_config); try reflexivity.
    now left.
  - vm_compute. reflexivity.
Defined.

End Executor.

(* ================================================================== *)
(** * The backup manager: what a backup can and cannot do *)

Module BackupManager.

(** X13.  [backupConfigsInternal] never throws, leaves the four
    configuration files as they are, and after the call itself has effects
    on the archive directory and its entries only. *)
Theorem backup_is_contained o c env s :
  let run := Backup.backupConfigsInternal o c env s in
  (exists r, result run = Ok r)
  /\ same_live s (final run)
  /\ exists rest, events run = EBackupStart o c :: rest
                  /\ forallb on_archive rest = true.
Proof.
  intros run. split; [apply backup_returns |].
  split; [apply archival_backup | apply backup_events].
Qed.

(** X14.  When no I/O call fails and the archive holds no name twice and
    fewer than 99 backup files, a backup leaves at most five backup files,
    five of them when there were five or more before, and still no name
    twice. *)
Theorem backup_leaves_at_most_five o c env s :
  (forall op, faults env op = false) ->
  tidy s -> List.length (backup_names s) + 2 <= 100 ->
  let s' := final (Backup.backupConfigsInternal o c env s) in
  tidy s'
  /\ Nat.min 5 (List.length (backup_names s)) <= List.length (backup_names s') <= 5.
Proof. intros calm Ht Hn. now apply backup_keeps_five. Qed.

Lemma backup_leaves_at_most_five_witness :
  let s' := final (Backup.backupConfigsInternal (OmoFile DotJson) (OcFile DotJson)
                                                here with_oracle) in
  tidy s'
  /\ Nat.min 5 (List.length (backup_names with_oracle))
     <= List.length (backup_names s') <= 5.
Proof.
  apply backup_leaves_at_most_five.
  - intros op. reflexivity.
  - constructor.
  - cbn. lia.
Defined.

(** X15.  The mutating actions do not look at what the backup returns:
    when the archive directory cannot be made, so that no backup exists,
    an add-agent request that is in order still writes the configuration
    file and reports success, while backup-configs reports the failure. *)
Theorem mutation_goes_on_without_backup request options env s cfg occ n :
  omo_config s = Some cfg -> oc_config s = Some occ -> archive_readable env s ->
  faults env OpMkdirArchive = true ->
  faults env (OpWrite (resolved OmoFile s)) = false ->
  Exec.field agentName (Exec.effective AddAgent request options) = Some n ->
  isSafeConfigKey n = true ->
  truthy (a_model (agent_data (Exec.effective AddAgent request options))) = true ->
  Exec.temperature_out_of_range
    (a_temperature (agent_data (Exec.effective AddAgent request options))) = false ->
  let run := Exec.executeAction AddAgent request options env s in
  succeeded run
  /\ archive (final run) = archive s
  /\ (exists cfg',
         omo_config (final run) = Some cfg'
         /\ Obj.own (or_default [] (agents cfg')) n
            = Some (Exec.new_agent (agent_data (Exec.effective AddAgent request options))))
  /\ result (Exec.executeAction BackupConfigs request options env s)
     = Ok (mkReport BackupConfigs (Failed (IoError OpMkdirArchive))).
Proof.
  intros Ho Hc Hr Hm Hw Hn Hs Hmod Ht run.
  assert (L : live (resolved OmoFile s) = true) by (apply live_resolved; now left).
  assert (E : run = mkRun
                (Ok (mkReport AddAgent
                       (SavedAgent n
                          (Exec.redact_agent
                             (Exec.new_agent
                                (agent_data (Exec.effective AddAgent request options)))))))
                (Fs.put s (resolved OmoFile s)
                   (Parsed
                      (Exec.with_agents cfg
                         (Obj.set (or_default [] (agents cfg)) n
                            (Exec.new_agent
                               (agent_data (Exec.effective AddAgent request options)))))))
                [EBackupStart (resolved OmoFile s) (resolved OcFile s); EMkdirArchive;
                 EWriteJson (resolved OmoFile s)]).
  { subst run. rewrite executeAction_run, (load_ok Ho Hc Hr).
    cbn [Exec.l_omoConfigPath Exec.l_ocConfigPath Exec.l_omoConfig
         Exec.l_existingBackups Exec.dispatch].
    rewrite (add_agent_commits _ _ _ _ Hn Hs Hmod Ht).
    now apply commit_without_backup. }
  rewrite E. cbn [result final events]. split; [| split; [| split]].
  - eexists. split; reflexivity.
  - now apply archive_put_live.
  - eexists. split.
    + apply omo_config_after. apply same_live_refl.
    + cbn [agents Exec.with_agents or_default]. apply own_set_same.
  - rewrite executeAction_run, (load_ok Ho Hc Hr).
    cbn [Exec.l_omoConfigPath Exec.l_ocConfigPath Exec.l_omoConfig
         Exec.l_existingBackups Exec.dispatch].
    unfold Exec.backup_configs, Exec.backup, bind.
    rewrite (backup_refused _ _ env s Hm). reflexivity.
Qed.

Lemma mutation_goes_on_without_backup_witness :
  let request := "add agent scout with model opencode/gpt-5.2" in
  let run := Exec.executeAction AddAgent request None archive_refused
                                Scenario.empty_store in
  succeeded run
  /\ archive (final run) = None
  /\ (exists cfg',
         omo_config (final run) = Some cfg'
         /\ Obj.own (or_default [] (agents cfg')) "scout"
            = Some (Exec.new_agent
                      (agent_data (Exec.effective AddAgent request None))))
  /\ result (Exec.executeAction BackupConfigs request None archive_refused
                                Scenario.empty_store)
     = Ok (mkReport BackupConfigs (Failed (IoError OpMkdirArchive))).
Proof.
  intros request run.
  apply (@mutation_goes_on_without_backup request None archive_refused
           Scenario.empty_store empty_config empty_config "scout");
    try reflexivity.
  now left.
Defined.

End BackupManager.

(* ================================================================== *)
(** * Facts about restoring and about the store after a run *)

Module RestoreFacts.

Lemma Qred_int (z : Z) : Qred (z # 1) = (z # 1)%Q.
Proof.
  unfold Qred.
  pose proof (Z.ggcd_gcd z 1) as G.
  pose proof (Z.ggcd_correct_divisors z 1) as D.
  destruct (Z.ggcd z 1) as [g [aa bb]]. cbn [fst snd] in *.
  rewrite Z.gcd_1_r in G. subst g. destruct D as [D1 D2].
  rewrite Z.mul_1_l in D1, D2. subst aa bb. reflexivity.
Qed.

Lemma as_index_pred (k : nat) :
  Num.as_index (Fin (inject_Z (Z.of_nat (S k)) - 1)%Q) = Some k.
Proof.
  unfold Num.as_index, Qminus, Qplus, Qopp, inject_Z.
  cbn [Qnum Qden Pos.mul].
  match goal with
  | |- context [Qred (?z # 1)] => replace z with (Z.of_nat k) by lia
  end.
  rewrite Qred_int. cbn [Qnum Qden]. rewrite Z.eqb_refl.
  replace (0 <=? Z.of_nat k)%Z with true by (symmetry; apply Z.leb_le; lia).
  cbn [andb]. now rewrite Nat2Z.id.
Qed.

Lemma backup_at_nth (bks : list string) (k : nat) :
  Exec.backup_at bks (Num.of_nat (S k)) = nth_error bks k.
Proof. unfold Exec.backup_at, Num.of_nat. now rewrite as_index_pred. Qed.

Lemma index_in_range (bks : list string) (k : nat) :
  k < List.length bks -> Exec.index_out_of_range bks (Num.of_nat (S k)) = false.
Proof.
  intros Hk. unfold Exec.index_out_of_range, Num.gt, Num.lt, Num.one, Num.of_nat.
  apply orb_false_iff. split; apply Qltb_false; rewrite <- Zle_Qle; lia.
Qed.

Lemma index_beyond (bks : list string) (k : nat) :
  List.length bks <= k -> Exec.index_out_of_range bks (Num.of_nat (S k)) = true.
Proof.
  intros Hk. unfold Exec.index_out_of_range, Num.gt, Num.lt, Num.one, Num.of_nat.
  apply orb_true_iff. right. apply Qltb_true. rewrite <- Zlt_Qlt. lia.
Qed.

Lemma listed_are_backups n s name :
  In name (listed n s) -> Fs.is_backup_name name = true.
Proof.
  rewrite listed_backup_names. intros H.
  assert (H' : In name (rev (Fs.sort (backup_names s)))).
  { rewrite <- (firstn_skipn n (rev (Fs.sort (backup_names s)))).
    apply in_or_app. now left. }
  clear H. rename H' into H. apply in_rev in H.
  apply (Permutation_in _ (sort_perm (backup_names s))) in H.
  unfold backup_names in H. apply filter_In in H. apply H.
Qed.

Section Calm.

Variable env : Env.
Hypothesis calm : forall op, faults env op = false.

Lemma backup_result o c s :
  result (Backup.backupConfigsInternal o c env s)
  = Ok (BackupOk (omo_name env o) (oc_name env c)).
Proof.
  destruct (backup_returns o c env s) as [[a b | e] H].
  - destruct (backup_result_names o c env s H) as [-> ->]. exact H.
  - exfalso. revert H.
    unfold Backup.backupConfigsInternal.
    unfold bind at 1. cbn [Fs.emit result final events].
    unfold try_catch.
    match goal with
    | |- context [result (?body env s)] =>
        assert (Hb : exists a b, result (body env s) = Ok (BackupOk a b))
    end.
    { unfold bind at 1. rewrite (@ensure_run env calm s). cbn [result final events].
      unfold bind at 1. cbn [Backup.ask result final events].
      unfold bind at 1.
      destruct (@snapshot_final env calm o
                  (Backup.omo_backup_name (Clock.createTimestamp (now env))
                     (Backup.ext_or_json (Fs.render (config_dir env) o)))
                  (ensured s)) as [R1 _].
      rewrite R1. cbn [result final events].
      unfold bind at 1.
      match goal with
      | |- context [Backup.snapshot c ?n env ?st] =>
          destruct (@snapshot_final env calm c n st) as [R2 _]; rewrite R2
      end.
      cbn [result final events].
      unfold bind at 1. rewrite (@listBackups_run env calm). cbn [result final events].
      unfold bind at 1.
      match goal with
      | |- context [result ((if ?b then Backup.unlink_all ?l else ret tt) env ?st)] =>
          assert (U : result ((if b then Backup.unlink_all l else ret tt) env st) = Ok tt)
            by (destruct b; [apply unlink_all_result | reflexivity]);
          rewrite U
      end.
      cbn [result final events ret]. eexists. eexists. reflexivity. }
    destruct Hb as [a [b Hb]]. rewrite Hb. cbv beta iota. rewrite Hb. discriminate.
Qed.

(** What restore-backup does with the backup chosen by a number in
    range. *)
Lemma restore_run o c bks eo k name :
  Exec.field backupIndex eo = Some (Num.of_nat (S k)) ->
  nth_error bks k = Some name -> Fs.is_backup_name name = true ->
  forall s,
    let after := final (Backup.backupConfigsInternal o c env s) in
    let run := Exec.restore_backup o c bks eo env s in
    match Fs.read after (ArchiveFile name) with
    | Some (Parsed cfg) =>
        result run = Ok (mkReport RestoreBackup (Restored name))
        /\ final run = Fs.put after (restore_target name o c) (Parsed cfg)
    | None =>
        result run = Ok (mkReport RestoreBackup (Restored name))
        /\ final run = Fs.put after (restore_target name o c) (Parsed empty_config)
    | Some Malformed =>
        result run
        = Ok (mkReport RestoreBackup (Failed (ParseError (ArchiveFile name))))
        /\ final run = after
    end.
Proof.
  intros Hi Hn Hb s after run. subst run.
  unfold Exec.restore_backup. rewrite Hi.
  assert (Hk : k < List.length bks) by (apply nth_error_Some; congruence).
  rewrite (index_in_range bks Hk), backup_at_nth, Hn.
  cbn [Exec.join_archive or_default].
  unfold try_catch, restore_target, Exec.backup.
  cbv beta iota zeta delta [bind Fs.writeJsonFile Fs.emit Exec.say ret].
  rewrite backup_result. cbn [result final events]. fold after.
  unfold Fs.is_backup_name in Hb.
  destruct (Js.startsWith name "omo-backup-") eqn:P1.
  - rewrite !readJsonFile_run.
    destruct (Fs.read after (ArchiveFile name)) as [[cfg |] |];
      cbn [result final events]; rewrite ?calm; cbn [result final events];
      split; reflexivity.
  - cbn [orb] in Hb. rewrite Hb. rewrite !readJsonFile_run.
    destruct (Fs.read after (ArchiveFile name)) as [[cfg |] |];
      cbn [result final events]; rewrite ?calm; cbn [result final events];
      split; reflexivity.
Qed.

End Calm.

End RestoreFacts.

Import RestoreFacts.

Module MutationFacts.


End MutationFacts.

Import MutationFacts.

Module UndoFacts.

Lemma append_cancel_r (a b e : string) : (a ++ e = b ++ e)%string -> a = b.
Proof.
  intros H. apply (f_equal chars) in H. rewrite !chars_app in H.
  apply app_inv_tail in H. unfold chars in H.
  rewrite <- (string_of_list_ascii_of_string a), <- (string_of_list_ascii_of_string b).
  now rewrite H.
Qed.



Lemma oc_names_differ env1 env2 e :
  Clock.createTimestamp (now env1) <> Clock.createTimestamp (now env2) ->
  oc_name env1 (OcFile e) <> oc_name env2 (OcFile e).
Proof.
  intros Hd H. apply Hd. unfold oc_name, Backup.oc_backup_name in H.
  rewrite !(@ext_of_config _ (OcFile e) e) in H by now right.
  cbn [String.append] in H. injection H as H. now apply append_cancel_r in H.
Qed.









Lemma read_ensured s p : Fs.read (ensured s) p = Fs.read s p.
Proof.
  unfold ensured. destruct (archive s) eqn:E; [reflexivity |].
  destruct p as [[|] | [|] | n]; cbn; try reflexivity. now rewrite E.
Qed.



Section Calm.

Variable env : Env.
Hypothesis calm : forall op, faults env op = false.

Lemma snapshot_exact src n s :
  result (Backup.snapshot src n env s) = Ok tt
  /\ final (Backup.snapshot src n env s) = Fs.put s (ArchiveFile n) (copy_of s src).
Proof.
  unfold Backup.snapshot, try_catch, Fs.copyFile, Fs.writeJsonFile, bind, Fs.emit,
    copy_of.
  cbn [result final events].
  destruct (Fs.read s src) as [c |]; cbn [result final events]; rewrite !calm;
    cbn [result final events]; split; reflexivity.
Qed.

Ltac next m st H :=
  match goal with
  | |- context [bind m ?k env st] =>
      let Hr := fresh in
      let Hf := fresh in
      destruct (@bind_ok env _ _ m k st _ H) as [Hr Hf]; rewrite Hr, Hf; clear Hr Hf
  end.

(** Without failures a backup stores a copy of each file, or the empty
    object for a file that is missing, and sweeps. *)
Lemma backup_final_exact o c s :
  live o = true -> live c = true ->
  final (Backup.backupConfigsInternal o c env s)
  = swept (Fs.put (Fs.put (ensured s) (ArchiveFile (omo_name env o)) (copy_of s o))
                  (ArchiveFile (oc_name env c)) (copy_of s c)).
Proof.
  intros Lo Lc.
  
  unfold Backup.backupConfigsInternal.
  destruct (snapshot_exact o (omo_name env o) (ensured s)) as [R1 F1].
  set (s2 := Fs.put (ensured s) (ArchiveFile (omo_name env o)) (copy_of (ensured s) o)) in *.
  destruct (snapshot_exact c (oc_name env c) s2) as [R2 F2].
  set (s3 := Fs.put s2 (ArchiveFile (oc_name env c)) (copy_of s2 c)) in *.
  assert (C1 : copy_of (ensured s) o = copy_of s o)
    by (unfold copy_of; now rewrite read_ensured).
  assert (C2 : copy_of s2 c = copy_of s c).
  { unfold copy_of, s2.
    rewrite (read_same_live (s := ensured s)); [now rewrite read_ensured | | exact Lc].
    apply same_live_put. }
  rewrite <- C1, <- C2. fold s2. fold s3.
  match goal with
  | |- context [bind (Fs.emit ?e) ?k env s] =>
      rewrite (proj2 (@bind_ok env _ _ (Fs.emit e) k s _ eq_refl))
  end.
  cbn [Fs.emit final].
  match goal with
  | |- final (try_catch ?body _ env s) = _ =>
      assert (H : result (body env s)
                  = Ok (BackupOk (omo_name env o) (oc_name env c))
                  /\ final (body env s) = swept s3)
  end.
  { assert (E0 : result (Fs.ensureArchiveDir env s) = Ok tt)
      by now rewrite (@ensure_run env calm s).
    next Fs.ensureArchiveDir s E0.
    rewrite (@ensure_run env calm s). cbn [final].
    next Backup.ask (ensured s) (eq_refl (Ok env)).
    cbn [Backup.ask final]. fold (omo_name env o). fold (oc_name env c).
    next (Backup.snapshot o (omo_name env o)) (ensured s) R1.
    rewrite F1.
    next (Backup.snapshot c (oc_name env c)) s2 R2.
    rewrite F2.
    assert (L : result (Fs.listBackups 100 env s3) = Ok (listed 100 s3))
      by now rewrite (@listBackups_run env calm).
    next (Fs.listBackups 100) s3 L.
    rewrite (@listBackups_run env calm). cbn [final]. unfold swept.
    destruct (5 <? List.length (listed 100 s3)).
    - next (Backup.unlink_all (skipn 5 (listed 100 s3))) s3
           (@unlink_all_result env (skipn 5 (listed 100 s3)) s3).
      cbn [ret result final]. split; [reflexivity |].
      now apply unlink_all_final.
    - next (@ret unit tt) s3 (eq_refl (Ok tt)). split; reflexivity. }
  destruct H as [Hr Hf]. unfold try_catch. rewrite Hr. exact Hf.
Qed.

End Calm.

End UndoFacts.

Import UndoFacts.

Module UndoFacts2.

Section Calm.

Variable env : Env.
Hypothesis calm : forall op, faults env op = false.



End Calm.

Lemma backup_names_live s p c :
  live p = true -> backup_names (Fs.put s p c) = backup_names s.
Proof.
  intros L. unfold backup_names, Scenario.archive_names.
  now rewrite (@archive_put_live s p c L).
Qed.


End UndoFacts2.

Import UndoFacts2.

(* ================================================================== *)
(** * Restoring *)

Module Restoring.

(** X16.  Restore-backup reads the chosen backup only after its own safety
    backup and the sweep that ends it.  When no I/O call fails and the
    number is in range, the configuration file the backup belongs to is
    overwritten with what the backup file holds at that moment, and with
    the empty object when the sweep has removed the file; a file that does
    not parse leaves the configuration files alone and is reported. *)
Theorem restore_writes_what_is_left request options env s cfg occ k name :
  (forall op, faults env op = false) ->
  omo_config s = Some cfg -> oc_config s = Some occ ->
  Exec.field backupIndex (Exec.effective RestoreBackup request options)
  = Some (Num.of_nat (S k)) ->
  nth_error (listed 5 s) k = Some name ->
  let target := restore_target name (resolved OmoFile s) (resolved OcFile s) in
  let run := Exec.executeAction RestoreBackup request options env s in
  match Fs.read (backed_up env s) (ArchiveFile name) with
  | Some (Parsed saved) =>
      result run = Ok (mkReport RestoreBackup (Restored name))
      /\ Fs.read (final run) target = Some (Parsed saved)
  | None =>
      result run = Ok (mkReport RestoreBackup (Restored name))
      /\ Fs.read (final run) target = Some (Parsed empty_config)
  | Some Malformed =>
      result run = Ok (mkReport RestoreBackup (Failed (ParseError (ArchiveFile name))))
      /\ same_live s (final run)
  end.
Proof.
  intros calm Ho Hc Hi Hn target run.
  assert (Hr : archive_readable env s) by now right.
  assert (Hb : Fs.is_backup_name name = true).
  { apply (@listed_are_backups 5 s). eapply nth_error_In, Hn. }
  assert (Lt : live target = true).
  { unfold target, restore_target.
    destruct (Js.startsWith name "omo-backup-"); apply live_resolved; auto. }
  subst run. rewrite executeAction_run, (load_ok Ho Hc Hr).
  cbn [Exec.l_omoConfigPath Exec.l_ocConfigPath Exec.l_omoConfig
       Exec.l_existingBackups Exec.dispatch].
  pose proof (@restore_run env calm (resolved OmoFile s) (resolved OcFile s)
                (listed 5 s) _ k name Hi Hn Hb s) as R.
  cbv zeta in R. fold (backed_up env s) in R. fold target in R.
  destruct (Fs.read (backed_up env s) (ArchiveFile name)) as [[saved |] |];
    destruct R as [R1 R2]; (split; [exact R1 |]).
  - rewrite R2. now apply read_put_same.
  - rewrite R2. apply archival_backup.
  - rewrite R2. now apply read_put_same.
Qed.

Lemma restore_writes_what_is_left_witness :
  let name := "opencode-backup-20250101-000001.json" in
  let run := Exec.executeAction RestoreBackup "restore 5" None here full_archive in
  nth_error (listed 5 full_archive) 4 = Some name
  /\ Fs.read full_archive (ArchiveFile name) <> None
  /\ result run = Ok (mkReport RestoreBackup (Restored name))
  /\ Fs.read (final run) (OcFile DotJson) = Some (Parsed empty_config).
Proof.
  intros name run.
  assert (Hn : nth_error (listed 5 full_archive) 4 = Some name)
    by (vm_compute; reflexivity).
  assert (Hi : Exec.field backupIndex (Exec.effective RestoreBackup "restore 5" None)
               = Some (Num.of_nat 5)) by (vm_compute; reflexivity).
  assert (E : Fs.read (backed_up here full_archive) (ArchiveFile name) = None)
    by (vm_compute; reflexivity).
  pose proof (@restore_writes_what_is_left
                "restore 5" None here full_archive
                (mkConfig None None (Some ["think-mode"]) [])
                (mkConfig None None None [("plugin", JArr [JStr "now"])])
                4 name (fun _ => eq_refl) eq_refl eq_refl Hi Hn) as H.
  cbv zeta in H. rewrite E in H.
  split; [exact Hn |]. split; [discriminate |]. exact H.
Defined.

End Restoring.

Module Undo.



End Undo.

Module Retention.

(** X28.  Which backups the sweep keeps.  When no I/O call fails and the
    archive holds no name twice and fewer than 99 backup files, the backup
    files left by a backup are, among the backup files of the archive
    with the two new snapshots, the five whose names come last in the
    order of code units, whatever their time stamps are. *)
Theorem sweep_keeps_the_last_names o c env s :
  (forall op, faults env op = false) ->
  live o = true -> live c = true ->
  tidy s -> List.length (backup_names s) + 2 <= 100 ->
  let snapshots :=
    Fs.put (Fs.put (ensured s) (ArchiveFile (omo_name env o)) (copy_of s o))
           (ArchiveFile (oc_name env c)) (copy_of s c) in
  Permutation (backup_names (final (Backup.backupConfigsInternal o c env s)))
              (firstn 5 (rev (Fs.sort (backup_names snapshots)))).
Proof.
  intros calm Lo Lc Ht Hn snapshots.
  rewrite (@backup_final_exact env calm o c s Lo Lc). fold snapshots.
  assert (T1 : tidy (ensured s)) by (unfold tidy; now rewrite archive_names_ensured).
  assert (B1 : backup_names (ensured s) = backup_names s)
    by (unfold backup_names; now rewrite archive_names_ensured).
  pose proof (backup_names_put (ensured s) (omo_name env o) (copy_of s o)) as B2.
  pose proof (backup_names_put
                (Fs.put (ensured s) (ArchiveFile (omo_name env o)) (copy_of s o))
                (oc_name env c) (copy_of s c)) as B3.
  fold snapshots in B3. rewrite B1 in B2.
  apply swept_names; [apply tidy_put, tidy_put, T1 | lia].
Qed.

Lemma sweep_keeps_the_last_names_witness :
  let o := OmoFile DotJson in
  let c := OcFile DotJson in
  let snapshots :=
    Fs.put (Fs.put (ensured full_archive) (ArchiveFile (omo_name here o))
                   (copy_of full_archive o))
           (ArchiveFile (oc_name here c)) (copy_of full_archive c) in
  Permutation
    (backup_names (final (Backup.backupConfigsInternal o c here full_archive)))
    (firstn 5 (rev (Fs.sort (backup_names snapshots)))).
Proof.
  intros o c snapshots.
  apply (@sweep_keeps_the_last_names o c here full_archive).
  - intros op. reflexivity.
  - reflexivity.
  - reflexivity.
  - unfold tidy. vm_compute. repeat constructor; cbn; intuition discriminate.
  - vm_compute. lia.
Defined.

End Retention.

(* ================================================================== *)
(** * What the mutations change and what they keep *)

Module FrameFacts.

Lemma enable_hook_commits o c cfg eo h disabled :
  Exec.field hookName eo = Some h -> h <> EmptyString ->
  disabled_hooks cfg = Some disabled -> In h disabled ->
  Exec.enable_hook o c cfg eo =
  try_catch
    (commit o c o
       (Exec.with_disabled_hooks cfg
          (filter (fun k => negb (String.eqb k h)) disabled))
       EnableHook (HookEnabled h))
    (failed EnableHook).
Proof.
  intros Hn Hne Hd Hin. unfold Exec.enable_hook.
  rewrite Hn, (@truthy_some h Hne), Hd. cbn [negb or_default].
  apply includes_In in Hin. now rewrite Hin.
Qed.

Lemma set_same {A} (o : list (string * A)) k v :
  Obj.own o k = Some v -> Obj.set o k v = o.
Proof.
  induction o as [| [k' v'] o IH]; cbn; [discriminate |].
  destruct (String.eqb k k') eqn:E.
  - intros [= ->]. apply String.eqb_eq in E. now subst k'.
  - intros H. now rewrite (IH H).
Qed.

Lemma filter_out_absent (h : string) (l : list string) :
  ~ In h l -> filter (fun k => negb (String.eqb k h)) l = l.
Proof.
  intros H. apply filter_all. intros x Hx. apply negb_true_iff, String.eqb_neq.
  intros ->. now apply H.
Qed.

Lemma filter_out_gone (h : string) (l : list string) :
  ~ In h (filter (fun k => negb (String.eqb k h)) l).
Proof.
  intros H. apply filter_In in H. destruct H as [_ H].
  now rewrite String.eqb_refl in H.
Qed.

Lemma known_hook_named h : In h KNOWN_HOOKS -> h <> EmptyString.
Proof.
  intros H ->. revert H. apply includes_false. reflexivity.
Qed.

Lemma update_agent_nothing agent d :
  agent_has_keys d = false -> Exec.update_agent agent d = agent.
Proof.
  destruct d as [[|] [|] [|] [|] [|] [|] [|] [|] [|]]; try discriminate.
  intros _. now destruct agent.
Qed.

Lemma with_agents_same cfg entries :
  agents cfg = Some entries -> Exec.with_agents cfg entries = cfg.
Proof. destruct cfg. cbn. now intros ->. Qed.

(** The effects of an accepted mutation whose write goes through: those of
    the backup, then the write of the configuration file. *)
Lemma commit_events o c p config' a r (h : Exn -> M Report) env s :
  faults env (OpWrite p) = false ->
  events (try_catch (commit o c p config' a r) h env s)
  = events (Backup.backupConfigsInternal o c env s) ++ [EWriteJson p].
Proof.
  intros Hw. unfold try_catch, commit, bind.
  destruct (backup_returns o c env s) as [br Hb].
  rewrite Hb. cbn [result final events].
  unfold Fs.writeJsonFile, Fs.emit, Exec.say, ret, bind.
  cbn [result final events]. rewrite Hw. cbn [result final events].
  now rewrite app_nil_r.
Qed.

Lemma execute_commit_events a request options env s cfg occ cfg' rep :
  omo_config s = Some cfg -> oc_config s = Some occ -> archive_readable env s ->
  faults env (OpWrite (resolved OmoFile s)) = false ->
  (forall o c bks,
      Exec.dispatch o c cfg bks (Exec.effective a request options) a
      = try_catch (commit o c o cfg' a rep) (failed a)) ->
  events (Exec.executeAction a request options env s)
  = events (Backup.backupConfigsInternal (resolved OmoFile s) (resolved OcFile s) env s)
      ++ [EWriteJson (resolved OmoFile s)].
Proof.
  intros Ho Hc Ha Hw Hd. rewrite executeAction_run, (load_ok Ho Hc Ha).
  cbn [Exec.l_omoConfigPath Exec.l_ocConfigPath Exec.l_omoConfig Exec.l_existingBackups].
  rewrite Hd. now apply commit_events.
Qed.

End FrameFacts.

Import FrameFacts.

Module Mutations.

(** X18.  Disabling a known hook that is not disabled and then enabling it
    again, when both writes go through, gives back the list of disabled
    hooks as it was (an absent list comes back as the empty list); the
    rest of the document is the same. *)
Theorem disable_then_enable request options request' options' env env' s cfg occ h :
  omo_config s = Some cfg -> oc_config s = Some occ -> archive_readable env s ->
  faults env (OpWrite (resolved OmoFile s)) = false ->
  faults env' (OpWrite (resolved OmoFile s)) = false ->
  faults env' OpReaddir = false ->
  In h KNOWN_HOOKS -> ~ In h (or_default [] (disabled_hooks cfg)) ->
  Exec.field hookName (Exec.effective DisableHook request options) = Some h ->
  Exec.field hookName (Exec.effective EnableHook request' options') = Some h ->
  let s1 := final (Exec.executeAction DisableHook request options env s) in
  let run := Exec.executeAction EnableHook request' options' env' s1 in
  omo_config s1
  = Some (Exec.with_disabled_hooks cfg (or_default [] (disabled_hooks cfg) ++ [h]))
  /\ result run = Ok (mkReport EnableHook (HookEnabled h))
  /\ omo_config (final run)
     = Some (Exec.with_disabled_hooks cfg (or_default [] (disabled_hooks cfg))).
Proof.
  intros Ho Hc Hr Hw Hw' Hl Hk Hd Hn Hn' s1 run.
  set (d := or_default [] (disabled_hooks cfg)) in *.
  destruct (@execute_commit DisableHook request options env s cfg occ
              (Exec.with_disabled_hooks cfg (d ++ [h])) (HookDisabled h)
              Ho Hc Hr Hw) as [_ [Ho1 [Hc1 [_ [mid E1]]]]].
  { intros o c bks. cbn [Exec.dispatch]. now apply disable_hook_commits. }
  fold s1 in Ho1, Hc1. split; [exact Ho1 |].
  assert (P : resolved OmoFile s1 = resolved OmoFile s).
  { subst s1. rewrite executeAction_run, (load_ok Ho Hc Hr).
    cbn [Exec.l_omoConfigPath Exec.l_ocConfigPath Exec.l_omoConfig
         Exec.l_existingBackups Exec.dispatch].
    rewrite (disable_hook_commits _ _ _ _ Hn Hk Hd). fold d.
    assert (L : live (resolved OmoFile s) = true) by (apply live_resolved; now left).
    destruct (@commit_ok (resolved OmoFile s) (resolved OcFile s) (resolved OmoFile s)
                (Exec.with_disabled_hooks cfg (d ++ [h])) DisableHook (HookDisabled h)
                (failed DisableHook) env s L Hw) as [_ [_ [_ [_ [sb [Ls ->]]]]]].
    now apply resolved_omo_put. }
  destruct (@execute_commit EnableHook request' options' env' s1
              (Exec.with_disabled_hooks cfg (d ++ [h])) occ
              (Exec.with_disabled_hooks cfg d) (HookEnabled h)
              Ho1 Hc1 (or_intror Hl)) as [R [Ho2 _]].
  - now rewrite P.
  - intros o c bks. cbn [Exec.dispatch].
    rewrite (@enable_hook_commits o c (Exec.with_disabled_hooks cfg (d ++ [h])) _ h
               (d ++ [h]) Hn' (@known_hook_named h Hk) eq_refl).
    + rewrite filter_app, (@filter_out_absent h d Hd). cbn [filter].
      rewrite String.eqb_refl. cbn [negb]. now rewrite app_nil_r.
    + apply in_or_app. right. now left.
  - split; [exact R | exact Ho2].
Qed.

Lemma disable_then_enable_witness :
  let s1 := final (Exec.executeAction DisableHook "disable hook think-mode" None
                                      here with_oracle) in
  let run := Exec.executeAction EnableHook "enable hook think-mode" None here s1 in
  omo_config s1
  = Some (mkConfig (Some [("oracle", old_oracle); ("scout", empty_agent)])
                   None (Some ["think-mode"]) [])
  /\ result run = Ok (mkReport EnableHook (HookEnabled "think-mode"))
  /\ omo_config (final run)
     = Some (mkConfig (Some [("oracle", old_oracle); ("scout", empty_agent)])
                      None (Some []) []).
Proof.
  intros s1 run.
  apply (@disable_then_enable
           "disable hook think-mode" None "enable hook think-mode" None here here
           with_oracle
           (mkConfig (Some [("oracle", old_oracle); ("scout", empty_agent)])
                     None None [])
           empty_config "think-mode"); try reflexivity.
  - now left.
  - apply includes_In. reflexivity.
  - intros H. exact H.
Defined.

(** X19.  Enable-hook removes every occurrence of the hook from the list
    of disabled hooks and keeps the other names, in their order; agents,
    categories and the other keys of the document are not touched. *)
Theorem enable_hook_removes_every_occurrence
        request options env s cfg occ h disabled :
  omo_config s = Some cfg -> oc_config s = Some occ -> archive_readable env s ->
  faults env (OpWrite (resolved OmoFile s)) = false ->
  Exec.field hookName (Exec.effective EnableHook request options) = Some h ->
  h <> EmptyString ->
  disabled_hooks cfg = Some disabled -> In h disabled ->
  let run := Exec.executeAction EnableHook request options env s in
  exists cfg' disabled',
    omo_config (final run) = Some cfg'
    /\ disabled_hooks cfg' = Some disabled'
    /\ ~ In h disabled'
    /\ disabled' = filter (fun k => negb (String.eqb k h)) disabled
    /\ agents cfg' = agents cfg /\ categories cfg' = categories cfg
    /\ passthrough cfg' = passthrough cfg.
Proof.
  intros Ho Hc Hr Hw Hn Hne Hd Hin run.
  destruct (@execute_commit EnableHook request options env s cfg occ
              (Exec.with_disabled_hooks cfg
                 (filter (fun k => negb (String.eqb k h)) disabled))
              (HookEnabled h) Ho Hc Hr Hw) as [_ [Ho1 _]].
  { intros o c bks. cbn [Exec.dispatch]. now apply enable_hook_commits. }
  eexists. eexists. split; [exact Ho1 |]. split; [reflexivity |].
  split; [apply filter_out_gone |]. repeat split.
Qed.

Lemma enable_hook_removes_every_occurrence_witness :
  let s := store_with (mkConfig None None
                                (Some ["think-mode"; "ralph-loop"; "think-mode"]) []) in
  let run := Exec.executeAction EnableHook "enable hook think-mode" None here s in
  exists cfg' disabled',
    omo_config (final run) = Some cfg'
    /\ disabled_hooks cfg' = Some disabled'
    /\ ~ In "think-mode" disabled'
    /\ disabled' = filter (fun k => negb (String.eqb k "think-mode"))
                          ["think-mode"; "ralph-loop"; "think-mode"]
    /\ agents cfg' = None /\ categories cfg' = None /\ passthrough cfg' = [].
Proof.
  intros s run.
  apply (@enable_hook_removes_every_occurrence
           "enable hook think-mode" None here s
           (mkConfig None None (Some ["think-mode"; "ralph-loop"; "think-mode"]) [])
           empty_config "think-mode" ["think-mode"; "ralph-loop"; "think-mode"]);
    try reflexivity.
  - now left.
  - discriminate.
  - now left.
Defined.

End Mutations.

Module Mutations2.

(** X20.  An add-agent request that is in order and whose write goes
    through changes the entry of that name and nothing else: every other
    agent, the categories, the disabled hooks, the other keys of the
    document and the provider-side configuration are as before; a listing
    of agents made afterwards holds the new name and every name it held
    before. *)
Theorem add_agent_touches_one_entry request options env s cfg occ n :
  omo_config s = Some cfg -> oc_config s = Some occ -> archive_readable env s ->
  faults env (OpWrite (resolved OmoFile s)) = false ->
  Exec.field agentName (Exec.effective AddAgent request options) = Some n ->
  isSafeConfigKey n = true ->
  truthy (a_model (agent_data (Exec.effective AddAgent request options))) = true ->
  Exec.temperature_out_of_range
    (a_temperature (agent_data (Exec.effective AddAgent request options))) = false ->
  let run := Exec.executeAction AddAgent request options env s in
  exists cfg',
    omo_config (final run) = Some cfg'
    /\ Obj.own (or_default [] (agents cfg')) n
       = Some (Exec.new_agent (agent_data (Exec.effective AddAgent request options)))
    /\ (forall k, k <> n ->
                  Obj.own (or_default [] (agents cfg')) k
                  = Obj.own (or_default [] (agents cfg)) k)
    /\ categories cfg' = categories cfg
    /\ disabled_hooks cfg' = disabled_hooks cfg
    /\ passthrough cfg' = passthrough cfg
    /\ oc_config (final run) = Some occ
    /\ (forall request' options' env',
           faults env' OpReaddir = false ->
           exists names,
             result (Exec.executeAction ListAgents request' options' env' (final run))
             = Ok (mkReport ListAgents (Listing names))
             /\ In n names
             /\ incl (Obj.keys (or_default [] (agents cfg))) names).
Proof.
  intros Ho Hc Hr Hw Hn Hs Hm Ht run.
  edestruct (@execute_commit AddAgent request options env s cfg occ)
    as [_ [Ho1 [Hc1 _]]]; try eassumption.
  { intros o c bks. cbn [Exec.dispatch]. eapply add_agent_commits; eassumption. }
  fold run in Ho1, Hc1.
  eexists. split; [exact Ho1 |]. cbn [agents Exec.with_agents or_default].
  split; [apply own_set_same |].
  split; [intros k Hk; now apply own_set_other |].
  do 3 (split; [reflexivity |]). split; [exact Hc1 |].
  intros request' options' env' Hl.
  rewrite executeAction_run, (load_ok Ho1 Hc1 (or_intror Hl)).
  cbn [Exec.l_omoConfigPath Exec.l_ocConfigPath Exec.l_omoConfig
       Exec.l_existingBackups Exec.dispatch Exec.list_agents Exec.say ret result
       agents Exec.with_agents or_default].
  eexists. split; [reflexivity |]. rewrite keys_set_cases.
  destruct (Js.includes (Obj.keys (or_default [] (agents cfg))) n) eqn:E.
  - split; [now apply includes_In | apply incl_refl].
  - split; [apply in_or_app; right; now left | now apply incl_appl, incl_refl].
Qed.

Lemma add_agent_touches_one_entry_witness :
  let request := "add agent debugger with model opencode/gpt-5.2" in
  let run := Exec.executeAction AddAgent request None here with_oracle in
  exists cfg',
    omo_config (final run) = Some cfg'
    /\ Obj.own (or_default [] (agents cfg')) "debugger"
       = Some (Exec.new_agent (agent_data (Exec.effective AddAgent request None)))
    /\ (forall k, k <> "debugger" ->
                  Obj.own (or_default [] (agents cfg')) k
                  = Obj.own [("oracle", old_oracle); ("scout", empty_agent)] k)
    /\ categories cfg' = None
    /\ disabled_hooks cfg' = None
    /\ passthrough cfg' = []
    /\ oc_config (final run) = Some empty_config
    /\ (forall request' options' env',
           faults env' OpReaddir = false ->
           exists names,
             result (Exec.executeAction ListAgents request' options' env' (final run))
             = Ok (mkReport ListAgents (Listing names))
             /\ In "debugger" names
             /\ incl ["oracle"; "scout"] names).
Proof.
  intros request run.
  apply (@add_agent_touches_one_entry request None here with_oracle
           (mkConfig (Some [("oracle", old_oracle); ("scout", empty_agent)])
                     None None [])
           empty_config "debugger"); try reflexivity.
  now left.
Defined.

(** X21.  A modify-agent request on an agent of the document, when the
    write goes through, keeps the names and the order of the agents and
    every other entry.  In the named entry each of model, temperature,
    disable, prompt_append, permission and description takes the value
    the request gives and keeps its old value when the request gives
    none; tools, top_p and maxTokens stay.  The effects of the run are
    those of the backup of both files followed by the one write of the
    configuration file, also for a request that gives no field, which
    leaves the document as it was. *)
Theorem modify_agent_keeps_the_rest request options env s cfg occ n entries agent :
  omo_config s = Some cfg -> oc_config s = Some occ -> archive_readable env s ->
  faults env (OpWrite (resolved OmoFile s)) = false ->
  Exec.field agentName (Exec.effective ModifyAgent request options) = Some n ->
  isSafeConfigKey n = true ->
  Exec.temperature_out_of_range
    (a_temperature (agent_data (Exec.effective ModifyAgent request options))) = false ->
  agents cfg = Some entries -> Obj.own entries n = Some agent ->
  let data := agent_data (Exec.effective ModifyAgent request options) in
  let run := Exec.executeAction ModifyAgent request options env s in
  let backup :=
    Backup.backupConfigsInternal (resolved OmoFile s) (resolved OcFile s) env s in
  exists cfg' entries',
    omo_config (final run) = Some cfg' /\ agents cfg' = Some entries'
    /\ Obj.keys entries' = Obj.keys entries
    /\ Obj.own entries' n = Some (Exec.update_agent agent data)
    /\ (forall k, k <> n -> Obj.own entries' k = Obj.own entries k)
    /\ a_model (Exec.update_agent agent data) = (a_model data ?? a_model agent)
    /\ a_temperature (Exec.update_agent agent data)
       = (a_temperature data ?? a_temperature agent)
    /\ a_disable (Exec.update_agent agent data) = (a_disable data ?? a_disable agent)
    /\ a_prompt_append (Exec.update_agent agent data)
       = (a_prompt_append data ?? a_prompt_append agent)
    /\ a_permission (Exec.update_agent agent data)
       = (a_permission data ?? a_permission agent)
    /\ a_description (Exec.update_agent agent data)
       = (a_description data ?? a_description agent)
    /\ a_tools (Exec.update_agent agent data) = a_tools agent
    /\ a_top_p (Exec.update_agent agent data) = a_top_p agent
    /\ a_maxTokens (Exec.update_agent agent data) = a_maxTokens agent
    /\ events run = events backup ++ [EWriteJson (resolved OmoFile s)]
    /\ (agent_has_keys data = false -> cfg' = cfg).
Proof.
  intros Ho Hc Hr Hw Hn Hs Ht He Hown data run backup.
  assert (D : forall o c bks,
             Exec.dispatch o c cfg bks (Exec.effective ModifyAgent request options)
                           ModifyAgent
             = try_catch
                 (commit o c o
                    (Exec.with_agents cfg (Obj.set entries n (Exec.update_agent agent data)))
                    ModifyAgent
                    (SavedAgent n (Exec.redact_agent (Exec.update_agent agent data))))
                 (failed ModifyAgent)).
  { intros o c bks. cbn [Exec.dispatch]. eapply modify_agent_commits; eassumption. }
  destruct (@execute_commit ModifyAgent request options env s cfg occ _ _
                            Ho Hc Hr Hw D) as [_ [Ho1 _]].
  pose proof (@execute_commit_events ModifyAgent request options env s cfg occ _ _
                                     Ho Hc Hr Hw D) as Hev.
  fold run in Ho1, Hev. fold backup in Hev.
  eexists. eexists. split; [exact Ho1 |]. split; [reflexivity |].
  split; [now apply keys_set_existing with (old := agent) |].
  split; [apply own_set_same |].
  split; [intros k Hk; now apply own_set_other |].
  do 9 (split; [reflexivity |]).
  split; [exact Hev |].
  intros Hnone.
  rewrite (@update_agent_nothing agent data Hnone), (@set_same _ entries n agent Hown).
  now apply with_agents_same.
Qed.

Lemma modify_agent_keeps_the_rest_witness :
  let cfg := mkConfig (Some [("oracle", old_oracle); ("scout", empty_agent)])
                      None None [] in
  let run := Exec.executeAction ModifyAgent "modify agent oracle set temperature to 0.3"
                                None here with_oracle in
  let idle := Exec.executeAction ModifyAgent "modify agent oracle" None here with_oracle in
  (exists cfg' entries' agent',
      omo_config (final run) = Some cfg' /\ agents cfg' = Some entries'
      /\ Obj.keys entries' = ["oracle"; "scout"]
      /\ Obj.own entries' "oracle" = Some agent'
      /\ Obj.own entries' "scout" = Some empty_agent
      /\ a_temperature agent' = Some (Fin (3 # 10))
      /\ a_model agent' = a_model old_oracle
      /\ a_tools agent' = a_tools old_oracle)
  /\ (omo_config (final idle) = Some cfg
      /\ events idle
         = events (Backup.backupConfigsInternal (OmoFile DotJson) (OcFile DotJson)
                                                here with_oracle)
             ++ [EWriteJson (OmoFile DotJson)]).
Proof.
  intros cfg run idle. split.
  - destruct (@modify_agent_keeps_the_rest
                "modify agent oracle set temperature to 0.3" None here with_oracle
                cfg empty_config "oracle"
                [("oracle", old_oracle); ("scout", empty_agent)] old_oracle)
      as [cfg' [entries' [H1 [H2 [H3 [H4 [H5 [H6 [H7 [_ [_ [_ [_ [H12 _]]]]]]]]]]]]]];
      try reflexivity; [now left |].
    exists cfg', entries'. eexists.
    split; [exact H1 |]. split; [exact H2 |]. split; [exact H3 |].
    split; [exact H4 |]. split; [apply H5; discriminate |].
    split; [exact H7 |]. split; [exact H6 | exact H12].
  - destruct (@modify_agent_keeps_the_rest
                "modify agent oracle" None here with_oracle
                cfg empty_config "oracle"
                [("oracle", old_oracle); ("scout", empty_agent)] old_oracle)
      as [cfg' [entries' [H1 [_ [_ [_ [_ [_ [_ [_ [_ [_ [_ [_ [_ [_ [H15 H16]]]]]]]]]]]]]]]]];
      try reflexivity; [now left |].
    split; [| exact H15].
    unfold idle. rewrite H1. f_equal. apply H16. reflexivity.
Defined.

End Mutations2.

(* ================================================================== *)
(** * The classifier: which rule wins *)

Module ClassifierFacts.

(** The actions that write no configuration file. *)
Lemma no_config_write o c cfg bks eo a :
  In a before_restore ->
  forall env s,
    config_writes (events (Exec.dispatch o c cfg bks eo a env s)) = []
    /\ same_live s (final (Exec.dispatch o c cfg bks eo a env s)).
Proof.
  intros Ha env s.
  assert (S : read_only a = true \/ a = BackupConfigs).
  { cbn in Ha. repeat (destruct Ha as [<- | Ha]; [auto |]). contradiction. }
  destruct S as [S | ->].
  - destruct (@silent_read_only o c cfg bks eo a S env s) as [-> ->].
    split; [reflexivity | apply same_live_refl].
  - cbn [Exec.dispatch]. unfold Exec.backup_configs, Exec.backup, bind.
    destruct (backup_returns o c env s) as [r Hr]. rewrite Hr.
    destruct (backup_events o c env s) as [rest [E F]].
    assert (L : same_live s (final (Backup.backupConfigsInternal o c env s)))
      by apply archival_backup.
    destruct r as [x y | e]; cbn [Exec.say ret result final events];
      rewrite E, app_nil_r; (split; [| exact L]);
      change (config_writes rest = []); now apply config_writes_archive.
Qed.

End ClassifierFacts.

Import ClassifierFacts.

Module Classifying.

(** X22.  A request with a word that begins with [backup] is never
    classified as a restoration or a comparison: the backup rule stands
    before theirs.  Through the tool such a request, for one
    [restore backup 2], writes no configuration file and leaves all four
    as they are. *)
Theorem backup_word_shadows_restore request env s :
  mentions request "backup" = true ->
  In (Classifier.parseAction request) before_restore
  /\ config_writes (events (Exec.handle request env s)) = []
  /\ same_live s (final (Exec.handle request env s)).
Proof.
  intros Hb.
  assert (A : In (Classifier.parseAction request) before_restore).
  { unfold Classifier.parseAction. cbv zeta. unfold mentions in Hb. rewrite Hb.
    unfold before_restore.
    repeat match goal with
           | |- In (if ?b then _ else _) _ => destruct b
           end; cbn; tauto. }
  split; [exact A |]. unfold Exec.handle. rewrite executeAction_run.
  destruct (result (Exec.load env s)) as [l | e].
  - now apply no_config_write.
  - split; [reflexivity | apply same_live_refl].
Qed.

Lemma backup_word_shadows_restore_witness :
  In (Classifier.parseAction "restore backup 2") before_restore
  /\ config_writes (events (Exec.handle "restore backup 2" here full_archive)) = []
  /\ same_live full_archive (final (Exec.handle "restore backup 2" here full_archive)).
Proof. apply backup_word_shadows_restore. reflexivity. Defined.

(** X23.  A request is classified as one of the six mutating actions only
    when none of its words (the pieces between white space, in lower
    case) begins with update, diagnostic, valid, check, backup, restore,
    compare, diff, permission or perm: the rules of those words stand
    before the rules of the mutating actions. *)
Theorem mutating_requests_avoid_earlier_words request :
  mutating (Classifier.parseAction request) = true ->
  forall w, In w earlier_words -> mentions request w = false.
Proof.
  unfold Classifier.parseAction, mentions. cbv zeta.
  set (hasWord := Classifier.hasWordIn (Classifier.words_of request)).
  intros H.
  do 4 match type of H with
       | mutating (if ?b then _ else _) = true => destruct b; [discriminate H |]
       end.
  destruct (hasWord "update") eqn:U; [discriminate H |]. cbn [orb andb negb] in H.
  rewrite andb_false_r in H. cbn [orb] in H.
  destruct (hasWord "diagnostic") eqn:D; [discriminate H |]. cbn [orb andb] in H.
  rewrite andb_false_r in H.
  destruct (hasWord "valid") eqn:V; [discriminate H |]. cbn [orb andb] in H.
  rewrite andb_true_r in H.
  destruct (hasWord "check") eqn:C; [discriminate H |].
  destruct (hasWord "backup") eqn:B; [discriminate H |].
  destruct (hasWord "restore") eqn:R; [discriminate H |].
  destruct (hasWord "compare") eqn:Cm; [discriminate H |]. cbn [orb] in H.
  destruct (hasWord "diff") eqn:Df; [discriminate H |].
  destruct (hasWord "permission") eqn:P; [discriminate H |]. cbn [orb] in H.
  destruct (hasWord "perm") eqn:Pm; [discriminate H |].
  intros w Hw. cbn in Hw.
  repeat (destruct Hw as [<- | Hw]; [assumption |]). contradiction.
Qed.

Lemma mutating_requests_avoid_earlier_words_witness :
  let request := "add agent debugger with model opencode/gpt-5.2" in
  mutating (Classifier.parseAction request) = true
  /\ mentions request "backup" = false
  /\ mentions request "perm" = false.
Proof.
  intros request. split; [reflexivity |].
  split; apply (@mutating_requests_avoid_earlier_words request eq_refl);
    cbn; tauto.
Defined.

End Classifying.

(* ================================================================== *)
(** * The parameter extractor: what a request text can yield *)

Import Matching.

Module MatchingFacts.

Import Regex Matching.

Lemma rep_sound p :
  forall inp lo hi prev caps k res,
    rep p lo hi prev inp caps k = Some res ->
    exists pre inp' prev',
      inp = pre ++ inp' /\ forallb p pre = true /\ lo <= List.length pre
      /\ match hi with Some h => List.length pre <= h | None => True end
      /\ k prev' inp' caps = Some res.
Proof.
  induction inp as [| c rest IH]; intros lo hi prev caps k res H.
  - cbn in H. destruct lo; [| discriminate].
    exists [], [], prev. repeat split; auto. destruct hi; cbn; lia.
  - cbn [rep] in H.
    assert (Stop : match lo with 0 => k prev (c :: rest) caps | S _ => None end = Some res ->
                   exists pre inp' prev',
                     c :: rest = pre ++ inp' /\ forallb p pre = true
                     /\ lo <= List.length pre
                     /\ match hi with Some h => List.length pre <= h | None => True end
                     /\ k prev' inp' caps = Some res).
    { intros S. destruct lo; [| discriminate].
      exists [], (c :: rest), prev. repeat split; auto. destruct hi; cbn; lia. }
    destruct (p c && match hi with Some 0 => false | _ => true end) eqn:E;
      [| now apply Stop].
    destruct (rep p (pred lo) (option_map pred hi) (Some c) rest caps k) as [r |] eqn:R;
      [| now apply Stop].
    injection H as <-. apply IH in R.
    destruct R as [pre [inp' [prev' [E1 [E2 [E3 [E4 E5]]]]]]].
    apply andb_true_iff in E. destruct E as [Pc Hh].
    exists (c :: pre), inp', prev'. cbn [forallb List.length app].
    rewrite Pc, E2, E1. repeat split; auto; [lia |].
    destruct hi as [[| h] |]; cbn in *; try discriminate; lia.
Qed.

Lemma run_sound :
  forall r prev inp caps k res,
    run r prev inp caps k = Some res ->
    exists prev' inp' caps',
      matches r inp inp' caps caps' /\ k prev' inp' caps' = Some res.
Proof.
  induction r as [| p | a IHa b IHb | a IHa b IHb | p lo hi | | i a IHa];
    intros prev inp caps k res H; cbn [run] in H.
  - exists prev, inp, caps. now repeat split.
  - destruct inp as [| c rest]; [discriminate |].
    destruct (p c) eqn:Pc; [| discriminate].
    exists (Some c), rest, caps. split; [| exact H]. exists c. now repeat split.
  - apply IHa in H. destruct H as [p1 [mid [capsm [Ma H]]]].
    apply IHb in H. destruct H as [p2 [inp' [caps' [Mb H]]]].
    exists p2, inp', caps'. split; [| exact H]. now exists mid, capsm.
  - destruct (run a prev inp caps k) as [r |] eqn:Ra.
    + injection H as <-. apply IHa in Ra.
      destruct Ra as [p1 [inp' [caps' [Ma H]]]].
      exists p1, inp', caps'. split; [now left | exact H].
    + apply IHb in H. destruct H as [p1 [inp' [caps' [Mb H]]]].
      exists p1, inp', caps'. split; [now right | exact H].
  - apply rep_sound in H.
    destruct H as [pre [inp' [prev' [E1 [E2 [E3 [E4 E5]]]]]]].
    exists prev', inp', caps. split; [| exact E5]. exists pre. now repeat split.
  - destruct (boundary prev inp); [| discriminate].
    exists prev, inp, caps. now repeat split.
  - apply IHa in H. destruct H as [p1 [inp' [capsa [Ma H]]]].
    eexists p1, inp', _. split; [| exact H]. exists capsa. now split.
Qed.

Lemma search_sound r :
  forall inp prev caps,
    search_from r prev inp = Some caps ->
    exists inp0 inp', matches r inp0 inp' [] caps.
Proof.
  induction inp as [| c rest IH]; intros prev caps H; cbn [search_from] in H.
  - destruct (run r prev [] [] (fun _ _ caps => Some caps)) as [x |] eqn:R;
      [| discriminate].
    injection H as <-. apply run_sound in R.
    destruct R as [p1 [inp' [caps' [M [= <-]]]]]. now exists [], inp'.
  - destruct (run r prev (c :: rest) [] (fun _ _ caps => Some caps)) as [x |] eqn:R.
    + injection H as <-. apply run_sound in R.
      destruct R as [p1 [inp' [caps' [M [= <-]]]]]. now exists (c :: rest), inp'.
    + now apply IH in H.
Qed.

Lemma matches_suffix :
  forall r inp inp' caps caps',
    matches r inp inp' caps caps' -> exists pre, inp = pre ++ inp'.
Proof.
  induction r as [| p | a IHa b IHb | a IHa b IHb | p lo hi | | i a IHa];
    intros inp inp' caps caps' H; cbn [matches] in H.
  - destruct H as [-> _]. now exists [].
  - destruct H as [c [-> _]]. now exists [c].
  - destruct H as [mid [capsm [Ha Hb]]].
    apply IHa in Ha. apply IHb in Hb. destruct Ha as [p1 ->]. destruct Hb as [p2 ->].
    exists (p1 ++ p2). now rewrite app_assoc.
  - destruct H as [H | H]; [now apply IHa in H | now apply IHb in H].
  - destruct H as [pre [-> _]]. now exists pre.
  - destruct H as [-> _]. now exists [].
  - destruct H as [capsa [H _]]. now apply IHa in H.
Qed.

Lemma matches_free :
  forall r inp inp' caps caps',
    capture_free r = true -> matches r inp inp' caps caps' -> caps' = caps.
Proof.
  induction r as [| p | a IHa b IHb | a IHa b IHb | p lo hi | | i a IHa];
    intros inp inp' caps caps' F H; cbn [matches capture_free] in *.
  - apply H.
  - destruct H as [c [_ [_ H]]]. exact H.
  - apply andb_true_iff in F. destruct F as [Fa Fb].
    destruct H as [mid [capsm [Ha Hb]]].
    apply (IHa _ _ _ _ Fa) in Ha. apply (IHb _ _ _ _ Fb) in Hb. congruence.
  - apply andb_true_iff in F. destruct F as [Fa Fb].
    destruct H as [H | H]; [now apply (IHa _ _ _ _ Fa) in H | now apply (IHb _ _ _ _ Fb) in H].
  - destruct H as [pre [_ [_ [_ [_ H]]]]]. exact H.
  - apply H.
  - discriminate.
Qed.

Lemma lit_i_free s : capture_free (lit_i s) = true.
Proof. induction s; cbn; auto. Qed.

Lemma lit_free s : capture_free (lit s) = true.
Proof. induction s; cbn; auto. Qed.

(** What a group that holds a capture-free pattern records. *)
Lemma matches_cap i a inp inp' caps caps' :
  capture_free a = true ->
  matches (Cap i a) inp inp' caps caps' ->
  exists pre,
    inp = pre ++ inp' /\ matches a (pre ++ inp') inp' caps caps
    /\ caps' = (i, string_of_list_ascii pre) :: caps.
Proof.
  intros F [capsa [M ->]].
  pose proof (matches_free _ _ _ _ _ F M) as ->.
  destruct (matches_suffix _ _ _ _ _ M) as [pre ->].
  exists pre. split; [reflexivity |]. split; [exact M |].
  rewrite length_app, Nat.add_sub, firstn_app, Nat.sub_diag, firstn_all, firstn_O.
  now rewrite app_nil_r.
Qed.

(** A match of the key pattern is a letter or digit and at most 63 key
    characters. *)
Lemma matches_key pre inp' caps caps' :
  matches key_re (pre ++ inp') inp' caps caps' -> key_shaped (string_of_list_ascii pre).
Proof.
  unfold key_re. cbn [matches]. intros [mid [capsm [[c [E [Pc _]]] [p [E' [Fp [_ [L _]]]]]]]].
  subst mid. assert (P : pre = c :: p).
  { apply (app_inv_tail inp'). now rewrite E. }
  subst pre. unfold key_shaped, full_match.
  rewrite list_ascii_of_string_of_list_ascii. cbn [run key_re]. rewrite Pc.
  rewrite JsFacts.rep_at_end, Fp. cbn [andb]. now apply Nat.leb_le.
Qed.

End MatchingFacts.

Module ExtractFacts.

Import Regex MatchingFacts.

Lemma exec_sound r s caps :
  exec r s = Some caps -> exists inp0 inp', matches r inp0 inp' [] caps.
Proof. unfold exec. apply search_sound. Qed.

Lemma matches_seq_free a b inp inp' caps caps' :
  capture_free a = true -> matches (Seq a b) inp inp' caps caps' ->
  exists mid, matches b mid inp' caps caps'.
Proof.
  intros F [mid [capsm [Ha Hb]]]. apply (matches_free _ _ _ _ _ F) in Ha.
  subst capsm. now exists mid.
Qed.

Lemma matches_seq_cap i a b inp inp' caps caps' :
  capture_free a = true -> capture_free b = true ->
  matches (Seq (Cap i a) b) inp inp' caps caps' ->
  exists pre rest,
    matches a (pre ++ rest) rest caps caps
    /\ caps' = (i, string_of_list_ascii pre) :: caps.
Proof.
  intros Fa Fb [mid [capsm [Ha Hb]]]. apply (matches_free _ _ _ _ _ Fb) in Hb.
  subst caps'. apply matches_cap in Ha; [| exact Fa].
  destruct Ha as [pre [-> [M ->]]]. now exists pre, mid.
Qed.

(** Steps over the capture-free items at the head of a sequence. *)
Ltac skip_free H :=
  repeat (apply matches_seq_free in H;
          [destruct H as [? H]
          | first [reflexivity | apply lit_i_free | apply lit_free]]).

Lemma key_after_shaped request word k :
  extractKeyAfterWord request word = Some k -> key_shaped k.
Proof.
  unfold extractKeyAfterWord, captured.
  match goal with
  | |- context [exec ?r request] => destruct (exec r request) as [caps |] eqn:E
  end; [| discriminate].
  apply exec_sound in E. destruct E as [inp0 [inp' H]]. cbn [seqs] in H.
  skip_free H.
  apply matches_seq_cap in H; [| reflexivity | reflexivity].
  destruct H as [pre [rest [M ->]]]. cbn [group Nat.eqb].
  intros [= <-]. now apply matches_key in M.
Qed.

Lemma key_before_shaped request word k :
  extractKeyBeforeWord request word = Some k -> key_shaped k.
Proof.
  unfold extractKeyBeforeWord, captured.
  match goal with
  | |- context [exec ?r request] => destruct (exec r request) as [caps |] eqn:E
  end; [| discriminate].
  apply exec_sound in E. destruct E as [inp0 [inp' H]]. cbn [seqs] in H.
  apply matches_seq_free in H; [destruct H as [? H] | reflexivity].
  apply matches_seq_cap in H; [| reflexivity |].
  - destruct H as [pre [rest [M ->]]]. cbn [group Nat.eqb].
    intros [= <-]. now apply matches_key in M.
  - cbn [capture_free]. now rewrite lit_i_free.
Qed.

Lemma known_hooks_shaped h : In h KNOWN_HOOKS -> key_shaped h.
Proof.
  assert (K : forallb (full_match key_re) KNOWN_HOOKS = true) by reflexivity.
  rewrite forallb_forall in K. apply K.
Qed.

Lemma hook_name_shaped request h :
  extractHookName request = Some h -> key_shaped h.
Proof.
  unfold extractHookName.
  destruct (extractKeyAfterWord request "hook") as [[| c rest] |] eqn:E.
  - intros F. apply find_some in F. now apply known_hooks_shaped.
  - intros [= <-]. now apply key_after_shaped in E.
  - intros F. apply find_some in F. now apply known_hooks_shaped.
Qed.

Lemma orElse_some {A} (x y : option A) v :
  (x ?? y) = Some v -> x = Some v \/ y = Some v.
Proof. destruct x; cbn; auto. Qed.

Lemma keep_some s v : keep s = Some v -> s = Some v.
Proof. unfold keep. now destruct (truthy s). Qed.

(** A text the key pattern matches passes the safety check unless it is
    reserved. *)
Lemma shaped_safe k : key_shaped k -> isSafeConfigKey k = false -> reserved k.
Proof.
  unfold key_shaped, reserved. intros S H. destruct k as [| c rest]; [discriminate |].
  unfold isSafeConfigKey in H.
  destruct (Js.includes FORBIDDEN_KEYS (Js.toLowerCase (String c rest))) eqn:I;
    [now apply includes_In | congruence].
Qed.

Lemma digits_bounds s :
  forall acc,
    (0 <= acc)%Z -> forallb Js.is_digit (list_ascii_of_string s) = true ->
    (0 <= Num.digits acc s < (acc + 1) * 10 ^ Z.of_nat (String.length s))%Z.
Proof.
  induction s as [| c s IH]; intros acc Ha Hd.
  - cbn. lia.
  - cbn [list_ascii_of_string forallb] in Hd. apply andb_true_iff in Hd.
    destruct Hd as [Hc Hs]. cbn [Num.digits String.length].
    assert (D : (0 <= Z.of_nat (Js.code c - 48) <= 9)%Z).
    { unfold Js.is_digit, Js.between in Hc. apply andb_true_iff in Hc.
      destruct Hc as [L U]. apply Nat.leb_le in L, U. lia. }
    specialize (IH (10 * acc + Z.of_nat (Js.code c - 48))%Z ltac:(lia) Hs).
    rewrite Nat2Z.inj_succ, Z.pow_succ_r by lia. nia.
Qed.

Lemma digits_nonneg s : forall acc, (0 <= acc)%Z -> (0 <= Num.digits acc s)%Z.
Proof.
  induction s as [| c s IH]; intros acc Ha; cbn [Num.digits]; [exact Ha |].
  apply IH. lia.
Qed.

End ExtractFacts.

Import MatchingFacts ExtractFacts.

Module Extracting.

(** X24.  Every agent, category or hook name that
    [inferOptionsFromRequest] takes from a request matches the key
    pattern, a letter or digit followed by at most 63 letters, digits,
    hyphens or underscores; the safety check therefore refuses it only
    when it is one of the reserved words. *)
Theorem inferred_names_are_key_shaped action request n :
  agentName (inferOptionsFromRequest action request) = Some n
  \/ categoryName (inferOptionsFromRequest action request) = Some n
  \/ hookName (inferOptionsFromRequest action request) = Some n ->
  key_shaped n /\ (isSafeConfigKey n = false -> reserved n).
Proof.
  intros H. assert (S : key_shaped n).
  { unfold inferOptionsFromRequest in H.
    cbn [agentName categoryName hookName] in H.
    destruct H as [H | [H | H]]; apply keep_some in H.
    - repeat (apply orElse_some in H; destruct H as [H | H]);
        first [now apply key_after_shaped in H | now apply key_before_shaped in H].
    - repeat (apply orElse_some in H; destruct H as [H | H]);
        first [now apply key_after_shaped in H | now apply key_before_shaped in H].
    - now apply hook_name_shaped in H. }
  split; [exact S | now apply shaped_safe].
Qed.

Lemma inferred_names_are_key_shaped_witness :
  let request := "add agent Constructor with model opencode/gpt-5.2" in
  agentName (inferOptionsFromRequest AddAgent request) = Some "Constructor"
  /\ key_shaped "Constructor"
  /\ (isSafeConfigKey "Constructor" = false -> reserved "Constructor").
Proof.
  intros request.
  assert (H : agentName (inferOptionsFromRequest AddAgent request) = Some "Constructor")
    by (vm_compute; reflexivity).
  split; [exact H |].
  apply (@inferred_names_are_key_shaped AddAgent request "Constructor").
  left. exact H.
Defined.

(** X25.  A backup number taken from the text of a request is a whole
    number from 0 to 999, and a temperature taken from the text of a
    request is a finite number that is not negative: a sign is never read,
    and a run of digits too long for a finite number yields no
    temperature. *)
Theorem numbers_from_text_are_bounded request :
  (forall n, extractFirstInt request = Some n ->
             exists k, n = Num.of_nat k /\ k <= 999)
  /\ (forall t, extractTemperature request = Some t ->
                exists q, t = Fin q /\ (0 <= q)%Q).
Proof.
  split.
  - intros n. unfold extractFirstInt, Regex.captured.
    match goal with
    | |- context [Regex.exec ?r request] =>
        destruct (Regex.exec r request) as [caps |] eqn:E
    end; [| discriminate].
    apply exec_sound in E. destruct E as [inp0 [inp' H]]. cbn [Regex.seqs] in H.
    apply matches_seq_free in H; [destruct H as [mid H] | reflexivity].
    apply matches_seq_cap in H; [| reflexivity | reflexivity].
    destruct H as [pre [rest [M ->]]]. cbn [Regex.group Nat.eqb].
    unfold finite, Num.parseInt. cbn [Num.isFinite].
    intros [= <-]. cbn [matches] in M.
    destruct M as [pre' [E [F [L1 [L3 _]]]]]. apply app_inv_tail in E. subst pre'.
    pose proof (@digits_bounds (string_of_list_ascii pre) 0%Z ltac:(lia)) as B.
    rewrite list_ascii_of_string_of_list_ascii in B. specialize (B F).
    rewrite <- length_chars, list_ascii_of_string_of_list_ascii in B.
    exists (Z.to_nat (Num.digits 0 (string_of_list_ascii pre))).
    unfold Num.of_nat. split.
    + now rewrite Z2Nat.id by lia.
    + assert (P : (10 ^ Z.of_nat (List.length pre) <= 10 ^ 3)%Z)
        by (apply Z.pow_le_mono_r; lia).
      lia.
  - intros t. unfold extractTemperature.
    match goal with
    | |- match ?m with _ => _ end = _ -> _ => destruct m as [s |]
    end; [| discriminate].
    unfold finite, Num.parseFloat.
    destruct (Num.split_dot "" s) as [ip fp].
    match goal with
    | |- context [Qle_bool ?a ?b] => destruct (Qle_bool a b)
    end; cbn [Num.isFinite]; [discriminate |].
    intros [= <-]. eexists. split; [reflexivity |].
    assert (N : (0 <= Num.digits (Num.digits 0 ip) fp)%Z)
      by (apply digits_nonneg, digits_nonneg; lia).
    unfold Qle. cbn [Qnum Qden]. lia.
Qed.

Lemma long_digit_runs_overflow :
  extractTemperature ("temperature 1" ++ repeat_char "0" 309) = None
  /\ extractTemperature ("temperature 1" ++ repeat_char "0" 308)
     = Some (Fin (inject_Z (10 ^ 308))).
Proof. vm_compute. split; reflexivity. Qed.

End Extracting.

(* ================================================================== *)
(** * The comparison with a backup *)

Module KeyFacts.

Lemma own_keys {A} (o : list (string * A)) k :
  In k (Obj.keys o) <-> Obj.own o k <> None.
Proof.
  induction o as [| [k' v] o IH]; cbn.
  - split; [contradiction | congruence].
  - destruct (String.eqb k k') eqn:E.
    + apply String.eqb_eq in E. subst k'. split; [discriminate | now left].
    + apply String.eqb_neq in E. rewrite <- IH. split.
      * intros [H | H]; [congruence | exact H].
      * now right.
Qed.

End KeyFacts.

Import KeyFacts.

Module CompareFacts.

Import Compare.

Lemma has_spec {A} (o : list (string * A)) k :
  has o k = true <-> In k (Obj.keys o) \/ In k Obj.prototype_members.
Proof.
  unfold has, Obj.get. rewrite own_keys.
  destruct (Obj.own o k) as [v |].
  - split; [intros _; left; discriminate | reflexivity].
  - destruct (Js.includes Obj.prototype_members k) eqn:I.
    + split; [intros _; right; now apply includes_In | reflexivity].
    + apply includes_false in I. split; [discriminate |].
      intros [H | H]; [congruence | contradiction].
Qed.

Lemma missing_from_spec {A} (a b : list (string * A)) k :
  In k (missing_from a b)
  <-> In k (Obj.keys a) /\ ~ In k (Obj.keys b) /\ ~ In k Obj.prototype_members.
Proof.
  unfold missing_from. rewrite filter_In, negb_true_iff.
  assert (H : has b k = false
              <-> ~ (In k (Obj.keys b) \/ In k Obj.prototype_members)).
  { rewrite <- has_spec. destruct (has b k); split; congruence. }
  rewrite H. tauto.
Qed.

Lemma missing_from_self {A} (a : list (string * A)) : missing_from a a = [].
Proof.
  unfold missing_from. apply SweepFacts.filter_none. intros k Hk.
  apply negb_false_iff, has_spec. now left.
Qed.

End CompareFacts.

Import CompareFacts.

Module Comparing.

Import Compare.

(** X26.  The comparison reports an agent as added exactly when the
    current document has an entry of that name, the backup has none, and
    the name is not a member of [Object.prototype]: an agent called
    [toString] or [valueOf] is never reported as added or removed.  No
    name is reported both as added and as removed, and a document
    compared with itself has no added and no removed agent. *)
Theorem added_and_removed_agents (omoConfig backupData : Config) :
  (forall k,
      In k (addedAgents omoConfig backupData)
      <-> In k (Obj.keys (curAgents omoConfig))
          /\ ~ In k (Obj.keys (bakAgents backupData))
          /\ ~ In k Obj.prototype_members)
  /\ (forall k,
         In k (removedAgents omoConfig backupData)
         <-> In k (Obj.keys (bakAgents backupData))
             /\ ~ In k (Obj.keys (curAgents omoConfig))
             /\ ~ In k Obj.prototype_members)
  /\ (forall k, In k (addedAgents omoConfig backupData) ->
                ~ In k (removedAgents omoConfig backupData))
  /\ addedAgents omoConfig omoConfig = []
  /\ removedAgents omoConfig omoConfig = [].
Proof.
  split; [intros k; apply missing_from_spec |].
  split; [intros k; apply missing_from_spec |].
  split.
  - intros k Ha Hr. apply missing_from_spec in Ha. apply missing_from_spec in Hr.
    tauto.
  - split; apply missing_from_self.
Qed.

End Comparing.

(* ================================================================== *)
(** * The list of backups *)

Module OrderingFacts.

Import Ordering.

Lemma ascending_cons y l :
  ascending (y :: l)
  <-> match l with [] => True | z :: _ => String.leb y z = true end /\ ascending l.
Proof. destruct l; cbn; tauto. Qed.

Lemma insert_ascending x l : ascending l -> ascending (Fs.insert_sorted x l).
Proof.
  induction l as [| y r IH]; intros H; cbn [Fs.insert_sorted]; [exact I |].
  destruct (String.leb x y) eqn:E.
  - cbn [ascending]. now split.
  - assert (Hyx : String.leb y x = true)
      by (destruct (String.leb_total x y) as [T | T]; congruence).
    apply ascending_cons in H. destruct H as [Hb Hr].
    apply ascending_cons. split; [| now apply IH].
    destruct r as [| z r']; cbn [Fs.insert_sorted]; [exact Hyx |].
    now destruct (String.leb x z).
Qed.

Lemma sort_ascending l : ascending (Fs.sort l).
Proof.
  unfold Fs.sort. induction l as [| x l IH]; cbn [fold_right]; [exact I |].
  now apply insert_ascending.
Qed.

Lemma descending_snoc m b a :
  descending (m ++ [b]) -> String.leb a b = true -> descending ((m ++ [b]) ++ [a]).
Proof.
  induction m as [| c m IH]; intros H Hab.
  - cbn. now split.
  - destruct m as [| d m'].
    + cbn in *. repeat split; auto. apply H.
    + cbn [app descending] in *. destruct H as [Hdc H]. split; [exact Hdc |].
      now apply IH.
Qed.

Lemma rev_descending l : ascending l -> descending (rev l).
Proof.
  induction l as [| a l IH]; intros H; [exact I |].
  destruct l as [| b l']; [exact I |].
  cbn [ascending] in H. destruct H as [Hab H]. specialize (IH H).
  cbn [rev] in *. now apply descending_snoc.
Qed.

Lemma descending_cons y l :
  descending (y :: l)
  <-> match l with [] => True | z :: _ => String.leb z y = true end /\ descending l.
Proof. destruct l; cbn; tauto. Qed.

Lemma firstn_descending n : forall l, descending l -> descending (firstn n l).
Proof.
  induction n as [| n IH]; intros l H; [exact I |].
  destruct l as [| a l]; [exact I |]. cbn [firstn].
  apply descending_cons in H. destruct H as [Hb H].
  apply descending_cons. split; [| now apply IH].
  destruct l as [| b l']; [now destruct n |]. now destruct n.
Qed.

End OrderingFacts.

Import OrderingFacts.

Module Listing.

Import Ordering.

(** X27.  [listBackups(limit)] changes nothing and attempts no effect.
    Without an archive directory it gives the empty list; with one, when
    the directory cannot be read it throws, and otherwise it gives at most
    [limit] names, every one the name of an entry of the archive that
    begins with one of the two backup prefixes, each name at least its
    successor by code units. *)
Theorem listBackups_gives limit env s :
  final (Fs.listBackups limit env s) = s
  /\ events (Fs.listBackups limit env s) = []
  /\ (archive s = None -> result (Fs.listBackups limit env s) = Ok [])
  /\ (archive s <> None -> faults env OpReaddir = true ->
      result (Fs.listBackups limit env s) = Throw (IoError OpReaddir))
  /\ (forall names,
         result (Fs.listBackups limit env s) = Ok names ->
         List.length names <= limit
         /\ descending names
         /\ forall name, In name names ->
                         Fs.is_backup_name name = true
                         /\ Fs.read s (ArchiveFile name) <> None).
Proof.
  split; [apply MonadFacts.silent_listBackups |].
  split; [apply MonadFacts.silent_listBackups |].
  unfold Fs.listBackups. destruct (archive s) as [entries |] eqn:A.
  - split; [discriminate |]. split; [intros _ ->; reflexivity |].
    destruct (faults env OpReaddir); [discriminate |].
    intros names [= <-]. split; [apply firstn_le_length |].
    split; [apply firstn_descending, rev_descending, sort_ascending |].
    intros name H.
    assert (H' : In name (filter Fs.is_backup_name (Obj.keys entries))).
    { apply (Permutation_in _ (sort_perm _)), in_rev.
      rewrite <- (firstn_skipn limit (rev _)). apply in_or_app. left. exact H. }
    apply filter_In in H'. destruct H' as [K B]. split; [exact B |].
    cbn [Fs.read]. rewrite A. now apply own_keys.
  - split; [reflexivity |]. split; [congruence |].
    intros names [= <-]. repeat split; [cbn; lia | contradiction | contradiction].
Qed.

End Listing.

(* ================================================================== *)
(** * The front matter of a skill *)

Module SkillFacts.

Import Regex Skills.
Local Open Scope string_scope.

(** A greedy repetition takes a whole run of its class when the rest of
    the pattern accepts what follows the run. *)
Lemma rep_greedy p (k : Cont) rest caps res :
  match rest with c :: _ => p c = false | [] => True end ->
  (forall prev, k prev rest caps = Some res) ->
  forall pre lo prev,
    forallb p pre = true -> lo <= List.length pre ->
    rep p lo None prev (pre ++ rest)%list caps k = Some res.
Proof.
  intros Hr Hk. induction pre as [| c pre IH]; intros lo prev Hp Hl.
  - cbn in Hl. assert (lo = 0) by lia. subst lo. cbn [app].
    destruct rest as [| c rest']; cbn [rep]; [apply Hk |].
    rewrite Hr. cbn. apply Hk.
  - cbn [forallb] in Hp. apply andb_true_iff in Hp. destruct Hp as [Hc Hp].
    cbn [app rep]. rewrite Hc. cbn [andb option_map].
    rewrite IH; [reflexivity | exact Hp | cbn in Hl; lia].
Qed.

Lemma firstn_taken (A : Type) (pre rest : list A) :
  firstn (List.length (pre ++ rest)%list - List.length rest) (pre ++ rest)%list = pre.
Proof.
  rewrite length_app.
  replace (List.length pre + List.length rest - List.length rest) with (List.length pre + 0) by lia.
  rewrite firstn_app_2. cbn. apply app_nil_r.
Qed.

Lemma string_of_chars s : string_of_list_ascii (chars s) = s.
Proof. apply string_of_list_ascii_of_string. Qed.

Lemma blank_space ws : made_of blank ws -> forallb Js.is_space (chars ws) = true.
Proof.
  unfold made_of. fold (chars ws). induction (chars ws) as [| c l IH]; [reflexivity |].
  cbn. unfold blank at 1. intros H. apply andb_true_iff in H. destruct H as [H1 H2].
  apply andb_true_iff in H1. destruct H1 as [H1 _]. now rewrite H1, IH.
Qed.

(** What a field line gives. *)
Lemma field_line k ws v :
  k <> EmptyString -> made_of key_char k -> made_of blank ws ->
  made_of any_char v -> starts_black v ->
  line_match (k ++ ":" ++ ws ++ v) = Some [(2, v); (1, k)].
Proof.
  intros Hne Hk Hws Hv Hb. unfold line_match. fold (chars (k ++ ":" ++ ws ++ v)).
  rewrite !chars_app. change (chars ":") with [":"%char].
  unfold line_re. cbn [seqs run]. unfold Plus, Star. cbn [run].
  apply rep_greedy.
  - reflexivity.
  - intros prev. rewrite firstn_taken. cbn [app]. cbn [Js.is_char Js.code colon nat_of_ascii].
    change (Js.is_char colon ":"%char) with true. cbv beta iota.
    apply rep_greedy.
    + destruct v as [| c v']; [exact I | exact Hb].
    + intros prev'.
      rewrite <- (app_nil_r (chars v)).
      apply rep_greedy.
      * exact I.
      * intros prev''. rewrite firstn_taken. cbn [rep at_end].
        now rewrite !string_of_chars.
      * exact Hv.
      * lia.
    + now apply blank_space.
    + lia.
  - exact Hk.
  - destruct k; [congruence | cbn; lia].
Qed.

Lemma push_split c rest :
  exists first others, split_lines rest = first :: others
                       /\ push c (split_lines rest) = String c first :: others.
Proof.
  assert (H : exists first others, split_lines rest = first :: others).
  { destruct rest as [| d rest]; [now exists EmptyString, [] |].
    cbn [split_lines]. destruct (Js.is_char line_feed d); [now eexists; eexists |].
    destruct rest as [| e rest].
    - cbn. now eexists; eexists.
    - destruct (Js.is_char carriage_return d && Js.is_char line_feed e);
        [now eexists; eexists |].
      destruct (split_lines (String e rest)); cbn; now eexists; eexists. }
  destruct H as [first [others H]]. exists first, others. now rewrite H.
Qed.

(** A text without a line terminator, followed by a line feed, is one
    piece. *)
Lemma split_line l rest :
  made_of any_char l ->
  split_lines (l ++ String "010" rest) = l :: split_lines rest.
Proof.
  unfold made_of. induction l as [| c l IH]; intros H.
  - reflexivity.
  - cbn [list_ascii_of_string forallb] in H. apply andb_true_iff in H.
    destruct H as [Hc Hl]. unfold any_char in Hc. apply negb_true_iff in Hc.
    apply orb_false_iff in Hc. destruct Hc as [Hlf Hcr].
    cbn [append split_lines]. rewrite Hlf, Hcr. cbn [andb].
    rewrite (IH Hl).
    destruct l; reflexivity.
Qed.

Lemma fence_text : made_of any_char fence.
Proof. reflexivity. Qed.

Lemma made_of_app p a b : made_of p a -> made_of p b -> made_of p (a ++ b).
Proof.
  unfold made_of. fold (chars (a ++ b)) (chars a) (chars b). rewrite chars_app, forallb_app.
  intros -> ->. reflexivity.
Qed.

Lemma blank_text ws : made_of blank ws -> made_of any_char ws.
Proof.
  unfold made_of. induction (list_ascii_of_string ws) as [| c l IH]; [reflexivity |].
  cbn. unfold blank at 1. intros H. apply andb_true_iff in H. destruct H as [H1 H2].
  apply andb_true_iff in H1. destruct H1 as [_ H1]. now rewrite H1, IH.
Qed.

Lemma key_text k : made_of key_char k -> made_of any_char k.
Proof.
  unfold made_of. induction (list_ascii_of_string k) as [| c l IH]; [reflexivity |].
  cbn. intros H. apply andb_true_iff in H. destruct H as [H1 H2].
  rewrite (IH H2), andb_true_r.
  unfold any_char. apply negb_true_iff, orb_false_iff.
  unfold key_char, Js.is_alnum, Js.is_letter, Js.is_upper, Js.is_lower, Js.is_digit,
    Js.between, Js.is_char, Js.underscore, Js.hyphen, line_feed, carriage_return in *.
  split; apply Nat.eqb_neq; intros E; rewrite E in H1; discriminate.
Qed.

Lemma field_not_fence k rest : String.eqb (k ++ ":" ++ rest) fence = false.
Proof.
  apply String.eqb_neq. intros E.
  assert (H : In ":"%char (chars (k ++ ":" ++ rest))).
  { rewrite chars_app. apply in_or_app. right. left. reflexivity. }
  rewrite E in H. cbn in H. intuition discriminate.
Qed.

(** The first piece is empty only for a text that is empty or begins with
    a line break. *)
Lemma first_piece_empty s others :
  split_lines s = EmptyString :: others ->
  s = EmptyString
  \/ (exists rest, s = String "010" rest)
  \/ (exists rest, s = String "013" (String "010" rest)).
Proof.
  destruct s as [| c s]; [now left |]. cbn [split_lines].
  destruct (Js.is_char line_feed c) eqn:Hlf.
  - intros _. right. left. exists s. f_equal.
    apply Nat.eqb_eq in Hlf. unfold Js.code in Hlf.
    rewrite <- (ascii_nat_embedding c), Hlf. reflexivity.
  - destruct s as [| d s].
    + cbn. discriminate.
    + destruct (Js.is_char carriage_return c && Js.is_char line_feed d) eqn:Hcr.
      * intros _. right. right. exists s.
        apply andb_true_iff in Hcr. destruct Hcr as [H1 H2].
        apply Nat.eqb_eq in H1, H2. unfold Js.code in H1, H2.
        rewrite <- (ascii_nat_embedding c), <- (ascii_nat_embedding d), H1, H2.
        reflexivity.
      * destruct (push_split c (String d s)) as [f [o [_ ->]]]. discriminate.
Qed.

(** One character of the first piece. *)
Lemma first_piece_step s c piece others :
  split_lines s = String c piece :: others ->
  exists rest others', s = String c rest /\ split_lines rest = piece :: others'.
Proof.
  destruct s as [| d s]; [discriminate |]. cbn [split_lines].
  destruct (Js.is_char line_feed d); [discriminate |].
  assert (P : push d (split_lines s) = String c piece :: others ->
              exists rest others', String d s = String c rest
                                   /\ split_lines rest = piece :: others').
  { destruct (push_split d s) as [f [o [E ->]]]. intros [= -> -> ->].
    now exists s, others. }
  destruct s as [| e s]; [exact P |].
  destruct (Js.is_char carriage_return d && Js.is_char line_feed e);
    [discriminate | exact P].
Qed.

Lemma split_fenced s others :
  split_lines s = fence :: others -> fenced s.
Proof.
  intros H. unfold fence in H.
  apply first_piece_step in H. destruct H as [r1 [o1 [-> H]]].
  apply first_piece_step in H. destruct H as [r2 [o2 [-> H]]].
  apply first_piece_step in H. destruct H as [r3 [o3 [-> H]]].
  apply first_piece_empty in H. unfold fenced, fence.
  destruct H as [-> | [[rest ->] | [rest ->]]].
  - now left.
  - right. left. now exists rest.
  - right. right. now exists rest.
Qed.

Lemma fenced_split s :
  fenced s -> exists others, split_lines s = fence :: others.
Proof.
  intros [-> | [[rest ->] | [rest ->]]].
  - now exists [].
  - exists (split_lines rest). reflexivity.
  - exists (split_lines rest). reflexivity.
Qed.

End SkillFacts.

Module SkillListing.

Import Regex Skills SkillFacts.
Local Open Scope string_scope.

(** X29.  A field of the front matter.  For a [SKILL.md] that consists of
    the fence line, one line made of a key of the characters
    [[A-Za-z0-9_-]] (other than [__proto__]), a colon, blanks and a value
    that does not begin with white space, the fence line again and any
    text, the front matter is exactly that key with that value: the blanks
    after the colon are dropped, the value is kept up to the end of its
    line (white space at its end included), and the text after the second
    fence is not read. *)
Theorem front_matter_field k ws v tail :
  k <> EmptyString -> k <> "__proto__" ->
  made_of key_char k -> made_of blank ws ->
  made_of any_char v -> starts_black v ->
  parseFrontmatter
    (fence ++ String "010" (k ++ ":" ++ ws ++ v
                              ++ String "010" (fence ++ String "010" tail)))
  = Some [(k, v)].
Proof.
  intros Hne Hp Hk Hws Hv Hb. unfold parseFrontmatter.
  rewrite (split_line _ fence_text).
  change (String.eqb fence fence) with true. cbv beta iota.
  assert (L : made_of any_char (k ++ ":" ++ ws ++ v)).
  { apply made_of_app; [now apply key_text |].
    apply made_of_app; [reflexivity |].
    apply made_of_app; [now apply blank_text | exact Hv]. }
  replace (k ++ ":" ++ ws ++ v ++ String "010" (fence ++ String "010" tail))
    with ((k ++ ":" ++ ws ++ v) ++ String "010" (fence ++ String "010" tail))
    by now rewrite !append_assoc.
  rewrite (split_line _ L), (split_line _ fence_text).
  cbn [entries]. rewrite field_not_fence, field_line by assumption.
  cbn [group Nat.eqb]. unfold assign.
  apply String.eqb_neq in Hp. rewrite Hp. cbn [Obj.set].
  change (String.eqb fence fence) with true. reflexivity.
Qed.

Lemma front_matter_field_witness :
  parseFrontmatter
    (fence ++ String "010" ("name" ++ ":" ++ "  " ++ "My Skill  "
                              ++ String "010" (fence ++ String "010" "name: other")))
  = Some [("name", "My Skill  ")].
Proof.
  apply (@front_matter_field "name" "  " "My Skill  " "name: other");
    first [discriminate | reflexivity].
Defined.

(** X30.  The opening fence.  The front matter of a [SKILL.md] is read
    exactly when the content is the fence line [---] alone or begins with
    it and a line break (LF or CR LF); otherwise (a space or a blank line
    before the fence, or anything after it on its line) the skill is
    listed under the name of its directory with an empty description. *)
Theorem front_matter_needs_its_fence content :
  (parseFrontmatter content <> None <-> fenced content)
  /\ (forall dirName,
         ~ fenced content -> describe dirName content = mkSkill dirName EmptyString).
Proof.
  assert (A : parseFrontmatter content <> None <-> fenced content).
  { unfold parseFrontmatter. split.
    - destruct (split_lines content) as [| first rest] eqn:E; [congruence |].
      destruct (String.eqb first fence) eqn:F; [| congruence].
      apply String.eqb_eq in F. subst first. intros _. now apply split_fenced in E.
    - intros H. apply fenced_split in H. destruct H as [others ->].
      change (String.eqb fence fence) with true. discriminate. }
  split; [exact A |].
  intros dirName H. unfold describe.
  destruct (parseFrontmatter content) eqn:E; [| reflexivity].
  exfalso. apply H, A. discriminate.
Qed.

End SkillListing.
